(** * mini-rdms: a shallow embedding of the storage engine, the executor
      and the literal/condition parser, with the properties of its
      specification.

    Source files embedded here:
    - [rdbms.py]            Column, Index, Table, Database
    - [database_engine.py]  DatabaseEngine._execute_select / _execute_join_select,
                            _execute_create_table / _execute_insert /
                            _execute_update / _execute_delete, get_table_info,
                            list_tables
    - [sql_parser.py]       SQLParser._parse_value / _parse_conditions /
                            _parse_values, the statement parsers from their
                            matched groups, and the normalisation of [parse]

    Not embedded: the regular expressions of [SQLParser.parse] and the
    dispatch of [DatabaseEngine.execute] that depends on them, the console
    ([repl.py]) and the web front end ([app.py]).

    Conventions.
    - A Python [dict] with string keys is an insertion-ordered association
      list with pairwise distinct keys ([pydict]); assignment [d[k] = v]
      replaces in place or appends ([dict_set]).
    - Python values stored in rows are [None], [int], [str] and [float]
      ([value]).  Equality [==] is [py_eq]: an [int] and a [float] of the same
      numeric value are equal, as in Python.  The parser cannot produce a NaN
      (every spelling of it accepted by [float()] lacks the '.' that sends a
      literal to [float()]), so [pyfloat] has no NaN.
    - Characters are 8-bit ([ascii]); [upper] acts on a-z.
    - A method that mutates [self] and may raise is a function in the
      state-and-exception monad [M]: the state reached when the exception
      leaves the method is part of the result. *)

From Stdlib Require Import List String Ascii Bool ZArith NArith QArith Lia Arith.
From Stdlib Require Import Permutation.
Import ListNotations.

Local Open Scope string_scope.
Local Open Scope list_scope.
Local Open Scope Z_scope.

Set Implicit Arguments.

(* ================================================================== *)
(** * Python values *)

Module Py.

(** A Python [float] other than NaN: a signed zero, a signed infinity or
    [(-1)^neg * m * 2^e]. *)
Inductive pyfloat : Type :=
| FZero (neg : bool)
| FInf (neg : bool)
| FFinite (neg : bool) (m : positive) (e : Z).

Inductive value : Type :=
| VNone
| VInt (z : Z)
| VStr (s : string)
| VFloat (f : pyfloat).

(** The number a numeric value denotes: a rational or a signed infinity. *)
Inductive xnum : Type :=
| XInf (neg : bool)
| XFin (q : Q).

Definition float_num (f : pyfloat) : xnum :=
  match f with
  | FZero _ => XFin 0%Q
  | FInf s => XInf s
  | FFinite s m e =>
      XFin ((if s then (-1) else 1) * inject_Z (Zpos m) * Qpower 2 e)%Q
  end.

Definition xnum_eqb (a b : xnum) : bool :=
  match a, b with
  | XInf s, XInf t => Bool.eqb s t
  | XFin p, XFin q => Qeq_bool p q
  | _, _ => false
  end.

Definition num_of (v : value) : option xnum :=
  match v with
  | VInt z => Some (XFin (inject_Z z))
  | VFloat f => Some (float_num f)
  | _ => None
  end.

(** Python's [a == b]. *)
Definition py_eq (a b : value) : bool :=
  match a, b with
  | VNone, VNone => true
  | VStr s, VStr t => String.eqb s t
  | VInt x, VInt y => Z.eqb x y
  | VInt x, VFloat g => xnum_eqb (XFin (inject_Z x)) (float_num g)
  | VFloat f, VInt y => xnum_eqb (float_num f) (XFin (inject_Z y))
  | VFloat f, VFloat g => xnum_eqb (float_num f) (float_num g)
  | _, _ => false
  end.

(** [a != b]. *)
Definition py_ne (a b : value) : bool := negb (py_eq a b).

(** [v is None]. *)
Definition is_None (v : value) : bool :=
  match v with VNone => true | _ => false end.

(** [x in l] for a list. *)
Definition list_contains (x : value) (l : list value) : bool :=
  existsb (fun e => py_eq e x) l.

(** [l.remove(x)]: drops the first element equal to [x]; [None] stands for
    the [ValueError] raised when there is none. *)
Fixpoint list_remove (x : value) (l : list value) : option (list value) :=
  match l with
  | [] => None
  | e :: l' =>
      if py_eq e x then Some l'
      else match list_remove x l' with
           | Some r => Some (e :: r)
           | None => None
           end
  end.

(** ** String-keyed dictionaries *)

Definition pydict (V : Type) : Type := list (string * V).

Section Dict.
Variable V : Type.

(** [d.get(k)] / [d[k]] ([None]: the key is absent). *)
Fixpoint dict_get (k : string) (d : pydict V) : option V :=
  match d with
  | [] => None
  | (k', v) :: d' => if String.eqb k' k then Some v else dict_get k d'
  end.

(** [k in d]. *)
Definition dict_mem (k : string) (d : pydict V) : bool :=
  match dict_get k d with Some _ => true | None => false end.

(** [d[k] = v]. *)
Fixpoint dict_set (k : string) (v : V) (d : pydict V) : pydict V :=
  match d with
  | [] => [(k, v)]
  | (k', v') :: d' =>
      if String.eqb k' k then (k', v) :: d' else (k', v') :: dict_set k v d'
  end.

Definition dict_keys (d : pydict V) : list string := map fst d.

(** A well-formed dictionary has pairwise distinct keys. *)
Definition dict_wf (d : pydict V) : Prop := NoDup (dict_keys d).
End Dict.

(** [d.get(k)] with its default [None], for a dictionary of values. *)
Definition dict_get_or_None (k : string) (d : pydict value) : value :=
  match dict_get k d with Some v => v | None => VNone end.

(** [bool(d)] of an optional dictionary: [None] and [{}] are falsy. *)
Definition truthy_dict (V : Type) (d : option (pydict V)) : bool :=
  match d with
  | None | Some [] => false
  | Some (_ :: _) => true
  end.

(** [a == b] for two rows (dicts of values): same keys, equal values. *)
Definition dict_eq (a b : pydict value) : bool :=
  Nat.eqb (List.length a) (List.length b) &&
  forallb (fun kv => match dict_get (fst kv) b with
                     | Some w => py_eq (snd kv) w
                     | None => false
                     end) a.

End Py.
Export Py.

(* ================================================================== *)
(** * rdbms.py: schema types, Index, Table, Database *)

Module Rdbms.

Inductive DataType : Type := INT | TEXT | FLOAT.

Inductive Constraint : Type := PRIMARY_KEY | UNIQUE | NONE.

Record Column : Type := mkColumn {
  col_name : string;
  data_type : DataType;
  constraint : Constraint;
  nullable : bool
}.

(** [Column.validate_value] *)
Definition validate_value (self : Column) (v : value) : bool :=
  match v with
  | VNone => nullable self
  | _ =>
      match data_type self, v with
      | INT, VInt _ => true
      | TEXT, VStr _ => true
      | FLOAT, (VInt _ | VFloat _) => true
      | _, _ => false
      end
  end.

(** ** Index

    [Index.index] is a dict from a column value to the list of row
    identifiers; its keys are compared with [==].  The identifiers are
    whatever [row['_row_id']] holds, hence values.  The attribute
    [column_name] is written once by [__init__] and never read; it is left
    out. *)
Definition Index : Type := list (value * list value).

(** [Index.find]: [self.index.get(value, [])] *)
Fixpoint Index_find (self : Index) (v : value) : list value :=
  match self with
  | [] => []
  | (k, ids) :: rest => if py_eq k v then ids else Index_find rest v
  end.

(** [Index.add] *)
Fixpoint Index_add (self : Index) (v : value) (row_id : value) : Index :=
  match self with
  | [] => [(v, [row_id])]
  | (k, ids) :: rest =>
      if py_eq k v then (k, ids ++ [row_id]) :: rest
      else (k, ids) :: Index_add rest v row_id
  end.

(** [Index.remove] *)
Fixpoint Index_remove (self : Index) (v : value) (row_id : value) : Index :=
  match self with
  | [] => []
  | (k, ids) :: rest =>
      if py_eq k v then
        if list_contains row_id ids then
          match list_remove row_id ids with
          | Some [] => rest
          | Some ids' => (k, ids') :: rest
          | None => self
          end
        else self
      else (k, ids) :: Index_remove rest v row_id
  end.

(** ** Table *)

(** A row is a dict from column names (and ['_row_id']) to values. *)
Abbreviation Row := (pydict value).

Record Table : Type := mkTable {
  name : string;
  columns : pydict Column;
  rows : list Row;
  indexes : pydict Index;
  next_row_id : Z
}.

Definition set_rows (t : Table) (r : list Row) : Table :=
  mkTable (name t) (columns t) r (indexes t) (next_row_id t).
Definition set_indexes (t : Table) (ix : pydict Index) : Table :=
  mkTable (name t) (columns t) (rows t) ix (next_row_id t).
Definition set_next_row_id (t : Table) (n : Z) : Table :=
  mkTable (name t) (columns t) (rows t) (indexes t) n.

(** [Table.__init__] *)
Definition Table_init (nm : string) (cols : list Column) : Table :=
  mkTable nm
    (fold_left (fun d c => dict_set (col_name c) c d) cols [])
    []
    (fold_left (fun d c =>
                  match constraint c with
                  | PRIMARY_KEY | UNIQUE => dict_set (col_name c) ([] : Index) d
                  | NONE => d
                  end) cols [])
    1.

(** ** Exceptions raised by the storage layer and the layers above it *)
Inductive exn : Type :=
| UnknownColumn (c : string)
| InvalidValue (c : string) (v : value)
| NullPrimaryKey (c : string)
| PrimaryKeyViolation (c : string) (v : value)
| UniqueViolation (c : string) (v : value)
| KeyError (k : string)
| NotInList
| TableExists (nm : string)
| NoSuchTable (nm : string)
| UnpackError
| InvalidCondition (part : string).

(** ** The monad of a method of [Table] *)

Inductive outcome (A : Type) : Type :=
| Raised (e : exn)
| Returned (a : A).
Arguments Raised {A} e.
Arguments Returned {A} a.

Definition M (A : Type) : Type := Table -> Table * outcome A.

Definition ret {A} (a : A) : M A := fun t => (t, Returned a).
Definition raise {A} (e : exn) : M A := fun t => (t, Raised e).
Definition bind {A B} (m : M A) (k : A -> M B) : M B :=
  fun t => match m t with
           | (t', Returned a) => k a t'
           | (t', Raised e) => (t', Raised e)
           end.
Definition get : M Table := fun t => (t, Returned t).
Definition put (t' : Table) : M unit := fun _ => (t', Returned tt).

Notation "x <- m ;; k" := (bind m (fun x => k))
  (at level 61, m at next level, right associativity).
Notation "m ;;; k" := (bind m (fun _ => k))
  (at level 61, right associativity).

(** A [for] loop whose body may raise. *)
Fixpoint for_each {X} (l : list X) (body : X -> M unit) : M unit :=
  match l with
  | [] => ret tt
  | x :: l' => body x ;;; for_each l' body
  end.

(** [d[k]], raising [KeyError] *)
Definition subscript {V} (d : pydict V) (k : string) : M V :=
  match dict_get k d with
  | Some v => ret v
  | None => raise (KeyError k)
  end.

(** The type-validation loop shared by [insert_row] and [update_rows]. *)
Definition validate_item (kv : string * value) : M unit :=
  self <- get ;;
  match dict_get (fst kv) (columns self) with
  | None => raise (UnknownColumn (fst kv))
  | Some column =>
      if validate_value column (snd kv) then ret tt
      else raise (InvalidValue (fst kv) (snd kv))
  end.

(** The primary-key / unique test, written twice in the source
    (insert_row lines 100-110, update_rows lines 174-182). *)
Definition check_constraint (column : Column) (c : string) (v : value) : M unit :=
  match constraint column with
  | PRIMARY_KEY =>
      if is_None v then raise (NullPrimaryKey c)
      else
        self <- get ;;
        ix <- subscript (indexes self) c ;;
        match Index_find ix v with
        | [] => ret tt
        | _ :: _ => raise (PrimaryKeyViolation c v)
        end
  | UNIQUE =>
      if negb (is_None v) then
        self <- get ;;
        ix <- subscript (indexes self) c ;;
        match Index_find ix v with
        | [] => ret tt
        | _ :: _ => raise (UniqueViolation c v)
        end
      else ret tt
  | NONE => ret tt
  end.

Definition check_item (kv : string * value) : M unit :=
  self <- get ;;
  column <- subscript (columns self) (fst kv) ;;
  check_constraint column (fst kv) (snd kv).

(** [self.indexes[c].add(v, row_id)] *)
Definition index_add (c : string) (v row_id : value) : M unit :=
  self <- get ;;
  ix <- subscript (indexes self) c ;;
  put (set_indexes self (dict_set c (Index_add ix v row_id) (indexes self))).

(** [self.indexes[c].remove(v, row_id)] *)
Definition index_remove (c : string) (v row_id : value) : M unit :=
  self <- get ;;
  ix <- subscript (indexes self) c ;;
  put (set_indexes self (dict_set c (Index_remove ix v row_id) (indexes self))).

(** [if c in self.indexes: self.indexes[c].add(v, row_id)] *)
Definition index_add_if_indexed (c : string) (v row_id : value) : M unit :=
  self <- get ;;
  if dict_mem c (indexes self) then index_add c v row_id else ret tt.

(** [if c in self.indexes: self.indexes[c].remove(v, row_id)] *)
Definition index_remove_if_indexed (c : string) (v row_id : value) : M unit :=
  self <- get ;;
  if dict_mem c (indexes self) then index_remove c v row_id else ret tt.

(** The row built at lines 113-115. *)
Definition new_row (self : Table) (values : pydict value) : Row :=
  fold_left (fun row kc => dict_set (fst kc) (dict_get_or_None (fst kc) values) row)
            (columns self) [("_row_id", VInt (next_row_id self))].

(** [Table.insert_row] *)
Definition insert_row (values : pydict value) : M Z :=
  for_each values validate_item ;;;
  for_each values check_item ;;;
  self <- get ;;
  let row := new_row self values in
  put (set_rows self (rows self ++ [row])) ;;;
  let row_id := next_row_id self in
  self <- get ;;
  put (set_next_row_id self (next_row_id self + 1)) ;;;
  for_each values (fun kv => index_add_if_indexed (fst kv) (snd kv) (VInt row_id)) ;;;
  ret row_id.

(** The test of lines 136-140 for one row. *)
Definition row_matches (conditions : pydict value) (row : Row) : bool :=
  forallb (fun kv => match dict_get (fst kv) row with
                     | Some v => py_eq v (snd kv)
                     | None => false
                     end) conditions.

(** [Table.find_rows]: the rows are returned as the objects stored in
    [self.rows]. *)
Definition find_rows (self : Table) (conditions : option (pydict value)) : list Row :=
  match conditions with
  | None | Some [] => rows self
  | Some conds => filter (row_matches conds) (rows self)
  end.

(** The positions in [self.rows] of the row objects [find_rows] returns:
    [update_rows] mutates those objects in place, so it needs to know which
    they are. *)
Fixpoint positions_from (n : nat) (p : Row -> bool) (l : list Row) : list nat :=
  match l with
  | [] => []
  | r :: l' => if p r then n :: positions_from (S n) p l' else positions_from (S n) p l'
  end.

Definition find_row_positions (self : Table) (conditions : option (pydict value)) : list nat :=
  match conditions with
  | None | Some [] => seq 0 (List.length (rows self))
  | Some conds => positions_from 0 (row_matches conds) (rows self)
  end.

(** Replace the element at a position ([l[i] = x] for an existing [i]). *)
Fixpoint list_update {X} (i : nat) (x : X) (l : list X) : list X :=
  match l, i with
  | [], _ => []
  | _ :: l', O => x :: l'
  | y :: l', S j => y :: list_update j x l'
  end.

(** The row object at position [i].  The positions handed to it come from
    [find_row_positions] and lie inside [self.rows]; the second branch only
    makes the function total. *)
Definition row_at (i : nat) : M Row :=
  self <- get ;;
  match nth_error (rows self) i with
  | Some r => ret r
  | None => raise NotInList
  end.

(** Lines 161-189 for one item of [updates], on the row object at
    position [i] whose identifier was read into [row_id] at line 151. *)
Definition update_item (i : nat) (row_id : value) (kv : string * value) : M unit :=
  let c := fst kv in
  let new_value := snd kv in
  self <- get ;;
  column <- subscript (columns self) c ;;
  row <- row_at i ;;
  old_value <- subscript row c ;;
  if py_eq old_value new_value then ret tt
  else
    index_remove_if_indexed c old_value row_id ;;;
    check_constraint column c new_value ;;;
    self <- get ;;
    row <- row_at i ;;
    put (set_rows self (list_update i (dict_set c new_value row) (rows self))) ;;;
    index_add_if_indexed c new_value row_id.

(** Lines 151-191 for one matched row. *)
Definition update_row (updates : pydict value) (i : nat) : M unit :=
  row <- row_at i ;;
  row_id <- subscript row "_row_id" ;;
  for_each updates validate_item ;;;
  for_each updates (update_item i row_id).

(** [Table.update_rows]: the count returned is the number of matched rows. *)
Definition update_rows (conditions : option (pydict value)) (updates : pydict value) : M Z :=
  self <- get ;;
  let rows_to_update := find_row_positions self conditions in
  for_each rows_to_update (update_row updates) ;;;
  ret (Z.of_nat (List.length rows_to_update)).

(** [self.rows.remove(row)] *)
Fixpoint rows_remove (row : Row) (l : list Row) : option (list Row) :=
  match l with
  | [] => None
  | r :: l' =>
      if dict_eq r row then Some l'
      else match rows_remove row l' with
           | Some l'' => Some (r :: l'')
           | None => None
           end
  end.

(** Lines 201-210 for one row to delete. *)
Definition delete_row (row : Row) : M unit :=
  row_id <- subscript row "_row_id" ;;
  self <- get ;;
  for_each (dict_keys (indexes self))
    (fun c => match dict_get c row with
              | Some v => index_remove c v row_id
              | None => ret tt
              end) ;;;
  self <- get ;;
  match rows_remove row (rows self) with
  | Some l => put (set_rows self l)
  | None => raise NotInList
  end.

(** [Table.delete_rows] *)
Definition delete_rows (conditions : option (pydict value)) : M Z :=
  self <- get ;;
  let rows_to_delete := find_rows self conditions in
  for_each rows_to_delete delete_row ;;;
  ret (Z.of_nat (List.length rows_to_delete)).

(** ** Database *)

Definition Database : Type := pydict Table.

(** [Database.create_table] *)
Definition create_table (db : Database) (nm : string) (cols : list Column)
  : Database * outcome Table :=
  if dict_mem nm db then (db, Raised (TableExists nm))
  else let t := Table_init nm cols in (dict_set nm t db, Returned t).

(** [Database.get_table] *)
Definition get_table (db : Database) (nm : string) : outcome Table :=
  match dict_get nm db with
  | Some t => Returned t
  | None => Raised (NoSuchTable nm)
  end.

End Rdbms.
Export Rdbms.

(* ================================================================== *)
(** * database_engine.py: the executor *)

Module Engine.

(** [SelectCommand] (sql_parser.py) *)
Record SelectCommand : Type := mkSelect {
  table_name : string;
  sel_columns : list string;
  where_conditions : option (pydict value);
  join_table : option string;
  join_conditions : option (pydict value)
}.

(** The text of [QueryResult.message], kept structured: the f-strings of
    the source with their arguments. *)
Inductive Message : Type :=
| MsgSelected (n : nat) (tbl : string)
| MsgSelectedJoin (n : nat) (left right : string)
| MsgFailedSelect (e : exn)
| MsgFailedJoin (e : exn).

Record QueryResult : Type := mkResult {
  success : bool;
  message : Message;
  data : option (list (pydict value));
  affected_rows : Z
}.

(** [s.split('.')] for a column key: the pieces between the dots. *)
Fixpoint split_char (sep : ascii) (s : string) : list string :=
  match s with
  | EmptyString => [EmptyString]
  | String c s' =>
      if Ascii.eqb c sep then EmptyString :: split_char sep s'
      else match split_char sep s' with
           | [] => [String c EmptyString]
           | p :: ps => String c p :: ps
           end
  end.

(** ['.' in s] and the like *)
Fixpoint contains_char (c : ascii) (s : string) : bool :=
  match s with
  | EmptyString => false
  | String c' s' => Ascii.eqb c' c || contains_char c s'
  end.

Definition dot : ascii := "."%char.

(** One iteration of the condition loops of lines 131-150 and 156-173:
    [Returned false] is the [break] with the flag cleared. *)
Definition pair_condition (left_name : string) (right_name : option string)
    (left_row right_row : Row) (kv : string * value) : outcome bool :=
  let col := fst kv in
  let v := snd kv in
  if contains_char dot col then
    match split_char dot col with
    | [tname; cname] =>
        if String.eqb tname left_name then
          Returned (py_eq (dict_get_or_None cname left_row) v)
        else if match right_name with
                | Some rn => String.eqb tname rn
                | None => false
                end then
          Returned (py_eq (dict_get_or_None cname right_row) v)
        else Returned true
    | _ => Raised UnpackError
    end
  else
    if match dict_get col left_row with
       | Some lv => py_ne lv v
       | None => false
       end then Returned false
    else if match dict_get col right_row with
            | Some rv => py_ne rv v
            | None => false
            end then Returned false
    else Returned true.

(** A whole condition loop over [conds.items()]. *)
Fixpoint pair_conditions (left_name : string) (right_name : option string)
    (left_row right_row : Row) (conds : pydict value) : outcome bool :=
  match conds with
  | [] => Returned true
  | kv :: rest =>
      match pair_condition left_name right_name left_row right_row kv with
      | Raised e => Raised e
      | Returned false => Returned false
      | Returned true => pair_conditions left_name right_name left_row right_row rest
      end
  end.

(** [if conds: <loop>], the flag staying [True] for a falsy [conds]. *)
Definition optional_conditions (left_name : string) (right_name : option string)
    (left_row right_row : Row) (conds : option (pydict value)) : outcome bool :=
  if truthy_dict conds then
    match conds with
    | Some c => pair_conditions left_name right_name left_row right_row c
    | None => Returned true
    end
  else Returned true.

(** Lines 182-184 / 187-189: copy a row under a prefix, without its
    ['_row_id']. *)
Definition add_prefixed (prefix : string) (row : Row) (joined : pydict value)
  : pydict value :=
  fold_left (fun j kv =>
               if String.eqb (fst kv) "_row_id" then j
               else dict_set (prefix ++ "." ++ fst kv) (snd kv) j)
            row joined.

(** The name [f"{command.join_table}"] shows for an optional name. *)
Definition show_opt_name (n : option string) : string :=
  match n with Some s => s | None => "None" end.

Definition merge_rows (left_name : string) (right_name : option string)
    (left_row right_row : Row) : pydict value :=
  add_prefixed (show_opt_name right_name) right_row
    (add_prefixed left_name left_row []).

(** The body of the two nested loops for one pair: [None] when the pair is
    dropped, the merged row otherwise. *)
Definition join_pair (command : SelectCommand) (left_row right_row : Row)
  : outcome (option (pydict value)) :=
  match optional_conditions (table_name command) (join_table command)
          left_row right_row (join_conditions command) with
  | Raised e => Raised e
  | Returned false => Returned None
  | Returned true =>
      match optional_conditions (table_name command) (join_table command)
              left_row right_row (where_conditions command) with
      | Raised e => Raised e
      | Returned false => Returned None
      | Returned true =>
          Returned (Some (merge_rows (table_name command) (join_table command)
                            left_row right_row))
      end
  end.

(** Appending what a loop produces, stopping at the first exception. *)
Fixpoint collect {X Y} (f : X -> outcome (list Y)) (l : list X) : outcome (list Y) :=
  match l with
  | [] => Returned []
  | x :: l' =>
      match f x with
      | Raised e => Raised e
      | Returned ys =>
          match collect f l' with
          | Raised e => Raised e
          | Returned zs => Returned (ys ++ zs)
          end
      end
  end.

Definition nested_loop_join (command : SelectCommand) (left_rows right_rows : list Row)
  : outcome (list (pydict value)) :=
  collect (fun left_row =>
    collect (fun right_row =>
      match join_pair command left_row right_row with
      | Raised e => Raised e
      | Returned None => Returned []
      | Returned (Some j) => Returned [j]
      end) right_rows) left_rows.

(** The projection of lines 98-106 and 194-202. *)
Definition project_row (cols : list string) (row : pydict value) : pydict value :=
  fold_left (fun filtered c =>
               match dict_get c row with
               | Some v => dict_set c v filtered
               | None => filtered
               end) cols [].

Definition is_star (cols : list string) : bool :=
  match cols with
  | [c] => String.eqb c "*"
  | _ => false
  end.

Definition project (cols : list string) (rs : list (pydict value)) : list (pydict value) :=
  if is_star cols then rs else map (project_row cols) rs.

(** [self.database.get_table(command.join_table)]: a name that is [None]
    is not a key of the database. *)
Definition get_opt_table (db : Database) (n : option string) : outcome Table :=
  match n with
  | Some nm => get_table db nm
  | None => Raised (NoSuchTable "None")
  end.

(** [DatabaseEngine._execute_join_select] *)
Definition _execute_join_select (db : Database) (command : SelectCommand) : QueryResult :=
  match get_table db (table_name command) with
  | Raised e => mkResult false (MsgFailedJoin e) None 0
  | Returned left_table =>
      match get_opt_table db (join_table command) with
      | Raised e => mkResult false (MsgFailedJoin e) None 0
      | Returned right_table =>
          match nested_loop_join command (find_rows left_table None)
                  (find_rows right_table None) with
          | Raised e => mkResult false (MsgFailedJoin e) None 0
          | Returned joined_rows =>
              let out := project (sel_columns command) joined_rows in
              mkResult true
                (MsgSelectedJoin (List.length out) (table_name command)
                   (show_opt_name (join_table command)))
                (Some out) 0
          end
      end
  end.

(** [bool(command.join_table)] *)
Definition truthy_name (n : option string) : bool :=
  match n with
  | None | Some EmptyString => false
  | Some (String _ _) => true
  end.

(** [DatabaseEngine._execute_select] *)
Definition _execute_select (db : Database) (command : SelectCommand) : QueryResult :=
  match get_table db (table_name command) with
  | Raised e => mkResult false (MsgFailedSelect e) None 0
  | Returned table =>
      if truthy_name (join_table command) then _execute_join_select db command
      else
        let out := project (sel_columns command)
                     (find_rows table (where_conditions command)) in
        mkResult true (MsgSelected (List.length out) (table_name command)) (Some out) 0
  end.

End Engine.
Export Engine.

(* ================================================================== *)
(** * sql_parser.py: value literals and condition clauses *)

Module Parser.

(** ** The string methods the parser calls *)

(** [str.isspace] on one character (code points below 256). *)
Definition is_space (c : ascii) : bool :=
  let n := N_of_ascii c in
  ((9 <=? n) && (n <=? 13) || (28 <=? n) && (n <=? 32)
   || (n =? 133) || (n =? 160))%N.

Fixpoint lstrip (s : string) : string :=
  match s with
  | EmptyString => EmptyString
  | String c s' => if is_space c then lstrip s' else s
  end.

Fixpoint rstrip (s : string) : string :=
  match s with
  | EmptyString => EmptyString
  | String c s' =>
      match rstrip s' with
      | EmptyString => if is_space c then EmptyString else String c EmptyString
      | r => String c r
      end
  end.

(** [s.strip()] *)
Definition strip (s : string) : string := rstrip (lstrip s).

(** One character of [s.upper()].  Only a-z are mapped; the characters
    above 127 that Python maps go to characters other than N, U and L, so
    the comparison with ['NULL'] is not affected. *)
Definition upper_char (c : ascii) : ascii :=
  let n := N_of_ascii c in
  if ((97 <=? n) && (n <=? 122))%N then ascii_of_N (n - 32) else c.

(** [s.upper()] *)
Fixpoint upper (s : string) : string :=
  match s with
  | EmptyString => EmptyString
  | String c s' => String (upper_char c) (upper s')
  end.

Definition quote : ascii := "'"%char.

(** [s.startswith("'")] *)
Definition startswith_quote (s : string) : bool :=
  match s with
  | String c _ => Ascii.eqb c quote
  | EmptyString => false
  end.

(** [s.endswith("'")] *)
Fixpoint endswith_quote (s : string) : bool :=
  match s with
  | EmptyString => false
  | String c EmptyString => Ascii.eqb c quote
  | String _ s' => endswith_quote s'
  end.

(** [s[1:-1]] *)
Definition slice_1_m1 (s : string) : string :=
  substring 1 (String.length s - 2) s.

(** [s.replace(old, new)] for a non-empty [old]: left to right, occurrences
    that do not overlap.  [skip] counts the characters of a matched [old]
    still to be passed over. *)
Fixpoint replace_from (old new : string) (skip : nat) (s : string) : string :=
  match s with
  | EmptyString => EmptyString
  | String c s' =>
      match skip with
      | S k => replace_from old new k s'
      | O =>
          if prefix old s
          then new ++ replace_from old new (String.length old - 1) s'
          else String c (replace_from old new 0 s')
      end
  end.

Definition replace (old new s : string) : string := replace_from old new 0 s.

(** [s.split(sep)] for a non-empty [sep]. *)
Fixpoint split_from (sep : string) (skip : nat) (s : string) : list string :=
  match s with
  | EmptyString => [EmptyString]
  | String c s' =>
      match skip with
      | S k => split_from sep k s'
      | O =>
          if prefix sep s
          then EmptyString :: split_from sep (String.length sep - 1) s'
          else match split_from sep 0 s' with
               | p :: ps => String c p :: ps
               | [] => [String c EmptyString]
               end
      end
  end.

Definition split (sep s : string) : list string := split_from sep 0 s.

(** [s.split('=', 1)]: at most one cut, at the first ['=']. *)
Fixpoint split_once (sep : ascii) (s : string) : list string :=
  match s with
  | EmptyString => [EmptyString]
  | String c s' =>
      if Ascii.eqb c sep then [EmptyString; s']
      else match split_once sep s' with
           | p :: ps => String c p :: ps
           | [] => [String c EmptyString]
           end
  end.

Definition equals_sign : ascii := "="%char.

Section WithNumberParsers.
(** Python's [float(s)] and [int(s)] on a string; [None] is their
    [ValueError]. *)
Variable py_float : string -> option pyfloat.
Variable py_int : string -> option Z.

(** [SQLParser._parse_value] *)
Definition _parse_value (value_str : string) : value :=
  let value_str := strip value_str in
  if String.eqb (upper value_str) "NULL" then VNone
  else if startswith_quote value_str && endswith_quote value_str then
    VStr (replace "''" "'" (slice_1_m1 value_str))
  else
    match (if contains_char dot value_str
           then option_map VFloat (py_float value_str)
           else option_map VInt (py_int value_str)) with
    | Some v => v
    | None => VStr value_str
    end.

(** The loop body of [_parse_conditions] for one conjunct. *)
Definition parse_conjunct (conditions : pydict value) (part : string)
  : outcome (pydict value) :=
  if negb (contains_char equals_sign part) then Raised (InvalidCondition part)
  else
    match split_once equals_sign part with
    | [col; v] => Returned (dict_set (strip col) (_parse_value (strip v)) conditions)
    | _ => Raised UnpackError
    end.

Fixpoint parse_conjuncts (conditions : pydict value) (parts : list string)
  : outcome (pydict value) :=
  match parts with
  | [] => Returned conditions
  | part :: rest =>
      match parse_conjunct conditions part with
      | Raised e => Raised e
      | Returned conditions' => parse_conjuncts conditions' rest
      end
  end.

(** [SQLParser._parse_conditions] *)
Definition _parse_conditions (conditions_str : string) : outcome (pydict value) :=
  let and_parts := map strip (split "AND" conditions_str) in
  parse_conjuncts [] and_parts.
End WithNumberParsers.

End Parser.
Export Parser.

(* ================================================================== *)
(** * Notions the properties are stated with *)

Module Props.

(** The identifier each live row carries, in row order. *)
Definition row_ids (t : Table) : list (option value) :=
  map (dict_get "_row_id") (rows t).

(** The state [index_remove_if_indexed] and [index_add_if_indexed] lead to
    (they never raise). *)
Definition after_index_remove (c : string) (v row_id : value) (t : Table) : Table :=
  match dict_get c (indexes t) with
  | Some ix => set_indexes t (dict_set c (Index_remove ix v row_id) (indexes t))
  | None => t
  end.

Definition after_index_add (c : string) (v row_id : value) (t : Table) : Table :=
  match dict_get c (indexes t) with
  | Some ix => set_indexes t (dict_set c (Index_add ix v row_id) (indexes t))
  | None => t
  end.

(** The table [insert_row] leaves once its checks have passed. *)
Definition insert_commit (values : pydict value) (t : Table) : Table :=
  fold_left (fun u kv => after_index_add (fst kv) (snd kv) (VInt (next_row_id t)) u)
            values
            (set_next_row_id (set_rows t (rows t ++ [new_row t values]))
                             (next_row_id t + 1)).

(** The table after the loop of lines 204-206 over the columns [keys]. *)
Definition after_purge (row : Row) (row_id : value) (keys : list string) (t : Table)
  : Table :=
  fold_left (fun u c => match dict_get c row with
                        | Some v => after_index_remove c v row_id u
                        | None => u
                        end) keys t.

(** The schema has no column called ['_row_id']. *)
Definition no_row_id_column (t : Table) : Prop :=
  dict_get "_row_id" (columns t) = None.

(** [sep.join(parts)] *)
Fixpoint join_with (sep : string) (parts : list string) : string :=
  match parts with
  | [] => EmptyString
  | [p] => p
  | p :: rest => p ++ sep ++ join_with sep rest
  end.

(** [s[k:]] *)
Fixpoint string_drop (k : nat) (s : string) : string :=
  match k, s with
  | O, _ => s
  | S _, EmptyString => EmptyString
  | S k', String _ s' => string_drop k' s'
  end.

(** The text of a quoted literal: reading left to right, each pair of
    quotes stands for one quote. *)
Fixpoint unescape (s : string) : string :=
  match s with
  | EmptyString => EmptyString
  | String c s' =>
      match s' with
      | String c' s'' =>
          if Ascii.eqb c quote && Ascii.eqb c' quote
          then String quote (unescape s'')
          else String c (unescape s')
      | EmptyString => String c EmptyString
      end
  end.

(** The four letters of NULL, each in either case. *)
Definition null_spelling (s : string) : Prop :=
  exists a b c d : ascii,
    s = String a (String b (String c (String d EmptyString)))
    /\ (a = "n" \/ a = "N")%char /\ (b = "u" \/ b = "U")%char
    /\ (c = "l" \/ c = "L")%char /\ (d = "l" \/ d = "L")%char.

(** The literal starts with a quote and ends with a quote. *)
Definition quoted (s : string) : Prop :=
  startswith_quote s = true /\ endswith_quote s = true.

(** The dictionary a sequence of assignments [d[k] = v] builds. *)
Definition dict_of_items (items : list (string * value)) : pydict value :=
  fold_left (fun d kv => dict_set (fst kv) (snd kv) d) items [].

(** The number of occurrences of a character. *)
Fixpoint count_char (c : ascii) (s : string) : nat :=
  match s with
  | EmptyString => O
  | String c' s' => if Ascii.eqb c' c then S (count_char c s') else count_char c s'
  end.

(** A conjunct with an ['='] in it. *)
Definition has_equals (part : string) : Prop :=
  contains_char equals_sign part = true.

(** The entry a conjunct contributes to the conditions: key and literal
    are what stands before and after its first ['=']. *)
Definition conjunct_item (py_float : string -> option pyfloat)
    (py_int : string -> option Z) (part : string) (kv : string * value) : Prop :=
  exists l r,
    part = (l ++ String equals_sign r)%string
    /\ contains_char equals_sign l = false
    /\ kv = (strip l, _parse_value py_float py_int (strip r)).

(** ** Index consistency *)

(** All the identifiers an index lists. *)
Definition index_ids (ix : Index) : list value := List.concat (map snd ix).

(** The keys of an index are pairwise different under [==], as the keys
    of a dict are. *)
Fixpoint keys_distinct (ix : Index) : Prop :=
  match ix with
  | [] => True
  | (k, _) :: rest =>
      (forall k' ids, In (k', ids) rest -> py_eq k k' = false)
      /\ keys_distinct rest
  end.

Definition index_wf (ix : Index) : Prop :=
  keys_distinct ix /\ NoDup (index_ids ix).

(** Every identifier an index entry lists is the identifier of a live row
    whose current value in the indexed column equals the entry's key. *)
Definition index_sound (t : Table) : Prop :=
  forall c ix k ids id,
    dict_get c (indexes t) = Some ix ->
    In (k, ids) ix -> In id ids ->
    exists r v,
      In r (rows t) /\ dict_get "_row_id" r = Some id
      /\ dict_get c r = Some v /\ py_eq v k = true.

(** Every live row with a non-null value in an indexed column is listed
    in the entry [Index.find] returns for that value. *)
Definition index_complete (t : Table) : Prop :=
  forall r c ix v id,
    In r (rows t) ->
    dict_get c (indexes t) = Some ix ->
    dict_get c r = Some v -> v <> VNone ->
    dict_get "_row_id" r = Some id ->
    In id (Index_find ix v).

(** The first half of the index-consistency claim, read literally: every
    live row is listed under its current value, whatever that value. *)
Definition index_lists_every_row (t : Table) : Prop :=
  forall r c ix v id,
    In r (rows t) ->
    dict_get c (indexes t) = Some ix ->
    dict_get c r = Some v ->
    dict_get "_row_id" r = Some id ->
    In id (Index_find ix v).

(** What holds of a table between two operations. *)
Unset Implicit Arguments.
Record table_inv (t : Table) : Prop := mk_table_inv {
  inv_no_row_id_column : no_row_id_column t;
  inv_indexed_is_column :
    forall c, dict_get c (indexes t) <> None -> dict_get c (columns t) <> None;
  inv_ids_fresh :
    forall r, In r (rows t) ->
              exists n, dict_get "_row_id" r = Some (VInt n) /\ n < next_row_id t;
  inv_ids_distinct : NoDup (row_ids t);
  inv_index_sound : index_sound t;
  inv_index_wf : forall c ix, dict_get c (indexes t) = Some ix -> index_wf ix
}.
Set Implicit Arguments.
Arguments inv_no_row_id_column {t} _.
Arguments inv_indexed_is_column {t} _.
Arguments inv_ids_fresh {t} _.
Arguments inv_ids_distinct {t} _.
Arguments inv_index_sound {t} _.
Arguments inv_index_wf {t} _.

(** No two live rows hold equal non-null values in a column whose
    constraint is PrimaryKey or Unique. *)
Definition unique_values (t : Table) : Prop :=
  forall c column r1 r2 v1 v2,
    dict_get c (columns t) = Some column -> constraint column <> NONE ->
    In r1 (rows t) -> In r2 (rows t) ->
    dict_get "_row_id" r1 <> dict_get "_row_id" r2 ->
    dict_get c r1 = Some v1 -> dict_get c r2 = Some v2 ->
    v1 <> VNone -> py_eq v1 v2 = false.

(** ** Sequences of operations on a table *)

Inductive Op : Type :=
| OpInsert (values : pydict value)
| OpUpdate (conditions : option (pydict value)) (updates : pydict value)
| OpDelete (conditions : option (pydict value)).

Definition run_op (o : Op) : M Z :=
  match o with
  | OpInsert values => insert_row values
  | OpUpdate conditions updates => update_rows conditions updates
  | OpDelete conditions => delete_rows conditions
  end.

(** The table after the operations, each one leaving the state it
    reached, exception or not. *)
Fixpoint run_ops (t : Table) (ops : list Op) : Table :=
  match ops with
  | [] => t
  | o :: ops' => run_ops (fst (run_op o t)) ops'
  end.

(** No operation of the sequence raised. *)
Fixpoint all_returned (t : Table) (ops : list Op) : Prop :=
  match ops with
  | [] => True
  | o :: ops' =>
      (exists n, snd (run_op o t) = Returned n)
      /\ all_returned (fst (run_op o t)) ops'
  end.

(** The values of an INSERT are a dict: no key twice. *)
Definition op_wf (o : Op) : Prop :=
  match o with
  | OpInsert values => dict_wf values
  | _ => True
  end.

End Props.
Export Props.

(* ================================================================== *)
(** * database_engine.py: the statements that change the database, and
      the catalogue *)

Module Executor.

(** [Database.list_tables] (rdbms.py) *)
Definition Database_list_tables (db : Database) : list string := dict_keys db.

(** [CreateTableCommand], [InsertCommand], [UpdateCommand] and
    [DeleteCommand] (sql_parser.py) *)
Record CreateTableCommand : Type := mkCreateTable {
  ct_table_name : string;
  ct_columns : list Column
}.

Record InsertCommand : Type := mkInsert {
  ins_table_name : string;
  ins_values : pydict value
}.

Record UpdateCommand : Type := mkUpdate {
  upd_table_name : string;
  set_values : pydict value;
  upd_where_conditions : option (pydict value)
}.

Record DeleteCommand : Type := mkDelete {
  del_table_name : string;
  del_where_conditions : option (pydict value)
}.

(** The messages of these methods: the f-strings of the source with their
    arguments; the one of CREATE TABLE, which formats only text, is the
    text itself. *)
Inductive Notice : Type :=
| MsgCreated (text : string)
| MsgFailedCreate (e : exn)
| MsgInserted (tbl : string) (row_id : Z)
| MsgFailedInsert (e : exn)
| MsgUpdated (n : Z) (tbl : string)
| MsgFailedUpdate (e : exn)
| MsgDeleted (n : Z) (tbl : string)
| MsgFailedDelete (e : exn)
| MsgTableInfo (tbl : string)
| MsgFailedInfo (e : exn)
| MsgFound (n : nat).

(** [QueryResult] as these methods build it, with the type of the entries
    of [data] as a parameter. *)
Record Reply (D : Type) : Type := mkReply {
  reply_success : bool;
  reply_message : Notice;
  reply_data : option (list D);
  reply_affected_rows : Z
}.
Arguments mkReply {D} _ _ _ _.

(** [DataType.value] and [Constraint.value] *)
Definition DataType_value (d : DataType) : string :=
  match d with INT => "INT" | TEXT => "TEXT" | FLOAT => "FLOAT" end.

Definition Constraint_value (c : Constraint) : string :=
  match c with PRIMARY_KEY => "PRIMARY_KEY" | UNIQUE => "UNIQUE" | NONE => "NONE" end.

(** Lines 58-64: the text shown for one column. *)
Definition column_info (col : Column) : string :=
  let col_str := (col_name col ++ " " ++ DataType_value (data_type col))%string in
  let col_str := match constraint col with
                 | PRIMARY_KEY => (col_str ++ " PRIMARY KEY")%string
                 | UNIQUE => (col_str ++ " UNIQUE")%string
                 | NONE => col_str
                 end in
  if negb (nullable col) then (col_str ++ " NOT NULL")%string else col_str.

(** [DatabaseEngine._execute_create_table] *)
Definition _execute_create_table (db : Database) (command : CreateTableCommand)
  : Database * Reply (pydict value) :=
  match create_table db (ct_table_name command) (ct_columns command) with
  | (db', Returned _) =>
      (db', mkReply true
              (MsgCreated ("Table '" ++ ct_table_name command
                           ++ "' created with columns: "
                           ++ join_with ", " (map column_info (ct_columns command)))%string)
              None 0)
  | (db', Raised e) => (db', mkReply false (MsgFailedCreate e) None 0)
  end.

(** A method called on the table object registered under [nm].  The object
    is mutated in place: the database holds the table the call leaves,
    whether the call returns or raises. *)
Definition on_table {A} (db : Database) (nm : string) (m : M A)
  : Database * outcome A :=
  match get_table db nm with
  | Raised e => (db, Raised e)
  | Returned table =>
      let (table', o) := m table in (dict_set nm table' db, o)
  end.

(** [DatabaseEngine._execute_insert] *)
Definition _execute_insert (db : Database) (command : InsertCommand)
  : Database * Reply (pydict value) :=
  match on_table db (ins_table_name command) (insert_row (ins_values command)) with
  | (db', Returned row_id) =>
      (db', mkReply true (MsgInserted (ins_table_name command) row_id) None 1)
  | (db', Raised e) => (db', mkReply false (MsgFailedInsert e) None 0)
  end.

(** [DatabaseEngine._execute_update] *)
Definition _execute_update (db : Database) (command : UpdateCommand)
  : Database * Reply (pydict value) :=
  match on_table db (upd_table_name command)
          (update_rows (upd_where_conditions command) (set_values command)) with
  | (db', Returned updated_count) =>
      (db', mkReply true (MsgUpdated updated_count (upd_table_name command))
              None updated_count)
  | (db', Raised e) => (db', mkReply false (MsgFailedUpdate e) None 0)
  end.

(** [DatabaseEngine._execute_delete] *)
Definition _execute_delete (db : Database) (command : DeleteCommand)
  : Database * Reply (pydict value) :=
  match on_table db (del_table_name command)
          (delete_rows (del_where_conditions command)) with
  | (db', Returned deleted_count) =>
      (db', mkReply true (MsgDeleted deleted_count (del_table_name command))
              None deleted_count)
  | (db', Raised e) => (db', mkReply false (MsgFailedDelete e) None 0)
  end.

(** The dictionaries [get_table_info] builds (lines 239-253). *)
Record ColumnInfo : Type := mkColumnInfo {
  info_column_name : string;
  info_type : string;
  info_constraint : string;
  info_nullable : bool
}.

Record TableInfo : Type := mkTableInfo {
  info_name : string;
  info_columns : list ColumnInfo;
  info_row_count : nat;
  info_indexes : list string
}.

Definition table_info (table : Table) : TableInfo :=
  mkTableInfo (name table)
    (map (fun kc : string * Column =>
            mkColumnInfo (fst kc) (DataType_value (data_type (snd kc)))
              (Constraint_value (constraint (snd kc))) (nullable (snd kc)))
         (columns table))
    (List.length (rows table))
    (dict_keys (indexes table)).

(** [DatabaseEngine.get_table_info] *)
Definition get_table_info (db : Database) (nm : string) : Reply TableInfo :=
  match get_table db nm with
  | Returned table => mkReply true (MsgTableInfo nm) (Some [table_info table]) 0
  | Raised e => mkReply false (MsgFailedInfo e) None 0
  end.

(** [DatabaseEngine.list_tables] *)
Definition list_tables (db : Database) : Reply (pydict value) :=
  let tables := Database_list_tables db in
  mkReply true (MsgFound (List.length tables))
    (Some (map (fun table => [("name", VStr table)]) tables)) 0.

End Executor.
Export Executor.

(* ================================================================== *)
(** * sql_parser.py: the statements, from the groups a pattern matched *)

Module Grammar.

Definition comma : ascii := ","%char.
Definition backslash : ascii := "\"%char.

(** [s.split()]: the maximal runs of characters that are not white space. *)
Fixpoint split_ws (s : string) : list string :=
  match s with
  | EmptyString => []
  | String c s' =>
      if is_space c then split_ws s'
      else
        match s' with
        | EmptyString => [String c EmptyString]
        | String d _ =>
            if is_space d then String c EmptyString :: split_ws s'
            else match split_ws s' with
                 | w :: ws => String c w :: ws
                 | [] => [String c EmptyString]
                 end
        end
  end.

(** Line 94 of [SQLParser.parse]: [' '.join(sql.split()).strip()] *)
Definition normalize_sql (sql : string) : string :=
  strip (join_with " " (split_ws sql)).

(** The [ValueError]s of the statement parsers. *)
Inductive parse_error : Type :=
| InvalidColumnDefinition (col_def : string)
| UnsupportedDataType (col_type_str : string)
| ColumnCountMismatch
| InvalidSetClause (pair : string)
| UnpackFailure
| ConditionsError (e : exn).

Inductive parsed (A : Type) : Type :=
| ParseError (e : parse_error)
| Parsed (a : A).
Arguments ParseError {A} e.
Arguments Parsed {A} a.

(** [parts.index(part)]: the first position holding [part]. *)
Fixpoint list_index (part : string) (parts : list string) : option nat :=
  match parts with
  | [] => None
  | p :: ps =>
      if String.eqb p part then Some O else option_map S (list_index part ps)
  end.

(** The last test of line 150.  [part] is taken from [parts], so that
    [parts.index(part)] exists. *)
Definition null_after (parts : list string) (part : string) : bool :=
  match list_index part parts with
  | Some i =>
      (S i <? List.length parts)%nat
      && match nth_error parts (S i) with
         | Some next => String.eqb (upper next) "NULL"
         | None => false
         end
  | None => false
  end.

(** One turn of the loop of lines 143-151 on [(constraint, nullable)].
    [upper] maps a-z only; the characters above 127 that [str.upper] maps
    go to characters that occur in none of the key words compared with
    here and in [parse_data_type], so the tests agree on 8-bit text. *)
Definition constraint_step (parts : list string) (st : Constraint * bool)
    (part : string) : Constraint * bool :=
  let part_upper := upper part in
  if String.eqb part_upper "PRIMARY_KEY" || String.eqb part_upper "PRIMARY"
  then (PRIMARY_KEY, false)
  else if String.eqb part_upper "UNIQUE" then (UNIQUE, snd st)
  else if String.eqb part_upper "NOT" && null_after parts part then (fst st, false)
  else st.

(** Lines 130-137 *)
Definition parse_data_type (col_type_str : string) : option DataType :=
  if String.eqb col_type_str "INT" then Some INT
  else if String.eqb col_type_str "TEXT" then Some TEXT
  else if String.eqb col_type_str "FLOAT" then Some FLOAT
  else None.

(** Lines 123-153 for one column definition, from its words [parts]. *)
Definition column_of_parts (col_def : string) (parts : list string)
  : parsed Column :=
  match parts with
  | col_name :: col_type :: rest =>
      let col_type_str := upper col_type in
      match parse_data_type col_type_str with
      | None => ParseError (UnsupportedDataType col_type_str)
      | Some data_type =>
          let st := fold_left (constraint_step parts) rest (NONE, true) in
          Parsed (mkColumn col_name data_type (fst st) (snd st))
      end
  | _ => ParseError (InvalidColumnDefinition col_def)
  end.

(** Lines 122-153 for one column definition. *)
Definition parse_column_def (col_def : string) : parsed Column :=
  column_of_parts col_def (split_ws col_def).

Fixpoint parse_column_defs (column_defs : list string) : parsed (list Column) :=
  match column_defs with
  | [] => Parsed []
  | col_def :: rest =>
      match parse_column_def col_def with
      | ParseError e => ParseError e
      | Parsed column =>
          match parse_column_defs rest with
          | ParseError e => ParseError e
          | Parsed columns => Parsed (column :: columns)
          end
      end
  end.

(** [SQLParser._parse_create_table], from [match.group(1)] and
    [match.group(2)]. *)
Definition _parse_create_table (table_name columns_str : string)
  : parsed CreateTableCommand :=
  let column_defs := map strip (split "," columns_str) in
  match parse_column_defs column_defs with
  | ParseError e => ParseError e
  | Parsed columns => Parsed (mkCreateTable table_name columns)
  end.

(** The [while] loop of [_parse_values] (lines 266-278) on what is left of
    [values_str]; [prev] is [values_str[i-1]], absent at [i == 0]. *)
Fixpoint scan_values (s : string) (prev : option ascii) (in_quotes : bool)
    (current : string) (parts : list string) : list string * string :=
  match s with
  | EmptyString => (parts, current)
  | String char s' =>
      if Ascii.eqb char quote
         && match prev with
            | None => true
            | Some p => negb (Ascii.eqb p backslash)
            end
      then scan_values s' (Some char) (negb in_quotes)
             (current ++ String char EmptyString)%string parts
      else if Ascii.eqb char comma && negb in_quotes
      then scan_values s' (Some char) in_quotes EmptyString
             (parts ++ [strip current])
      else scan_values s' (Some char) in_quotes
             (current ++ String char EmptyString)%string parts
  end.

Section WithNumberParsers.
Variable py_float : string -> option pyfloat.
Variable py_int : string -> option Z.

(** [SQLParser._parse_values] *)
Definition _parse_values (values_str : string) : list value :=
  let (parts, current) := scan_values values_str None false EmptyString [] in
  let parts := match current with
               | EmptyString => parts
               | _ => parts ++ [strip current]
               end in
  map (_parse_value py_float py_int) parts.

(** [SQLParser._parse_insert], from the three groups. *)
Definition _parse_insert (table_name columns_str values_str : string)
  : parsed InsertCommand :=
  let columns := map strip (split "," columns_str) in
  let values := _parse_values values_str in
  if negb (Nat.eqb (List.length columns) (List.length values))
  then ParseError ColumnCountMismatch
  else Parsed (mkInsert table_name (dict_of_items (combine columns values))).

(** [if where_str: where_conditions = self._parse_conditions(where_str)],
    a group that took no part in the match being [None]. *)
Definition parse_optional_conditions (where_str : option string)
  : parsed (option (pydict value)) :=
  match where_str with
  | None | Some EmptyString => Parsed None
  | Some s =>
      match _parse_conditions py_float py_int s with
      | Raised e => ParseError (ConditionsError e)
      | Returned conditions => Parsed (Some conditions)
      end
  end.

(** [SQLParser._parse_select], from the five groups. *)
Definition _parse_select (columns_group table_name : string)
    (where_str join_table join_condition_str : option string)
  : parsed SelectCommand :=
  let columns_str := strip columns_group in
  let columns := if String.eqb columns_str "*" then ["*"]
                 else map strip (split "," columns_str) in
  match parse_optional_conditions where_str with
  | ParseError e => ParseError e
  | Parsed where_conditions =>
      match parse_optional_conditions join_condition_str with
      | ParseError e => ParseError e
      | Parsed join_conditions =>
          Parsed (mkSelect table_name columns where_conditions join_table
                    join_conditions)
      end
  end.

(** The loop body of [_parse_update] for one pair of the SET clause. *)
Definition parse_set_pair (set_values : pydict value) (pair : string)
  : parsed (pydict value) :=
  if negb (contains_char equals_sign pair) then ParseError (InvalidSetClause pair)
  else
    match split_once equals_sign pair with
    | [col; v] =>
        Parsed (dict_set (strip col) (_parse_value py_float py_int (strip v)) set_values)
    | _ => ParseError UnpackFailure
    end.

Fixpoint parse_set_pairs (set_values : pydict value) (set_pairs : list string)
  : parsed (pydict value) :=
  match set_pairs with
  | [] => Parsed set_values
  | set_pair :: rest =>
      match parse_set_pair set_values set_pair with
      | ParseError e => ParseError e
      | Parsed set_values' => parse_set_pairs set_values' rest
      end
  end.

(** [SQLParser._parse_update], from the three groups. *)
Definition _parse_update (table_name set_str : string) (where_str : option string)
  : parsed UpdateCommand :=
  let set_pairs := map strip (split "," set_str) in
  match parse_set_pairs [] set_pairs with
  | ParseError e => ParseError e
  | Parsed set_values =>
      match parse_optional_conditions where_str with
      | ParseError e => ParseError e
      | Parsed where_conditions =>
          Parsed (mkUpdate table_name set_values where_conditions)
      end
  end.

(** [SQLParser._parse_delete], from the two groups. *)
Definition _parse_delete (table_name : string) (where_str : option string)
  : parsed DeleteCommand :=
  match parse_optional_conditions where_str with
  | ParseError e => ParseError e
  | Parsed where_conditions => Parsed (mkDelete table_name where_conditions)
  end.

End WithNumberParsers.

End Grammar.
Export Grammar.

(* ================================================================== *)
(** * Further notions the properties are stated with *)

Module Notions.

(** The test [find_rows] applies to a row: every row for conditions that
    are [None] or empty. *)
Definition selected (conditions : option (pydict value)) (r : Row) : bool :=
  match conditions with
  | None | Some [] => true
  | Some conds => row_matches conds r
  end.

(** The value is [None] or has the type of the column. *)
Definition fits (col : Column) (v : value) : Prop :=
  v = VNone \/ validate_value col v = true.

(** A row of a table with the columns [cols]: its keys are ['_row_id']
    and then the columns in schema order, and each column holds a value
    that fits it. *)
Definition row_conforms (cols : pydict Column) (r : Row) : Prop :=
  dict_keys r = "_row_id" :: dict_keys cols
  /\ forall c col, dict_get c cols = Some col ->
                   exists v, dict_get c r = Some v /\ fits col v.

(** The table has the columns [cols] and all its rows conform. *)
Definition conforming (cols : pydict Column) (u : Table) : Prop :=
  columns u = cols /\ Forall (row_conforms cols) (rows u).

(** What the data-changing operations leave alone in a table [t] when
    they lead to [u]: the schema, the name, the set of indexed columns;
    the counter of identifiers never goes back. *)
Definition same_schema (t u : Table) : Prop :=
  columns u = columns t /\ name u = name t
  /\ dict_keys (indexes u) = dict_keys (indexes t)
  /\ next_row_id t <= next_row_id u.

(** What UPDATE does to a row it matched: each SET column holds a value
    equal to the new one, the other keys hold what they held. *)
Definition updated (updates : pydict value) (r r' : Row) : Prop :=
  (forall c v, In (c, v) updates ->
               exists v', dict_get c r' = Some v' /\ py_eq v' v = true)
  /\ (forall k, ~ In k (dict_keys updates) -> dict_get k r' = dict_get k r).

(** The joined row [row] shows the row [src] of the table [prefix]: every
    key of [src] other than ['_row_id'] is found, with its value, under
    [prefix.key]. *)
Definition shows (prefix : string) (src : Row) (row : pydict value) : Prop :=
  forall k v, k <> "_row_id" -> dict_get k src = Some v ->
              dict_get (prefix ++ "." ++ k) row = Some v.

(** The merged row of a JOIN, as the specification words it: [row] is
    the left row [l] of the table [a] and the right row [r] of the table
    [b] put together.  Its keys are every field of [l] under [a.field] and
    every field of [r] under [b.field], the identifiers apart, and no
    other; it holds each value of [r] under its key, and each value of [l]
    under its key, unless a field of [r] has the same prefixed key, in
    which case the value of [r] is the one found. *)
Definition merged_row (a b : string) (l r : Row) (row : pydict value) : Prop :=
  (forall K, dict_get K row <> None
             <-> (exists k, k <> "_row_id" /\ dict_get k l <> None
                            /\ K = (a ++ "." ++ k)%string)
                 \/ (exists k, k <> "_row_id" /\ dict_get k r <> None
                               /\ K = (b ++ "." ++ k)%string))
  /\ shows b r row
  /\ (forall k v,
         k <> "_row_id" -> dict_get k l = Some v ->
         (forall k', k' <> "_row_id" -> dict_get k' r <> None ->
                     (b ++ "." ++ k')%string <> (a ++ "." ++ k)%string) ->
         dict_get (a ++ "." ++ k) row = Some v).

(** Every character of the text passes the test. *)
Fixpoint all_chars (p : ascii -> bool) (s : string) : bool :=
  match s with
  | EmptyString => true
  | String c s' => p c && all_chars p s'
  end.

(** A word: some characters, none of them white space. *)
Definition word (s : string) : Prop :=
  s <> EmptyString /\ all_chars (fun c => negb (is_space c)) s = true.

(** Some white space and nothing else. *)
Definition blank (s : string) : Prop :=
  s <> EmptyString /\ all_chars is_space s = true.

(** Reading a piece of a VALUES list as [_parse_values] reads it, from
    outside ([in_quotes = false]) or inside quotes and after a backslash or
    not: the piece ends outside quotes and has no comma outside quotes. *)
Fixpoint sealed_from (after_backslash in_quotes : bool) (s : string) : bool :=
  match s with
  | EmptyString => negb in_quotes
  | String c s' =>
      if Ascii.eqb c quote && negb after_backslash
      then sealed_from (Ascii.eqb c backslash) (negb in_quotes) s'
      else if Ascii.eqb c comma && negb in_quotes then false
      else sealed_from (Ascii.eqb c backslash) in_quotes s'
  end.

Definition sealed (s : string) : Prop := sealed_from false false s = true.

(** [values_str[i-1] == '\\'], false at [i == 0]. *)
Definition after_backslash (prev : option ascii) : bool :=
  match prev with
  | None => false
  | Some p => Ascii.eqb p backslash
  end.

(** The words [column_info] shows after the name of the column. *)
Definition column_words (col : Column) : list string :=
  DataType_value (data_type col)
  :: match constraint col with
     | PRIMARY_KEY => ["PRIMARY"; "KEY"]
     | UNIQUE => ["UNIQUE"]
     | NONE => []
     end
     ++ (if nullable col then [] else ["NOT"; "NULL"]).

(** A column whose text [column_info] can be read back: its name is a
    word without a comma; a primary key is not nullable, as the parser has
    it; and a column that is not nullable without being a primary key is
    not called NOT. *)
Definition printable (col : Column) : Prop :=
  word (col_name col)
  /\ contains_char comma (col_name col) = false
  /\ (constraint col = PRIMARY_KEY -> nullable col = false)
  /\ (nullable col = false -> constraint col <> PRIMARY_KEY ->
      col_name col <> "NOT").

End Notions.
Export Notions.

(* ================================================================== *)
(** * Sample data used by the closed examples *)

Module Samples.

(** [CREATE TABLE users (id INT PRIMARY_KEY, name TEXT NOT NULL, email TEXT UNIQUE)] *)
Definition users_columns : list Column :=
  [ mkColumn "id" INT PRIMARY_KEY false;
    mkColumn "name" TEXT NONE false;
    mkColumn "email" TEXT UNIQUE true ].

Definition users0 : Table := Table_init "users" users_columns.

Definition alice : pydict value :=
  [("id", VInt 1); ("name", VStr "Alice"); ("email", VStr "a@x.com")].
Definition bob : pydict value :=
  [("id", VInt 2); ("name", VStr "Bob"); ("email", VStr "b@x.com")].
Definition dup : pydict value :=
  [("id", VInt 1); ("name", VStr "Dup"); ("email", VStr "b@x.com")].

(** The table after each of the first two inserts. *)
Definition users1 : Table := fst (insert_row alice users0).
Definition users2 : Table := fst (insert_row bob users1).

(** [CREATE TABLE t (_row_id INT)]: a column that bears the name of the
    key under which a row keeps its identifier. *)
Definition shadow0 : Table := Table_init "t" [mkColumn "_row_id" INT NONE true].
Definition shadow1 : Table := fst (insert_row [("_row_id", VInt 7)] shadow0).

(** A decimal [int()] and a [float()] knowing one literal, to run the
    parser on concrete text. *)
Fixpoint digits_value (acc : Z) (s : string) : option Z :=
  match s with
  | EmptyString => Some acc
  | String c s' =>
      let n := N_of_ascii c in
      if ((48 <=? n) && (n <=? 57))%N
      then digits_value (10 * acc + Z.of_N (n - 48)) s'
      else None
  end.

Definition sample_int (s : string) : option Z :=
  match s with
  | EmptyString => None
  | _ => digits_value 0 s
  end.

Definition sample_float (s : string) : option pyfloat :=
  if String.eqb s "1.5" then Some (FFinite false 3 (-1)) else None.

(** [INSERT INTO users (name) VALUES ('Nobody')]: the primary key is not
    among the columns given. *)
Definition nobody : pydict value := [("name", VStr "Nobody")].

(** [UPDATE users SET id = 2 WHERE id = 1] on the two-row table: refused,
    the key 2 being taken. *)
Definition users2_after_refused_update : Table :=
  fst (update_rows (Some [("id", VInt 1)]) [("id", VInt 2)] users2).

Definition eve : pydict value :=
  [("id", VInt 1); ("name", VStr "Eve"); ("email", VStr "e@x.com")].

(** [SELECT * FROM users] *)
Definition select_all_users : SelectCommand :=
  mkSelect "users" ["*"] None None None.

(** [INSERT INTO users (id, name) VALUES (3, 'Carol')]: no email given. *)
Definition carol : pydict value := [("id", VInt 3); ("name", VStr "Carol")].

(** Four statements that all go through. *)
Definition quiet_ops : list Op :=
  [ OpInsert alice; OpInsert bob;
    OpUpdate (Some [("id", VInt 1)]) [("email", VStr "al@x.com"); ("name", VStr "Al")];
    OpDelete (Some [("id", VInt 2)]) ].

(** [UPDATE users SET email = 'c@x.com', id = 2, name = 'Al' WHERE id = 1]
    on the two-row table: the email goes through, the id is refused. *)
Definition where_id_1 : option (pydict value) := Some [("id", VInt 1)].
Definition set_email : pydict value := [("email", VStr "c@x.com")].
Definition set_name : pydict value := [("name", VStr "Al")].
Definition alice_row : pydict value :=
  [("_row_id", VInt 1); ("id", VInt 1); ("name", VStr "Alice");
   ("email", VStr "a@x.com")].
Definition users2_email_set : Table :=
  fst (for_each set_email (update_item 0 (VInt 1)) users2).
Definition users2_id_refused : Table :=
  fst (update_item 0 (VInt 1) ("id", VInt 2) users2_email_set).

(** [CREATE TABLE posts (id INT PRIMARY_KEY, title TEXT NOT NULL, user_id INT)]
    with one post of Alice, and the database of the two tables. *)
Definition posts_columns : list Column :=
  [ mkColumn "id" INT PRIMARY_KEY false;
    mkColumn "title" TEXT NONE false;
    mkColumn "user_id" INT NONE true ].

Definition posts1 : Table :=
  fst (insert_row [("id", VInt 1); ("title", VStr "Hello"); ("user_id", VInt 1)]
         (Table_init "posts" posts_columns)).

Definition blog : Database := [("users", users2); ("posts", posts1)].

(** A second post, of Bob, and [SELECT * FROM users JOIN posts] with
    neither an ON nor a WHERE condition. *)
Definition posts2 : Table :=
  fst (insert_row [("id", VInt 2); ("title", VStr "World"); ("user_id", VInt 2)]
         posts1).

Definition blog2 : Database := [("users", users2); ("posts", posts2)].

Definition users_cross_posts : SelectCommand :=
  mkSelect "users" ["*"] None (Some "posts") None.

(** [SELECT * FROM users JOIN posts ON users.id = posts.user_id], the
    condition as [_parse_conditions] reads it. *)
Definition users_join_posts : SelectCommand :=
  mkSelect "users" ["*"] None (Some "posts")
    (Some [("users.id", VStr "posts.user_id")]).

End Samples.
Export Samples.

(* ================================================================== *)
(** * The monad of a Table method and its loops *)

Section MonadFacts.

Lemma bind_Raised A B (m : M A) (k : A -> M B) t t' e :
  m t = (t', Raised e) -> bind m k t = (t', Raised e).
Proof. unfold bind; intros ->; reflexivity. Qed.

Lemma bind_Returned A B (m : M A) (k : A -> M B) t t' a :
  m t = (t', Returned a) -> bind m k t = k a t'.
Proof. unfold bind; intros ->; reflexivity. Qed.

(** A property of the state that every step keeps, whatever the step's
    outcome, holds after the sequence. *)
Lemma bind_keeps (P : Table -> Prop) A B (m : M A) (k : A -> M B) t :
  P (fst (m t)) ->
  (forall a t', m t = (t', Returned a) -> P (fst (k a t'))) ->
  P (fst (bind m k t)).
Proof.
  unfold bind; intros Hm Hk.
  destruct (m t) as [t' [e | a]]; simpl in *; auto.
Qed.

Lemma for_each_keeps (P : Table -> Prop) X (body : X -> M unit) l :
  (forall x t, In x l -> P t -> P (fst (body x t))) ->
  forall t, P t -> P (fst (for_each l body t)).
Proof.
  induction l as [| x l IH]; intros Hbody t Ht; simpl; auto.
  apply bind_keeps.
  - apply Hbody; simpl; auto.
  - intros [] t' E. apply IH.
    + intros y u Hy. apply Hbody; simpl; auto.
    + replace t' with (fst (body x t)) by (rewrite E; reflexivity).
      apply Hbody; simpl; auto.
Qed.

(** A loop of steps that never touch the state does not touch it. *)
Lemma for_each_readonly X (body : X -> M unit) l :
  (forall x t, In x l -> fst (body x t) = t) ->
  forall t, fst (for_each l body t) = t.
Proof.
  intros H t.
  apply (for_each_keeps (fun u => u = t)); auto.
  intros x u Hx ->. auto.
Qed.

(** A loop of steps that never raise does not raise. *)
Lemma for_each_total X (body : X -> M unit) l :
  (forall x t, In x l -> exists t', body x t = (t', Returned tt)) ->
  forall t, exists t', for_each l body t = (t', Returned tt).
Proof.
  induction l as [| x l IH]; intros H t; simpl.
  - eexists; reflexivity.
  - destruct (H x t (or_introl eq_refl)) as [t1 E1].
    rewrite (bind_Returned _ _ _ E1).
    apply IH. intros y u Hy. apply H; simpl; auto.
Qed.

Lemma subscript_readonly V (d : pydict V) k t : fst (subscript d k t) = t.
Proof. unfold subscript; destruct (dict_get k d); reflexivity. Qed.

Lemma validate_item_readonly kv t : fst (validate_item kv t) = t.
Proof.
  unfold validate_item, bind, get.
  destruct (dict_get (fst kv) (columns t)) as [c |]; [| reflexivity].
  destruct (validate_value c (snd kv)); reflexivity.
Qed.

Lemma check_constraint_readonly column c v t :
  fst (check_constraint column c v t) = t.
Proof.
  unfold check_constraint, bind, get, subscript.
  destruct (constraint column); try reflexivity.
  - destruct (is_None v); [reflexivity |].
    destruct (dict_get c (indexes t)) as [ix |]; [| reflexivity].
    simpl; destruct (Index_find ix v); reflexivity.
  - destruct (negb (is_None v)); [| reflexivity].
    destruct (dict_get c (indexes t)) as [ix |]; [| reflexivity].
    simpl; destruct (Index_find ix v); reflexivity.
Qed.

Lemma check_item_readonly kv t : fst (check_item kv t) = t.
Proof.
  unfold check_item, bind, get, subscript.
  destruct (dict_get (fst kv) (columns t)) as [c |]; [| reflexivity].
  simpl.
  pose proof (check_constraint_readonly c (fst kv) (snd kv) t) as H.
  destruct (check_constraint c (fst kv) (snd kv) t) as [u [e | []]];
    simpl in *; subst; reflexivity.
Qed.

Lemma index_add_if_indexed_total c v rid t :
  exists t', index_add_if_indexed c v rid t = (t', Returned tt).
Proof.
  unfold index_add_if_indexed, index_add, dict_mem, bind, get, subscript, put,
    ret, raise.
  destruct (dict_get c (indexes t)) eqn:E; rewrite ?E; eexists; reflexivity.
Qed.

Lemma index_remove_if_indexed_total c v rid t :
  exists t', index_remove_if_indexed c v rid t = (t', Returned tt).
Proof.
  unfold index_remove_if_indexed, index_remove, dict_mem, bind, get, subscript, put,
    ret, raise.
  destruct (dict_get c (indexes t)) eqn:E; rewrite ?E; eexists; reflexivity.
Qed.

End MonadFacts.

(* ================================================================== *)
(** * insert_row is all-or-nothing *)

(** The two checking loops of [insert_row] only read the table. *)
Lemma insert_checks_readonly values t :
  fst ((for_each values validate_item ;;; for_each values check_item) t) = t.
Proof.
  apply (bind_keeps (fun u => u = t)).
  - apply for_each_readonly. intros; apply validate_item_readonly.
  - intros [] t' E.
    assert (t' = t) as ->.
    { replace t' with (fst (for_each values validate_item t)) by (rewrite E; reflexivity).
      apply for_each_readonly. intros; apply validate_item_readonly. }
    apply for_each_readonly. intros; apply check_item_readonly.
Qed.

(** Once the checks have passed, [insert_row] returns. *)
Lemma insert_commit_total values t :
  exists t' rid,
    (self <- get ;;
     put (set_rows self (rows self ++ [new_row self values])) ;;;
     (self' <- get ;;
      put (set_next_row_id self' (next_row_id self' + 1)) ;;;
      for_each values
        (fun kv => index_add_if_indexed (fst kv) (snd kv) (VInt (next_row_id self))) ;;;
      ret (next_row_id self))) t = (t', Returned rid).
Proof.
  unfold bind at 1 2 3 4, get, put.
  edestruct (for_each_total
               (fun kv => index_add_if_indexed (fst kv) (snd kv) (VInt (next_row_id t)))
               values) as [t' E].
  { intros x u _. apply index_add_if_indexed_total. }
  unfold bind. rewrite E. eexists; eexists; reflexivity.
Qed.

(** C10. If [insert_row] raises (unknown column, invalid value, null or
    duplicate primary key, duplicate unique value, or any other exception),
    the table it leaves is the table it was given: same rows, same indexes,
    same [next_row_id]. *)
Theorem insert_row_atomic_on_failure :
  forall (values : pydict value) (t t' : Table) (e : exn),
    insert_row values t = (t', Raised e) ->
    t' = t /\ rows t' = rows t /\ indexes t' = indexes t
    /\ next_row_id t' = next_row_id t.
Proof.
  intros values t t' e H.
  assert (t' = t) as ->; [| auto].
  unfold insert_row in H.
  pose proof (for_each_readonly validate_item values
                (fun x u _ => validate_item_readonly x u) t) as R1.
  unfold bind at 1 in H.
  destruct (for_each values validate_item t) as [t1 [e1 | []]]; simpl in R1; subst t1.
  { inversion H; reflexivity. }
  pose proof (for_each_readonly check_item values
                (fun x u _ => check_item_readonly x u) t) as R2.
  unfold bind at 1 in H.
  destruct (for_each values check_item t) as [t2 [e2 | []]]; simpl in R2; subst t2.
  { inversion H; reflexivity. }
  destruct (insert_commit_total values t) as (u & rid & E).
  rewrite E in H. discriminate.
Qed.

(** The duplicate primary key of the specification's first scenario. *)
Lemma insert_row_atomic_on_failure_witness :
  insert_row dup users1 = (users1, Raised (PrimaryKeyViolation "id" (VInt 1)))
  /\ (users1 = users1 /\ rows users1 = rows users1
      /\ indexes users1 = indexes users1
      /\ next_row_id users1 = next_row_id users1).
Proof.
  split.
  - vm_compute; reflexivity.
  - apply (@insert_row_atomic_on_failure dup users1 users1
             (PrimaryKeyViolation "id" (VInt 1))).
    vm_compute; reflexivity.
Defined.

(* ================================================================== *)
(** * Dictionaries and lists *)

Section DictFacts.
Variable V : Type.

Lemma dict_get_set_same k (v : V) d : dict_get k (dict_set k v d) = Some v.
Proof.
  induction d as [| [k' v'] d IH]; simpl.
  - rewrite String.eqb_refl; reflexivity.
  - destruct (String.eqb k' k) eqn:E; simpl; rewrite E; auto.
Qed.

Lemma dict_get_set_other k k' (v : V) d :
  k <> k' -> dict_get k (dict_set k' v d) = dict_get k d.
Proof.
  intros Hne.
  induction d as [| [k0 v0] d IH]; simpl.
  - destruct (String.eqb k' k) eqn:E; [| reflexivity].
    apply String.eqb_eq in E; congruence.
  - destruct (String.eqb k0 k') eqn:E; simpl.
    + apply String.eqb_eq in E; subst k0.
      destruct (String.eqb k' k) eqn:E'; [| reflexivity].
      apply String.eqb_eq in E'; congruence.
    + destruct (String.eqb k0 k); auto.
Qed.

Lemma dict_keys_set_present k (v : V) d :
  dict_get k d <> None -> dict_keys (dict_set k v d) = dict_keys d.
Proof.
  induction d as [| [k0 v0] d IH]; simpl; intros H; [congruence |].
  destruct (String.eqb k0 k); simpl; [reflexivity |].
  f_equal; apply IH; assumption.
Qed.

Lemma dict_get_In k (v : V) d : dict_get k d = Some v -> In (k, v) d.
Proof.
  induction d as [| [k0 v0] d IH]; simpl; [discriminate |].
  destruct (String.eqb k0 k) eqn:E.
  - apply String.eqb_eq in E; subst. intros [= ->]; auto.
  - auto.
Qed.

Lemma dict_get_In_keys k (v : V) d : dict_get k d = Some v -> In k (dict_keys d).
Proof.
  intros H. apply dict_get_In in H.
  unfold dict_keys. change k with (fst (k, v)). apply in_map; assumption.
Qed.

Lemma In_dict_get k (v : V) d : dict_wf d -> In (k, v) d -> dict_get k d = Some v.
Proof.
  unfold dict_wf, dict_keys.
  induction d as [| [k0 v0] d IH]; simpl; intros Hwf Hin; [contradiction |].
  inversion Hwf as [| ? ? Hnot Hwf']; subst.
  destruct Hin as [[= -> ->] | Hin].
  - rewrite String.eqb_refl; reflexivity.
  - destruct (String.eqb k0 k) eqn:E; auto.
    apply String.eqb_eq in E; subst k0.
    exfalso; apply Hnot. change k with (fst (k, v)). apply in_map; assumption.
Qed.

Lemma dict_set_wf k (v : V) d : dict_wf d -> dict_wf (dict_set k v d).
Proof.
  unfold dict_wf, dict_keys.
  induction d as [| [k0 v0] d IH]; simpl; intros Hwf.
  - constructor; [simpl; tauto | constructor].
  - inversion Hwf as [| ? ? Hnot Hwf']; subst.
    destruct (String.eqb k0 k) eqn:E; simpl.
    + constructor; assumption.
    + constructor; auto.
      intros Hin. apply in_map_iff in Hin as [[k1 v1] [Hk Hin]]; simpl in Hk; subst k1.
      assert (dict_get k0 (dict_set k v d) <> None) as Hg.
      { clear - Hin. induction (dict_set k v d) as [| [a b] l IHl]; simpl in *; [tauto |].
        destruct (String.eqb a k0) eqn:Ea; [congruence |].
        destruct Hin as [[= <- <-] | Hin]; [rewrite String.eqb_refl in Ea; discriminate |].
        auto. }
      rewrite dict_get_set_other in Hg
        by (intros ->; rewrite String.eqb_refl in E; discriminate).
      apply Hnot.
      destruct (dict_get k0 d) as [w |] eqn:Ew; [| congruence].
      apply dict_get_In_keys in Ew; exact Ew.
Qed.

Lemma map_list_update X Y (f : X -> Y) i x y (l : list X) :
  nth_error l i = Some y -> f x = f y -> map f (list_update i x l) = map f l.
Proof.
  revert i; induction l as [| z l IH]; intros [| i]; simpl; try discriminate.
  - intros [= ->] ->; reflexivity.
  - intros H E; rewrite IH; auto.
Qed.

Lemma length_list_update X i (x : X) l :
  List.length (list_update i x l) = List.length l.
Proof.
  revert i; induction l as [| z l IH]; intros [| i]; simpl; auto.
Qed.
End DictFacts.

(* ================================================================== *)
(** * Equality of values is an equivalence *)

Lemma Qeq_bool_inject_Z x y : Qeq_bool (inject_Z x) (inject_Z y) = Z.eqb x y.
Proof.
  unfold Qeq_bool, inject_Z; simpl. rewrite !Z.mul_1_r. reflexivity.
Qed.

Lemma xnum_eqb_refl x : xnum_eqb x x = true.
Proof. destruct x; simpl; [apply Bool.eqb_reflx | apply Qeq_bool_refl]. Qed.

Lemma xnum_eqb_sym x y : xnum_eqb x y = true -> xnum_eqb y x = true.
Proof.
  destruct x, y; simpl; try discriminate.
  - intros H; apply Bool.eqb_prop in H; subst; apply Bool.eqb_reflx.
  - apply Qeq_bool_sym.
Qed.

Lemma xnum_eqb_trans x y z :
  xnum_eqb x y = true -> xnum_eqb y z = true -> xnum_eqb x z = true.
Proof.
  destruct x, y, z; simpl; try discriminate.
  - intros H1 H2; apply Bool.eqb_prop in H1, H2; subst; apply Bool.eqb_reflx.
  - apply Qeq_bool_trans.
Qed.

(** [==] on two numbers compares what they denote. *)
Lemma py_eq_num a b x y :
  num_of a = Some x -> num_of b = Some y -> py_eq a b = xnum_eqb x y.
Proof.
  destruct a, b; simpl; intros [= <-] [= <-]; try reflexivity.
  symmetry; apply Qeq_bool_inject_Z.
Qed.

Lemma py_eq_cases a b :
  py_eq a b = true ->
  (a = VNone /\ b = VNone)
  \/ (exists s, a = VStr s /\ b = VStr s)
  \/ (exists x y, num_of a = Some x /\ num_of b = Some y /\ xnum_eqb x y = true).
Proof.
  intros H.
  destruct a, b; simpl in H; try discriminate; auto.
  - right; right. do 2 eexists. repeat split. simpl.
    rewrite Qeq_bool_inject_Z; exact H.
  - right; right. do 2 eexists. repeat split. exact H.
  - right; left. apply String.eqb_eq in H; subst. eexists; auto.
  - right; right. do 2 eexists. repeat split. exact H.
  - right; right. do 2 eexists. repeat split. exact H.
Qed.

Lemma py_eq_refl a : py_eq a a = true.
Proof.
  destruct a; simpl.
  - reflexivity.
  - apply Z.eqb_refl.
  - apply String.eqb_refl.
  - apply xnum_eqb_refl.
Qed.

Lemma py_eq_sym a b : py_eq a b = true -> py_eq b a = true.
Proof.
  intros H. destruct (py_eq_cases a b H) as [[-> ->] | [[s [-> ->]] | (x & y & Ha & Hb & E)]].
  - reflexivity.
  - apply py_eq_refl.
  - rewrite (py_eq_num b a Hb Ha). apply xnum_eqb_sym; exact E.
Qed.

Lemma py_eq_trans a b c :
  py_eq a b = true -> py_eq b c = true -> py_eq a c = true.
Proof.
  intros H1 H2.
  destruct (py_eq_cases a b H1) as [[-> ->] | [[s [-> ->]] | (x & y & Ha & Hb & E)]];
    [exact H2 | exact H2 |].
  destruct (py_eq_cases b c H2) as [[-> ->] | [[s [-> ->]] | (y' & z & Hb' & Hc & E')]];
    try discriminate.
  rewrite Hb in Hb'; injection Hb' as <-.
  rewrite (py_eq_num a c Ha Hc). eapply xnum_eqb_trans; eassumption.
Qed.

Lemma py_eq_sym_false a b : py_eq a b = false -> py_eq b a = false.
Proof.
  intros H. destruct (py_eq b a) eqn:E; [| reflexivity].
  apply py_eq_sym in E. congruence.
Qed.

(** Two identifiers that are integers are [==] only when they are the
    same. *)
Lemma py_eq_VInt a b : py_eq (VInt a) (VInt b) = true -> VInt a = VInt b.
Proof. simpl. intros H; apply Z.eqb_eq in H; congruence. Qed.

(* ================================================================== *)
(** * list.remove *)

Lemma list_remove_In x l l' y :
  list_remove x l = Some l' -> In y l' -> In y l.
Proof.
  revert l'; induction l as [| e l IH]; simpl; intros l'; [discriminate |].
  destruct (py_eq e x).
  - intros [= <-]; auto.
  - destruct (list_remove x l) as [r |]; [| discriminate].
    intros [= <-] [-> | Hy]; auto. right; eapply IH; eauto.
Qed.

Lemma list_remove_keeps x l l' y :
  list_remove x l = Some l' -> In y l -> py_eq y x = false -> In y l'.
Proof.
  revert l'; induction l as [| e l IH]; simpl; intros l'; [discriminate |].
  destruct (py_eq e x) eqn:E.
  - intros [= <-] [-> | Hy] Hne; [congruence | assumption].
  - destruct (list_remove x l) as [r |]; [| discriminate].
    intros [= <-] [-> | Hy] Hne; simpl; auto.
Qed.

Lemma list_remove_NoDup x l l' :
  NoDup l -> list_remove x l = Some l' -> NoDup l'.
Proof.
  revert l'; induction l as [| e l IH]; simpl; intros l' Hnd; [discriminate |].
  inversion Hnd as [| ? ? Hnot Hnd']; subst.
  destruct (py_eq e x).
  - intros [= <-]; assumption.
  - destruct (list_remove x l) as [r |] eqn:E; [| discriminate].
    intros [= <-]. constructor; auto.
    intros Hin. apply Hnot. eapply list_remove_In; eauto.
Qed.

Lemma list_remove_gone x l l' :
  NoDup l -> (forall y, In y l -> py_eq y x = true -> y = x) ->
  list_remove x l = Some l' -> ~ In x l'.
Proof.
  revert l'; induction l as [| e l IH]; simpl; intros l' Hnd Hid; [discriminate |].
  inversion Hnd as [| ? ? Hnot Hnd']; subst.
  destruct (py_eq e x) eqn:E.
  - intros [= <-]. rewrite (Hid e (or_introl eq_refl) E) in Hnot. exact Hnot.
  - destruct (list_remove x l) as [r |] eqn:Er; [| discriminate].
    intros [= <-] [-> | Hin].
    + rewrite py_eq_refl in E; discriminate.
    + eapply IH; eauto.
Qed.

Lemma list_remove_None x l :
  list_remove x l = None -> ~ In x l.
Proof.
  induction l as [| e l IH]; simpl; [auto |].
  destruct (py_eq e x) eqn:E; [discriminate |].
  destruct (list_remove x l); [discriminate |].
  intros _ [-> | Hin]; [rewrite py_eq_refl in E; discriminate |].
  exact (IH eq_refl Hin).
Qed.

Lemma list_remove_single x l :
  list_remove x l = Some [] -> forall y, In y l -> py_eq y x = true.
Proof.
  destruct l as [| e l]; simpl; [discriminate |].
  destruct (py_eq e x) eqn:E.
  - intros [= ->] y [<- | []]; assumption.
  - destruct (list_remove x l); discriminate.
Qed.

(* ================================================================== *)
(** * Index.add, Index.remove, Index.find *)

Lemma NoDup_app_disjoint A (l1 l2 : list A) a :
  NoDup (l1 ++ l2) -> In a l1 -> ~ In a l2.
Proof.
  induction l1 as [| b l1 IH]; simpl; intros Hnd Hin; [contradiction |].
  inversion Hnd as [| ? ? Hnot Hnd']; subst.
  destruct Hin as [-> | Hin]; [| auto].
  intros H2. apply Hnot. apply in_or_app; auto.
Qed.

Lemma index_ids_cons k ids (rest : Index) :
  index_ids ((k, ids) :: rest) = ids ++ index_ids rest.
Proof. reflexivity. Qed.

Lemma In_index_ids x (ix : Index) :
  In x (index_ids ix) <-> exists k ids, In (k, ids) ix /\ In x ids.
Proof.
  unfold index_ids. rewrite in_concat. split.
  - intros (ids & Hids & Hx). apply in_map_iff in Hids as ([k ids'] & <- & Hin).
    exists k, ids'; auto.
  - intros (k & ids & Hin & Hx). exists ids. split; [| assumption].
    apply in_map_iff. exists (k, ids); auto.
Qed.

(** What [add] lists is what was listed, and the new identifier under a
    key equal to the value. *)
Lemma Index_add_In ix v id k ids x :
  In (k, ids) (Index_add ix v id) -> In x ids ->
  (exists ids0, In (k, ids0) ix /\ In x ids0) \/ (x = id /\ py_eq k v = true).
Proof.
  induction ix as [| [k0 ids0] rest IH]; simpl.
  - intros [[= <- <-] | []] [<- | []]. right; split; [reflexivity | apply py_eq_refl].
  - destruct (py_eq k0 v) eqn:E; simpl.
    + intros [[= <- <-] | Hin] Hx.
      * apply in_app_or in Hx as [Hx | [<- | []]]; [left; eauto | right; auto].
      * left; eauto.
    + intros [[= <- <-] | Hin] Hx.
      * left; eauto.
      * destruct (IH Hin Hx) as [(ids1 & H1 & H2) | H]; [left; eauto | right; exact H].
Qed.

Lemma list_contains_false_remove x l :
  list_contains x l = false -> list_remove x l = None.
Proof.
  unfold list_contains. induction l as [| e l IH]; simpl; [reflexivity |].
  intros H. apply orb_false_iff in H as [-> H]. rewrite (IH H). reflexivity.
Qed.

(** [remove], with the two membership tests folded into the outcome of
    [list.remove]. *)
Lemma Index_remove_cons k ids rest v id :
  Index_remove ((k, ids) :: rest) v id =
  if py_eq k v then
    match list_remove id ids with
    | Some [] => rest
    | Some ids' => (k, ids') :: rest
    | None => (k, ids) :: rest
    end
  else (k, ids) :: Index_remove rest v id.
Proof.
  simpl. destruct (py_eq k v); [| reflexivity].
  destruct (list_contains id ids) eqn:E; [reflexivity |].
  rewrite (list_contains_false_remove _ _ E). reflexivity.
Qed.

Arguments Index_remove : simpl never.

(** [remove] lists nothing new. *)
Lemma Index_remove_In ix v id k ids x :
  In (k, ids) (Index_remove ix v id) -> In x ids ->
  exists ids0, In (k, ids0) ix /\ In x ids0.
Proof.
  induction ix as [| [k0 ids0] rest IH];
    [simpl; contradiction | rewrite Index_remove_cons; simpl].
  destruct (py_eq k0 v) eqn:E.
  - destruct (list_remove id ids0) as [[| y l] |] eqn:Er.
    + intros Hin Hx. eauto.
    + intros [[= <- <-] | Hin] Hx; [| eauto].
      exists ids0; split; [auto |]. eapply list_remove_In; eauto.
    + intros [[= <- <-] | Hin] Hx; eauto.
  - intros [[= <- <-] | Hin] Hx; [eauto |].
    destruct (IH Hin Hx) as (ids1 & H1 & H2); eauto.
Qed.

Lemma Index_add_ids ix v id :
  Permutation (id :: index_ids ix) (index_ids (Index_add ix v id)).
Proof.
  induction ix as [| [k0 ids0] rest IH]; simpl.
  - apply Permutation_refl.
  - destruct (py_eq k0 v); rewrite !index_ids_cons.
    + rewrite <- app_assoc. simpl. apply Permutation_middle.
    + eapply Permutation_trans; [apply Permutation_middle |].
      apply Permutation_app_head. exact IH.
Qed.

Lemma Index_add_NoDup ix v id :
  NoDup (index_ids ix) -> ~ In id (index_ids ix) ->
  NoDup (index_ids (Index_add ix v id)).
Proof.
  intros Hnd Hnot.
  eapply Permutation_NoDup; [apply Index_add_ids |].
  constructor; assumption.
Qed.

Lemma Index_remove_ids_incl ix v id x :
  In x (index_ids (Index_remove ix v id)) -> In x (index_ids ix).
Proof.
  rewrite !In_index_ids. intros (k & ids & Hin & Hx).
  destruct (Index_remove_In _ _ _ _ _ _ Hin Hx) as (ids0 & H1 & H2); eauto.
Qed.

Lemma Index_remove_NoDup ix v id :
  NoDup (index_ids ix) -> NoDup (index_ids (Index_remove ix v id)).
Proof.
  induction ix as [| [k0 ids0] rest IH];
    [simpl; auto | rewrite Index_remove_cons; simpl].
  rewrite index_ids_cons. intros Hnd.
  pose proof (NoDup_app_remove_l _ _ Hnd) as Hrest.
  pose proof (NoDup_app_remove_r _ _ Hnd) as Hids.
  destruct (py_eq k0 v).
  - destruct (list_remove id ids0) as [[| y l] |] eqn:Er.
    + assumption.
    + rewrite index_ids_cons. apply NoDup_app; auto.
      * eapply list_remove_NoDup; eauto.
      * intros a Ha. eapply NoDup_app_disjoint; [exact Hnd |].
        eapply list_remove_In; eauto.
    + rewrite index_ids_cons. assumption.
  - rewrite index_ids_cons. apply NoDup_app; auto.
    intros a Ha Hb. apply Index_remove_ids_incl in Hb.
    eapply NoDup_app_disjoint; eauto.
Qed.

Lemma Index_add_keys ix v id k ids :
  In (k, ids) (Index_add ix v id) ->
  (exists ids0, In (k, ids0) ix) \/ (k = v /\ forall k' ids', In (k', ids') ix -> py_eq k' v = false).
Proof.
  induction ix as [| [k0 ids0] rest IH]; simpl.
  - intros [[= <- <-] | []]. right; split; [reflexivity | intros ? ? []].
  - destruct (py_eq k0 v) eqn:E; simpl.
    + intros [[= <- <-] | Hin]; left; eauto.
    + intros [[= <- <-] | Hin]; [left; eauto |].
      destruct (IH Hin) as [[ids1 H1] | [-> H]]; [left; eauto |].
      right; split; [reflexivity |].
      intros k' ids' [[= <- <-] | H']; [assumption | eauto].
Qed.

Lemma Index_add_keys_distinct ix v id :
  keys_distinct ix -> keys_distinct (Index_add ix v id).
Proof.
  induction ix as [| [k0 ids0] rest IH]; simpl.
  - intros _. split; [intros ? ? [] | exact I].
  - intros [Hhead Hrest]. destruct (py_eq k0 v) eqn:E; simpl.
    + split; assumption.
    + split; [| auto].
      intros k' ids' Hin.
      destruct (Index_add_keys _ _ _ _ _ Hin) as [[ids1 H1] | [-> _]]; [eauto | exact E].
Qed.

Lemma Index_remove_keys ix v id k ids :
  In (k, ids) (Index_remove ix v id) -> exists ids0, In (k, ids0) ix.
Proof.
  induction ix as [| [k0 ids0] rest IH];
    [simpl; contradiction | rewrite Index_remove_cons; simpl].
  destruct (py_eq k0 v).
  - destruct (list_remove id ids0) as [[| y l] |].
    + eauto.
    + intros [[= <- <-] | Hin]; eauto.
    + intros [[= <- <-] | Hin]; eauto.
  - intros [[= <- <-] | Hin]; [eauto |].
    destruct (IH Hin) as [ids1 H1]; eauto.
Qed.

Lemma Index_remove_keys_distinct ix v id :
  keys_distinct ix -> keys_distinct (Index_remove ix v id).
Proof.
  induction ix as [| [k0 ids0] rest IH];
    [simpl; auto | rewrite Index_remove_cons; simpl].
  intros [Hhead Hrest]. destruct (py_eq k0 v).
  - destruct (list_remove id ids0) as [[| y l] |]; simpl; auto.
  - simpl. split; [| auto].
    intros k' ids' Hin.
    destruct (Index_remove_keys _ _ _ _ _ Hin) as [ids1 H1]; eauto.
Qed.

(** After [remove(v, id)] the identifier is nowhere in the index, when it
    was listed once at most, under keys equal to [v] only. *)
Lemma Index_remove_gone ix v id :
  keys_distinct ix -> NoDup (index_ids ix) ->
  (forall k ids, In (k, ids) ix -> In id ids -> py_eq k v = true) ->
  (forall x, In x (index_ids ix) -> py_eq x id = true -> x = id) ->
  ~ In id (index_ids (Index_remove ix v id)).
Proof.
  induction ix as [| [k0 ids0] rest IH];
    [simpl; auto | rewrite Index_remove_cons; simpl].
  rewrite index_ids_cons.
  intros [Hhead Hrest] Hnd Hkey Hid.
  pose proof (NoDup_app_remove_l _ _ Hnd) as Hnd_rest.
  pose proof (NoDup_app_remove_r _ _ Hnd) as Hnd_ids.
  assert (py_eq k0 v = true -> ~ In id (index_ids rest)) as Hrest_free.
  { intros E Hin. apply In_index_ids in Hin as (k & ids & Hin & Hx).
    assert (py_eq k v = true) as Ek by eauto.
    assert (py_eq k0 k = true) as E0
        by (eapply py_eq_trans; [exact E | apply py_eq_sym; exact Ek]).
    rewrite (Hhead _ _ Hin) in E0. discriminate. }
  destruct (py_eq k0 v) eqn:E.
  - specialize (Hrest_free eq_refl).
    destruct (list_remove id ids0) as [[| y l] |] eqn:Er.
    + assumption.
    + rewrite index_ids_cons. intros Hin. apply in_app_or in Hin as [Hin | Hin]; [| auto].
      revert Hin. eapply list_remove_gone; eauto.
      intros z Hz. apply Hid. apply in_or_app; auto.
    + rewrite index_ids_cons. intros Hin. apply in_app_or in Hin as [Hin | Hin]; [| auto].
      revert Hin. apply list_remove_None; assumption.
  - rewrite index_ids_cons. intros Hin. apply in_app_or in Hin as [Hin | Hin].
    + assert (py_eq k0 v = true) by (eapply Hkey; eauto). congruence.
    + revert Hin. apply IH; auto.
      * intros k ids Hin' Hx. eapply Hkey; eauto.
      * intros x Hx. apply Hid. apply in_or_app; auto.
Qed.

Lemma Index_find_add_same ix v id : In id (Index_find (Index_add ix v id) v).
Proof.
  induction ix as [| [k0 ids0] rest IH]; simpl.
  - rewrite py_eq_refl; simpl; auto.
  - destruct (py_eq k0 v) eqn:E; simpl; rewrite E; [| exact IH].
    apply in_or_app; right; simpl; auto.
Qed.

Lemma Index_find_add_mono ix v id w x :
  In x (Index_find ix w) -> In x (Index_find (Index_add ix v id) w).
Proof.
  induction ix as [| [k0 ids0] rest IH]; simpl; [contradiction |].
  destruct (py_eq k0 v) eqn:E; simpl; destruct (py_eq k0 w); auto.
  intros Hx; apply in_or_app; auto.
Qed.

Lemma Index_find_remove_other ix v id w x :
  In x (Index_find ix w) -> py_eq x id = false ->
  In x (Index_find (Index_remove ix v id) w).
Proof.
  induction ix as [| [k0 ids0] rest IH];
    [simpl; contradiction | rewrite Index_remove_cons; simpl].
  intros Hx Hne.
  destruct (py_eq k0 v) eqn:E.
  - destruct (list_remove id ids0) as [[| y l] |] eqn:Er.
    + destruct (py_eq k0 w); [| assumption].
      rewrite (list_remove_single _ _ Er _ Hx) in Hne. discriminate.
    + simpl. destruct (py_eq k0 w); [| assumption].
      eapply list_remove_keeps; eauto.
    + simpl. destruct (py_eq k0 w); assumption.
  - simpl. destruct (py_eq k0 w); auto.
Qed.

(** [find] returns an entry of the index whose key equals the value. *)
Lemma Index_find_entry ix w x :
  In x (Index_find ix w) -> exists k ids, In (k, ids) ix /\ In x ids /\ py_eq k w = true.
Proof.
  induction ix as [| [k0 ids0] rest IH]; simpl; [contradiction |].
  destruct (py_eq k0 w) eqn:E.
  - intros Hx. exists k0, ids0; auto.
  - intros Hx. destruct (IH Hx) as (k & ids & H1 & H2 & H3). exists k, ids; auto.
Qed.

(* ================================================================== *)
(** * What one step of update_rows does to the table *)

Lemma index_remove_if_indexed_eq c v rid t :
  index_remove_if_indexed c v rid t = (after_index_remove c v rid t, Returned tt).
Proof.
  unfold index_remove_if_indexed, index_remove, after_index_remove, dict_mem,
    bind, get, subscript, put, ret, raise.
  destruct (dict_get c (indexes t)) eqn:E; rewrite ?E; reflexivity.
Qed.

Lemma index_add_if_indexed_eq c v rid t :
  index_add_if_indexed c v rid t = (after_index_add c v rid t, Returned tt).
Proof.
  unfold index_add_if_indexed, index_add, after_index_add, dict_mem,
    bind, get, subscript, put, ret, raise.
  destruct (dict_get c (indexes t)) eqn:E; rewrite ?E; reflexivity.
Qed.

Lemma check_constraint_state column c v t :
  exists o, check_constraint column c v t = (t, o).
Proof.
  pose proof (check_constraint_readonly column c v t) as H.
  destruct (check_constraint column c v t) as [u o]; simpl in H; subst.
  eexists; reflexivity.
Qed.

(** [update_item], case by case, with the state it reaches. *)
Lemma update_item_eq i rid c v t :
  update_item i rid (c, v) t =
  match dict_get c (columns t) with
  | None => (t, Raised (KeyError c))
  | Some column =>
      match nth_error (rows t) i with
      | None => (t, Raised NotInList)
      | Some row =>
          match dict_get c row with
          | None => (t, Raised (KeyError c))
          | Some old_value =>
              if py_eq old_value v then (t, Returned tt)
              else
                let t1 := after_index_remove c old_value rid t in
                match snd (check_constraint column c v t1) with
                | Raised e => (t1, Raised e)
                | Returned _ =>
                    (after_index_add c v rid
                       (set_rows t1 (list_update i (dict_set c v row) (rows t))),
                     Returned tt)
                end
          end
      end
  end.
Proof.
  unfold update_item; simpl fst; simpl snd.
  unfold bind at 1, get. unfold bind at 1, subscript at 1.
  destruct (dict_get c (columns t)) as [column |]; [| reflexivity].
  unfold ret at 1. unfold bind at 1, row_at at 1, bind at 1, get.
  destruct (nth_error (rows t) i) as [row |] eqn:Erow; [| reflexivity].
  unfold ret at 1. unfold bind at 1, subscript at 1.
  destruct (dict_get c row) as [old |]; [| reflexivity].
  unfold ret at 1.
  destruct (py_eq old v); [reflexivity |].
  unfold bind at 1. rewrite index_remove_if_indexed_eq.
  unfold bind at 1.
  destruct (check_constraint_state column c v (after_index_remove c old rid t))
    as [o Eo].
  rewrite Eo; simpl snd.
  destruct o as [e | []]; [reflexivity |].
  unfold bind at 1, get. unfold bind at 1, row_at, bind at 1, get.
  assert (rows (after_index_remove c old rid t) = rows t) as Er.
  { unfold after_index_remove. destruct (dict_get c (indexes t)); reflexivity. }
  rewrite Er, Erow. unfold ret at 1. unfold bind at 1, put.
  rewrite index_add_if_indexed_eq. reflexivity.
Qed.

Lemma after_index_remove_frame c v rid t :
  rows (after_index_remove c v rid t) = rows t
  /\ columns (after_index_remove c v rid t) = columns t
  /\ next_row_id (after_index_remove c v rid t) = next_row_id t
  /\ name (after_index_remove c v rid t) = name t.
Proof.
  unfold after_index_remove; destruct (dict_get c (indexes t)); simpl; auto.
Qed.

Lemma after_index_add_frame c v rid t :
  rows (after_index_add c v rid t) = rows t
  /\ columns (after_index_add c v rid t) = columns t
  /\ next_row_id (after_index_add c v rid t) = next_row_id t
  /\ name (after_index_add c v rid t) = name t.
Proof.
  unfold after_index_add; destruct (dict_get c (indexes t)); simpl; auto.
Qed.

Lemma row_at_readonly i t : fst (row_at i t) = t.
Proof.
  unfold row_at, bind, get. destruct (nth_error (rows t) i); reflexivity.
Qed.

Lemma row_at_eq i t :
  row_at i t = match nth_error (rows t) i with
               | Some r => (t, Returned r)
               | None => (t, Raised NotInList)
               end.
Proof.
  unfold row_at, bind, get. destruct (nth_error (rows t) i); reflexivity.
Qed.

(** The positions [update_rows] works on denote exactly the row objects
    [find_rows] returns, in the same order. *)
Lemma positions_from_rows p (pre l : list Row) :
  map (nth_error (pre ++ l)) (positions_from (List.length pre) p l)
  = map Some (filter p l).
Proof.
  revert pre; induction l as [| r l IH]; intros pre; simpl; [reflexivity |].
  assert (pre ++ r :: l = (pre ++ [r]) ++ l) as E
      by (rewrite <- app_assoc; reflexivity).
  assert (S (List.length pre) = List.length (pre ++ [r])) as El
      by (rewrite length_app; simpl; lia).
  destruct (p r); simpl.
  - f_equal.
    + rewrite nth_error_app2 by lia. rewrite Nat.sub_diag. reflexivity.
    + rewrite E, El. apply IH.
  - rewrite E, El. apply IH.
Qed.

Lemma seq_rows (pre l : list Row) :
  map (nth_error (pre ++ l)) (seq (List.length pre) (List.length l))
  = map Some l.
Proof.
  revert pre; induction l as [| r l IH]; intros pre; simpl; [reflexivity |].
  f_equal.
  - rewrite nth_error_app2 by lia. rewrite Nat.sub_diag. reflexivity.
  - assert (pre ++ r :: l = (pre ++ [r]) ++ l) as E
        by (rewrite <- app_assoc; reflexivity).
    assert (S (List.length pre) = List.length (pre ++ [r])) as El
        by (rewrite length_app; simpl; lia).
    rewrite E, El. apply IH.
Qed.

Lemma find_row_positions_rows t conditions :
  map (nth_error (rows t)) (find_row_positions t conditions)
  = map Some (find_rows t conditions).
Proof.
  unfold find_row_positions, find_rows.
  destruct conditions as [[| kv conds] |].
  - apply (seq_rows []).
  - apply (positions_from_rows (row_matches (kv :: conds)) []).
  - apply (seq_rows []).
Qed.

(* ================================================================== *)
(** * UPDATE and the row identifiers *)

(** One item of an UPDATE leaves the schema and every row's ['_row_id']
    entry alone, provided no column is called ['_row_id']. *)
Lemma update_item_row_ids i rid kv t :
  no_row_id_column t ->
  row_ids (fst (update_item i rid kv t)) = row_ids t
  /\ columns (fst (update_item i rid kv t)) = columns t.
Proof.
  intros Hno. destruct kv as [c v]. rewrite update_item_eq.
  destruct (dict_get c (columns t)) as [column |] eqn:Ecol; [| auto].
  destruct (nth_error (rows t) i) as [row |] eqn:Erow; [| auto].
  destruct (dict_get c row) as [old |] eqn:Eold; [| auto].
  destruct (py_eq old v); [auto |].
  cbv zeta.
  destruct (after_index_remove_frame c old rid t) as (Hr & Hc & _).
  destruct (snd (check_constraint column c v (after_index_remove c old rid t)))
    as [e | []]; simpl fst.
  - unfold row_ids. rewrite Hr, Hc. auto.
  - match goal with |- context [after_index_add ?a ?b ?c ?u] =>
      destruct (after_index_add_frame a b c u) as (Hr' & Hc' & _)
    end.
    unfold row_ids. rewrite Hr', Hc'. simpl. split; [| exact Hc].
    apply map_list_update with (y := row); [assumption |].
    apply dict_get_set_other.
    intros <-. unfold no_row_id_column in Hno. congruence.
Qed.

Lemma update_row_row_ids updates i t :
  no_row_id_column t ->
  row_ids (fst (update_row updates i t)) = row_ids t
  /\ columns (fst (update_row updates i t)) = columns t.
Proof.
  intros Hno.
  set (P := fun u : Table => row_ids u = row_ids t /\ columns u = columns t).
  change (P (fst (update_row updates i t))).
  assert (P t) as Pt by (split; reflexivity).
  unfold update_row.
  apply bind_keeps; [rewrite row_at_readonly; exact Pt |].
  intros row t1 E1.
  assert (t1 = t) as ->
    by (pose proof (row_at_readonly i t) as R; rewrite E1 in R; exact R).
  apply bind_keeps; [rewrite subscript_readonly; exact Pt |].
  intros rid t2 E2.
  assert (t2 = t) as ->
    by (pose proof (subscript_readonly row "_row_id" t) as R; rewrite E2 in R; exact R).
  apply bind_keeps.
  { rewrite for_each_readonly; [exact Pt |]. intros; apply validate_item_readonly. }
  intros [] t3 E3.
  assert (t3 = t) as ->.
  { pose proof (for_each_readonly validate_item updates
                  (fun x u _ => validate_item_readonly x u) t) as R.
    rewrite E3 in R; exact R. }
  apply for_each_keeps; [| exact Pt].
  intros kv u _ [Hu1 Hu2].
  assert (no_row_id_column u) as Hnou
    by (unfold no_row_id_column in *; rewrite Hu2; exact Hno).
  destruct (update_item_row_ids i rid kv Hnou) as [H1 H2].
  split; congruence.
Qed.

(** C9, as amended.  On a table whose schema has no column called
    ['_row_id'], [update_rows] never changes a row's identifier: whether it
    returns a count or raises, the table afterwards has the same rows in
    the same positions, each carrying the identifier it had before. *)
Theorem update_rows_keeps_row_ids :
  forall (t : Table) (conditions : option (pydict value)) (updates : pydict value),
    no_row_id_column t ->
    row_ids (fst (update_rows conditions updates t)) = row_ids t.
Proof.
  intros t conditions updates Hno.
  set (P := fun u : Table => row_ids u = row_ids t /\ columns u = columns t).
  assert (P (fst (update_rows conditions updates t))) as [H _]; [| exact H].
  assert (P t) as Pt by (split; reflexivity).
  unfold update_rows.
  apply bind_keeps; [exact Pt |].
  intros self t1 E1. unfold get in E1. inversion E1; subst t1 self; clear E1.
  apply bind_keeps.
  - apply for_each_keeps; [| exact Pt].
    intros i u _ [Hu1 Hu2].
    assert (no_row_id_column u) as Hnou
      by (unfold no_row_id_column in *; rewrite Hu2; exact Hno).
    destruct (update_row_row_ids updates i Hnou) as [H1 H2].
    split; congruence.
  - intros [] t2 E2. simpl.
    replace t2 with (fst (for_each (find_row_positions t conditions)
                            (update_row updates) t)) by (rewrite E2; reflexivity).
    apply for_each_keeps; [| exact Pt].
    intros i u _ [Hu1 Hu2].
    assert (no_row_id_column u) as Hnou
      by (unfold no_row_id_column in *; rewrite Hu2; exact Hno).
    destruct (update_row_row_ids updates i Hnou) as [H1 H2].
    split; congruence.
Qed.

(** A failing UPDATE of the users table: the identifiers stay. *)
Lemma update_rows_keeps_row_ids_witness :
  no_row_id_column users2
  /\ snd (update_rows (Some [("id", VInt 1)]) [("id", VInt 2)] users2)
     = Raised (PrimaryKeyViolation "id" (VInt 2))
  /\ row_ids (fst (update_rows (Some [("id", VInt 1)]) [("id", VInt 2)] users2))
     = row_ids users2.
Proof.
  split; [vm_compute; reflexivity |].
  split; [vm_compute; reflexivity |].
  apply (@update_rows_keeps_row_ids users2 (Some [("id", VInt 1)]) [("id", VInt 2)]).
  vm_compute; reflexivity.
Defined.

(** C9, as stated, fails: with a column called ['_row_id'] the row keeps
    its identifier in the very entry the UPDATE assigns. *)
Lemma update_rows_changes_row_id_when_shadowed :
  row_ids shadow1 = [Some (VInt 7)]
  /\ snd (update_rows None [("_row_id", VInt 8)] shadow1) = Returned 1
  /\ row_ids (fst (update_rows None [("_row_id", VInt 8)] shadow1))
     = [Some (VInt 8)].
Proof. repeat split; vm_compute; reflexivity. Qed.

(* ================================================================== *)
(** * What insert_row does to the table *)

Lemma for_each_index_add_eq rid values t :
  for_each values (fun kv => index_add_if_indexed (fst kv) (snd kv) rid) t
  = (fold_left (fun u kv => after_index_add (fst kv) (snd kv) rid u) values t,
     Returned tt).
Proof.
  revert t; induction values as [| kv values IH]; intros t; simpl.
  - reflexivity.
  - unfold bind. rewrite index_add_if_indexed_eq. apply IH.
Qed.

(** [insert_row] either raises from its checks, leaving the table as it
    was, or commits the new row and returns its identifier. *)
Lemma insert_row_cases values t :
  (exists e, insert_row values t = (t, Raised e))
  \/ insert_row values t = (insert_commit values t, Returned (next_row_id t)).
Proof.
  remember (insert_row values t) as res eqn:E.
  unfold insert_row in E.
  pose proof (for_each_readonly validate_item values
                (fun x u _ => validate_item_readonly x u) t) as R1.
  unfold bind at 1 in E.
  destruct (for_each values validate_item t) as [t1 [e1 | []]]; simpl in R1; subst t1.
  { left; eexists; exact E. }
  pose proof (for_each_readonly check_item values
                (fun x u _ => check_item_readonly x u) t) as R2.
  unfold bind at 1 in E.
  destruct (for_each values check_item t) as [t2 [e2 | []]]; simpl in R2; subst t2.
  { left; eexists; exact E. }
  right.
  unfold bind at 1 2 3 4, get, put in E.
  unfold bind in E. rewrite for_each_index_add_eq in E. exact E.
Qed.

Lemma fold_after_index_add_frame rid values t :
  let t' := fold_left (fun u kv => after_index_add (fst kv) (snd kv) rid u) values t in
  rows t' = rows t /\ columns t' = columns t
  /\ next_row_id t' = next_row_id t /\ name t' = name t.
Proof.
  revert t; induction values as [| kv values IH]; intros t; simpl; [auto |].
  destruct (IH (after_index_add (fst kv) (snd kv) rid t)) as (H1 & H2 & H3 & H4).
  destruct (after_index_add_frame (fst kv) (snd kv) rid t) as (F1 & F2 & F3 & F4).
  repeat split; congruence.
Qed.

Lemma insert_commit_frame values t :
  rows (insert_commit values t) = rows t ++ [new_row t values]
  /\ columns (insert_commit values t) = columns t
  /\ next_row_id (insert_commit values t) = next_row_id t + 1
  /\ name (insert_commit values t) = name t.
Proof.
  unfold insert_commit.
  match goal with |- context [fold_left ?f values ?u] =>
    destruct (fold_after_index_add_frame (VInt (next_row_id t)) values u)
      as (H1 & H2 & H3 & H4)
  end.
  cbv zeta in *. rewrite H1, H2, H3, H4. simpl. auto.
Qed.

Lemma dict_set_keeps_key V k k' (v : V) d :
  dict_get k d <> None -> dict_get k (dict_set k' v d) <> None.
Proof.
  intros H. destruct (string_dec k k') as [-> | Hne].
  - rewrite dict_get_set_same; discriminate.
  - rewrite dict_get_set_other; assumption.
Qed.

(** The row [insert_row] builds has the key ['_row_id']. *)
Lemma new_row_has_row_id_key t values :
  dict_mem "_row_id" (new_row t values) = true.
Proof.
  unfold new_row, dict_mem.
  assert (forall cols (row : Row),
             dict_get "_row_id" row <> None ->
             dict_get "_row_id"
               (fold_left (fun row (kc : string * Column) =>
                             dict_set (fst kc) (dict_get_or_None (fst kc) values) row)
                          cols row) <> None) as H.
  { induction cols as [| kc cols IH]; intros row Hrow; simpl; [assumption |].
    apply IH. apply dict_set_keeps_key. assumption. }
  specialize (H (columns t) [("_row_id", VInt (next_row_id t))]).
  match goal with
  | |- match ?g with Some _ => true | None => false end = true =>
      destruct g; [reflexivity |]
  end.
  exfalso; apply H; [simpl; discriminate | reflexivity].
Qed.

(* ================================================================== *)
(** * The table invariant, step by step *)

Lemma nth_error_list_update_same X i (z : X) l y :
  nth_error l i = Some y -> nth_error (list_update i z l) i = Some z.
Proof.
  revert i; induction l as [| a l IH]; intros [| i]; simpl; try discriminate; auto.
Qed.

Lemma nth_error_list_update_other X i j (z : X) l :
  i <> j -> nth_error (list_update i z l) j = nth_error l j.
Proof.
  revert i j; induction l as [| a l IH]; intros [| i] [| j] H; simpl; auto;
    congruence.
Qed.

Lemma In_list_update_inv X i (z : X) l r :
  In r (list_update i z l) -> r = z \/ In r l.
Proof.
  revert i; induction l as [| a l IH]; intros [| i]; simpl; auto.
  - intros [<- | H]; auto.
  - intros [<- | H]; auto. destruct (IH _ H); auto.
Qed.

Lemma map_injective_on A B (f : A -> B) l a b :
  NoDup (map f l) -> In a l -> In b l -> f a = f b -> a = b.
Proof.
  induction l as [| x l IH]; simpl; [contradiction |].
  intros Hnd Ha Hb E. inversion Hnd as [| ? ? Hnot Hnd']; subst.
  destruct Ha as [-> | Ha], Hb as [-> | Hb]; auto.
  - exfalso; apply Hnot. rewrite E. apply in_map; assumption.
  - exfalso; apply Hnot. rewrite <- E. apply in_map; assumption.
Qed.

(** Two live rows with the same identifier are one row. *)
Lemma row_by_id t r1 r2 id :
  table_inv t -> In r1 (rows t) -> In r2 (rows t) ->
  dict_get "_row_id" r1 = Some id -> dict_get "_row_id" r2 = Some id ->
  r1 = r2.
Proof.
  intros Hinv H1 H2 E1 E2.
  apply (map_injective_on (dict_get "_row_id") (rows t)); auto.
  - apply (inv_ids_distinct Hinv).
  - congruence.
Qed.

(** Identifiers in an index are integers, so [==] on them is identity. *)
Lemma indexed_id_eq t c ix x rid :
  table_inv t -> dict_get c (indexes t) = Some ix ->
  In x (index_ids ix) ->
  (exists n, rid = VInt n) -> py_eq x rid = true -> x = rid.
Proof.
  intros Hinv Hix Hx [n ->] E.
  apply In_index_ids in Hx as (k & ids & Hin & Hx).
  destruct (inv_index_sound Hinv _ _ _ _ _ Hix Hin Hx) as (r & v & Hr & Hid & _).
  destruct (inv_ids_fresh Hinv _ Hr) as (m & Hm & _).
  rewrite Hid in Hm. injection Hm as ->.
  apply py_eq_VInt; assumption.
Qed.

Lemma dict_get_set_cases V c c' (x : V) d :
  dict_get c' (dict_set c x d) = if string_dec c' c then Some x else dict_get c' d.
Proof.
  destruct (string_dec c' c) as [-> | Hne].
  - apply dict_get_set_same.
  - apply dict_get_set_other; assumption.
Qed.

(** Replacing the index of a column by one whose entries are justified by
    the rows keeps the invariant. *)
Lemma table_inv_replace_index t c ix ix' :
  table_inv t -> dict_get c (indexes t) = Some ix ->
  index_wf ix' ->
  (forall k ids x, In (k, ids) ix' -> In x ids ->
     exists r v, In r (rows t) /\ dict_get "_row_id" r = Some x
                 /\ dict_get c r = Some v /\ py_eq v k = true) ->
  table_inv (set_indexes t (dict_set c ix' (indexes t))).
Proof.
  intros Hinv Hix Hwf Hsound.
  constructor; simpl.
  - apply (inv_no_row_id_column Hinv).
  - intros c'. rewrite dict_get_set_cases.
    destruct (string_dec c' c) as [-> | _]; intros H.
    + apply (inv_indexed_is_column Hinv). congruence.
    + apply (inv_indexed_is_column Hinv). assumption.
  - apply (inv_ids_fresh Hinv).
  - apply (inv_ids_distinct Hinv).
  - intros c' ix0 k ids x. simpl. rewrite dict_get_set_cases.
    destruct (string_dec c' c) as [-> | _].
    + intros [= <-]. apply Hsound.
    + apply (inv_index_sound Hinv).
  - intros c' ix0. rewrite dict_get_set_cases.
    destruct (string_dec c' c) as [-> | _].
    + intros [= <-]. exact Hwf.
    + apply (inv_index_wf Hinv).
Qed.

(** Removing from an index keeps the invariant. *)
Lemma table_inv_after_index_remove c v rid t :
  table_inv t -> table_inv (after_index_remove c v rid t).
Proof.
  intros Hinv. unfold after_index_remove.
  destruct (dict_get c (indexes t)) as [ix |] eqn:Hix; [| assumption].
  apply table_inv_replace_index with (ix := ix); auto.
  - destruct (inv_index_wf Hinv _ _ Hix) as [Hk Hn]. split.
    + apply Index_remove_keys_distinct; assumption.
    + apply Index_remove_NoDup; assumption.
  - intros k ids x Hin Hx.
    destruct (Index_remove_In _ _ _ _ _ _ Hin Hx) as (ids0 & H1 & H2).
    apply (inv_index_sound Hinv _ _ _ _ _ Hix H1 H2).
Qed.

(** After [remove(v, row_id)] for a live row whose value in [c] equals
    [v], the row's identifier is nowhere in the index of [c]. *)
Lemma after_index_remove_gone c v rid row t :
  table_inv t -> In row (rows t) ->
  dict_get "_row_id" row = Some rid ->
  (forall w, dict_get c row = Some w -> py_eq w v = true) ->
  forall ix, dict_get c (indexes (after_index_remove c v rid t)) = Some ix ->
             ~ In rid (index_ids ix).
Proof.
  intros Hinv Hrow Hid Hval ix. unfold after_index_remove.
  destruct (dict_get c (indexes t)) as [ix0 |] eqn:Hix; [| congruence].
  simpl. rewrite dict_get_set_same. intros [= <-].
  destruct (inv_index_wf Hinv _ _ Hix) as [Hk Hn].
  apply Index_remove_gone; auto.
  - intros k ids Hin Hx.
    destruct (inv_index_sound Hinv _ _ _ _ _ Hix Hin Hx) as (r & w & Hr & Hrid & Hw & E).
    assert (r = row) as -> by (eapply row_by_id; eauto).
    eapply py_eq_trans; [apply py_eq_sym; exact E | auto].
  - intros x Hx. eapply indexed_id_eq; eauto.
    destruct (inv_ids_fresh Hinv _ Hrow) as (n & Hn' & _).
    exists n. congruence.
Qed.

(** Assigning [row[c] = v] to a live row that the index of [c] does not
    list keeps the invariant. *)
Lemma table_inv_set_row_value i row rid c v t :
  table_inv t -> nth_error (rows t) i = Some row ->
  dict_get "_row_id" row = Some rid ->
  dict_get c (columns t) <> None ->
  (forall ix, dict_get c (indexes t) = Some ix -> ~ In rid (index_ids ix)) ->
  table_inv (set_rows t (list_update i (dict_set c v row) (rows t))).
Proof.
  intros Hinv Hi Hid Hcol Hfree.
  assert (c <> "_row_id") as Hc.
  { intros ->. apply Hcol. apply (inv_no_row_id_column Hinv). }
  assert (dict_get "_row_id" (dict_set c v row) = Some rid) as Hid'.
  { rewrite dict_get_set_other by congruence. assumption. }
  pose proof (nth_error_In _ _ Hi) as Hrow.
  constructor; simpl.
  - apply (inv_no_row_id_column Hinv).
  - apply (inv_indexed_is_column Hinv).
  - intros r Hr. apply In_list_update_inv in Hr as [-> | Hr].
    + destruct (inv_ids_fresh Hinv _ Hrow) as (n & Hn & Hlt).
      exists n. split; [congruence | assumption].
    + apply (inv_ids_fresh Hinv _ Hr).
  - unfold row_ids; simpl.
    rewrite map_list_update with (y := row); [apply (inv_ids_distinct Hinv) | assumption |].
    congruence.
  - intros c' ix k ids x Hix Hin Hx. simpl in Hix.
    destruct (inv_index_sound Hinv _ _ _ _ _ Hix Hin Hx) as (r & w & Hr & Hrid & Hw & E).
    apply In_nth_error in Hr as [j Hj].
    destruct (Nat.eq_dec i j) as [<- | Hij].
    + assert (r = row) as -> by congruence.
      assert (x = rid) as -> by congruence.
      assert (c' <> c) as Hcc.
      { intros ->. apply (Hfree _ Hix). apply In_index_ids. eauto. }
      exists (dict_set c v row), w. repeat split; auto.
      * simpl. eapply nth_error_In. eapply nth_error_list_update_same; eauto.
      * rewrite dict_get_set_other; assumption.
    + exists r, w. repeat split; auto.
      simpl. apply nth_error_In with (n := j).
      rewrite nth_error_list_update_other; assumption.
  - apply (inv_index_wf Hinv).
Qed.

(** Adding a live row's identifier under its value in [c], when the
    index of [c] does not list it yet, keeps the invariant. *)
Lemma table_inv_after_index_add c v rid r w t :
  table_inv t -> In r (rows t) ->
  dict_get "_row_id" r = Some rid -> dict_get c r = Some w ->
  py_eq w v = true ->
  (forall ix, dict_get c (indexes t) = Some ix -> ~ In rid (index_ids ix)) ->
  table_inv (after_index_add c v rid t).
Proof.
  intros Hinv Hr Hid Hw E Hfree. unfold after_index_add.
  destruct (dict_get c (indexes t)) as [ix |] eqn:Hix; [| assumption].
  apply table_inv_replace_index with (ix := ix); auto.
  - destruct (inv_index_wf Hinv _ _ Hix) as [Hk Hn]. split.
    + apply Index_add_keys_distinct; assumption.
    + apply Index_add_NoDup; auto.
  - intros k ids x Hin Hx.
    destruct (Index_add_In _ _ _ _ _ _ Hin Hx) as [(ids0 & H1 & H2) | [-> Ek]].
    + apply (inv_index_sound Hinv _ _ _ _ _ Hix H1 H2).
    + exists r, w. repeat split; auto.
      eapply py_eq_trans; [exact E | apply py_eq_sym; exact Ek].
Qed.

Lemma nth_error_map_Some A B (f : A -> B) l i b :
  nth_error (map f l) i = Some b <-> exists a, nth_error l i = Some a /\ f a = b.
Proof.
  revert i; induction l as [| x l IH]; intros [| i]; simpl.
  - split; [discriminate | intros (a & H & _); discriminate].
  - split; [discriminate | intros (a & H & _); discriminate].
  - split; [intros [= <-]; eauto | intros (a & [= <-] & <-); reflexivity].
  - apply IH.
Qed.

Lemma nth_error_row_ids t i rid :
  nth_error (row_ids t) i = Some (Some rid) <->
  exists row, nth_error (rows t) i = Some row /\ dict_get "_row_id" row = Some rid.
Proof. unfold row_ids. apply nth_error_map_Some. Qed.

(** One item of an UPDATE keeps the invariant, whether it goes through,
    is skipped or raises. *)
Lemma table_inv_update_item i rid kv t :
  table_inv t -> nth_error (row_ids t) i = Some (Some rid) ->
  table_inv (fst (update_item i rid kv t)).
Proof.
  intros Hinv Hrid. apply nth_error_row_ids in Hrid as (row0 & Hi0 & Hid0).
  destruct kv as [c v]. rewrite update_item_eq.
  destruct (dict_get c (columns t)) as [column |] eqn:Ecol; [| assumption].
  rewrite Hi0.
  destruct (dict_get c row0) as [old |] eqn:Eold; [| assumption].
  destruct (py_eq old v); [assumption |].
  cbv zeta.
  pose proof (table_inv_after_index_remove c old rid Hinv) as Hinv1.
  pose proof (nth_error_In _ _ Hi0) as Hrow0.
  assert (forall w, dict_get c row0 = Some w -> py_eq w old = true) as Hsame.
  { intros w Hw. rewrite Eold in Hw. injection Hw as <-. apply py_eq_refl. }
  pose proof (@after_index_remove_gone c old rid row0 t Hinv Hrow0 Hid0 Hsame)
    as Hgone.
  destruct (after_index_remove_frame c old rid t) as (Hr & Hc & _).
  set (t1 := after_index_remove c old rid t) in *.
  destruct (snd (check_constraint column c v t1)) as [e | []]; simpl fst;
    [assumption |].
  rewrite <- Hr.
  assert (table_inv (set_rows t1 (list_update i (dict_set c v row0) (rows t1))))
    as Hinv2.
  { apply table_inv_set_row_value with (rid := rid); auto.
    - rewrite Hr; assumption.
    - rewrite Hc, Ecol; discriminate. }
  apply table_inv_after_index_add with (r := dict_set c v row0) (w := v); auto.
  - simpl. eapply nth_error_In. eapply nth_error_list_update_same.
    rewrite Hr; eassumption.
  - rewrite dict_get_set_other; [assumption |].
    intros <-. pose proof (inv_no_row_id_column Hinv) as Hno.
    unfold no_row_id_column in Hno. congruence.
  - apply dict_get_set_same.
  - apply py_eq_refl.
Qed.

Lemma table_inv_update_row updates i t :
  table_inv t -> table_inv (fst (update_row updates i t)).
Proof.
  intros Hinv. unfold update_row.
  apply bind_keeps; [rewrite row_at_readonly; exact Hinv |].
  intros row t1 E1. rewrite row_at_eq in E1.
  destruct (nth_error (rows t) i) as [row' |] eqn:Hi; [| discriminate].
  injection E1 as <- <-.
  apply bind_keeps; [rewrite subscript_readonly; exact Hinv |].
  intros rid t2 E2. unfold subscript in E2.
  destruct (dict_get "_row_id" row') as [rid' |] eqn:Hid; [| discriminate].
  injection E2 as <- <-.
  apply bind_keeps.
  { rewrite for_each_readonly; [exact Hinv |]. intros; apply validate_item_readonly. }
  intros [] t3 E3.
  assert (t3 = t) as ->.
  { pose proof (for_each_readonly validate_item updates
                  (fun x u _ => validate_item_readonly x u) t) as R.
    rewrite E3 in R; exact R. }
  set (P := fun u : Table =>
              table_inv u /\ nth_error (row_ids u) i = Some (Some rid')).
  assert (P (fst (for_each updates (update_item i rid') t))) as [H _]; [| exact H].
  apply for_each_keeps.
  - intros kv u _ [Hu1 Hu2]. split.
    + apply table_inv_update_item; assumption.
    + destruct (update_item_row_ids i rid' kv (inv_no_row_id_column Hu1)) as [-> _].
      assumption.
  - split; [assumption |]. apply nth_error_row_ids. eauto.
Qed.

(** [update_rows] keeps the invariant, whether it returns or raises. *)
Lemma table_inv_update_rows conditions updates t :
  table_inv t -> table_inv (fst (update_rows conditions updates t)).
Proof.
  intros Hinv. unfold update_rows.
  apply bind_keeps; [exact Hinv |].
  intros self t1 E1. unfold get in E1. injection E1 as <- <-.
  apply bind_keeps.
  - apply for_each_keeps; [| exact Hinv].
    intros i u _ Hu. apply table_inv_update_row; assumption.
  - intros [] t2 E2. simpl.
    replace t2 with (fst (for_each (find_row_positions t conditions)
                            (update_row updates) t)) by (rewrite E2; reflexivity).
    apply for_each_keeps; [| exact Hinv].
    intros i u _ Hu. apply table_inv_update_row; assumption.
Qed.

(* ------------------------------------------------------------------ *)
(** ** insert_row *)

Lemma In_keys_dict_get V k (d : pydict V) :
  In k (dict_keys d) -> dict_get k d <> None.
Proof.
  induction d as [| [k0 v0] d IH]; simpl; [contradiction |].
  intros [-> | H].
  - rewrite String.eqb_refl; discriminate.
  - destruct (String.eqb k0 k); [discriminate | auto].
Qed.

Lemma dict_get_not_None_In_keys V k (d : pydict V) :
  dict_get k d <> None -> In k (dict_keys d).
Proof.
  destruct (dict_get k d) as [v |] eqn:E; [| congruence].
  intros _. eapply dict_get_In_keys; eauto.
Qed.

(** The row built by a loop of assignments [row[k] = g(k)]. *)
Lemma fold_dict_set_get V W (g : string -> V) (cols : list (string * W)) c :
  forall row,
    dict_get c (fold_left (fun row (kc : string * W) =>
                             dict_set (fst kc) (g (fst kc)) row) cols row)
    = if in_dec string_dec c (map fst cols) then Some (g c) else dict_get c row.
Proof.
  induction cols as [| [k0 w0] cols IH]; intros row; simpl fold_left.
  - reflexivity.
  - rewrite IH. simpl map.
    destruct (in_dec string_dec c (map fst cols)) as [Hin | Hnin].
    + destruct (in_dec string_dec c (k0 :: map fst cols)) as [_ | Hn];
        [reflexivity | exfalso; apply Hn; simpl; auto].
    + simpl fst. rewrite dict_get_set_cases.
      destruct (string_dec c k0) as [-> | Hne].
      * destruct (in_dec string_dec k0 (k0 :: map fst cols)) as [_ | Hn];
          [reflexivity | exfalso; apply Hn; simpl; auto].
      * destruct (in_dec string_dec c (k0 :: map fst cols)) as [[E | Hin] | _];
          [congruence | contradiction | reflexivity].
Qed.

Lemma new_row_row_id t values :
  no_row_id_column t ->
  dict_get "_row_id" (new_row t values) = Some (VInt (next_row_id t)).
Proof.
  intros Hno. unfold new_row.
  rewrite (fold_dict_set_get (fun k => dict_get_or_None k values)).
  destruct (in_dec string_dec "_row_id" (map fst (columns t))) as [Hin | _];
    [| reflexivity].
  apply In_keys_dict_get in Hin. unfold no_row_id_column in Hno. congruence.
Qed.

Lemma new_row_column t values c :
  dict_get c (columns t) <> None ->
  dict_get c (new_row t values) = Some (dict_get_or_None c values).
Proof.
  intros Hc. unfold new_row.
  rewrite (fold_dict_set_get (fun k => dict_get_or_None k values)).
  destruct (in_dec string_dec c (map fst (columns t))) as [_ | Hn];
    [reflexivity |].
  exfalso; apply Hn. apply dict_get_not_None_In_keys; assumption.
Qed.

Lemma after_index_add_other c c' v rid t :
  c' <> c ->
  dict_get c' (indexes (after_index_add c v rid t)) = dict_get c' (indexes t).
Proof.
  intros Hne. unfold after_index_add.
  destruct (dict_get c (indexes t)); simpl; [| reflexivity].
  apply dict_get_set_other; assumption.
Qed.

Lemma after_index_add_indexed c c' v rid t :
  dict_get c' (indexes (after_index_add c v rid t)) <> None <->
  dict_get c' (indexes t) <> None.
Proof.
  unfold after_index_add.
  destruct (dict_get c (indexes t)) eqn:E; simpl; [| tauto].
  rewrite dict_get_set_cases. destruct (string_dec c' c) as [-> | _]; [| tauto].
  rewrite E. split; discriminate.
Qed.

Lemma after_index_remove_other c c' v rid t :
  c' <> c ->
  dict_get c' (indexes (after_index_remove c v rid t)) = dict_get c' (indexes t).
Proof.
  intros Hne. unfold after_index_remove.
  destruct (dict_get c (indexes t)); simpl; [| reflexivity].
  apply dict_get_set_other; assumption.
Qed.

(** The table with the new row appended and the counter advanced, before
    the indexes are touched. *)
Lemma table_inv_append_row t values :
  table_inv t ->
  table_inv (set_next_row_id (set_rows t (rows t ++ [new_row t values]))
                             (next_row_id t + 1)).
Proof.
  intros Hinv.
  pose proof (new_row_row_id values (inv_no_row_id_column Hinv)) as Hnew.
  constructor; simpl.
  - apply (inv_no_row_id_column Hinv).
  - apply (inv_indexed_is_column Hinv).
  - intros r Hr. apply in_app_or in Hr as [Hr | [<- | []]].
    + destruct (inv_ids_fresh Hinv _ Hr) as (n & Hn & Hlt).
      exists n; split; [assumption | lia].
    + exists (next_row_id t); split; [assumption | lia].
  - unfold row_ids; simpl. rewrite map_app. simpl.
    apply NoDup_app.
    + apply (inv_ids_distinct Hinv).
    + constructor; [simpl; tauto | constructor].
    + intros a Ha [<- | []].
      apply in_map_iff in Ha as (r & Hr1 & Hr2).
      destruct (inv_ids_fresh Hinv _ Hr2) as (n & Hn & Hlt).
      rewrite Hnew in Hr1. rewrite Hr1 in Hn. injection Hn as Hn. lia.
  - intros c ix k ids x Hix Hin Hx. simpl in Hix.
    destruct (inv_index_sound Hinv _ _ _ _ _ Hix Hin Hx) as (r & w & Hr & H).
    exists r, w. split; [simpl; apply in_or_app; auto | exact H].
  - apply (inv_index_wf Hinv).
Qed.

(** A loop of [add]s of one live row's identifier, one per column at
    most, each under the row's value. *)
Lemma table_inv_fold_index_add r rid vs :
  NoDup (map fst vs) ->
  forall u,
    table_inv u -> In r (rows u) -> dict_get "_row_id" r = Some rid ->
    (forall c v, In (c, v) vs -> dict_get c (indexes u) <> None ->
                 exists w, dict_get c r = Some w /\ py_eq w v = true) ->
    (forall c ix, In c (map fst vs) -> dict_get c (indexes u) = Some ix ->
                  ~ In rid (index_ids ix)) ->
    table_inv (fold_left (fun u kv => after_index_add (fst kv) (snd kv) rid u) vs u).
Proof.
  induction vs as [| [c v] vs IH]; intros Hnd u Hinv Hr Hid Hval Hfree; simpl;
    [assumption |].
  simpl in Hnd. inversion Hnd as [| ? ? Hnot Hnd']; subst.
  destruct (after_index_add_frame c v rid u) as (Hrows & _).
  apply IH; auto.
  - destruct (dict_get c (indexes u)) as [ix |] eqn:Hix.
    + destruct (Hval c v (or_introl eq_refl)) as (w & Hw & E); [congruence |].
      apply table_inv_after_index_add with (r := r) (w := w); auto.
      intros ix' Hix'. apply (Hfree c ix'); simpl; auto.
    + unfold after_index_add. rewrite Hix. assumption.
  - rewrite Hrows; assumption.
  - intros c' v' Hin Hix. apply (Hval c' v'); [simpl; auto |].
    apply after_index_add_indexed in Hix; assumption.
  - intros c' ix Hin Hix.
    assert (c' <> c) as Hne.
    { intros ->. apply Hnot. assumption. }
    rewrite after_index_add_other in Hix by assumption.
    apply (Hfree c' ix); simpl; auto.
Qed.

(** A committed INSERT keeps the invariant. *)
Lemma table_inv_insert_commit values t :
  table_inv t -> dict_wf values -> table_inv (insert_commit values t).
Proof.
  intros Hinv Hwf. unfold insert_commit.
  pose proof (new_row_row_id values (inv_no_row_id_column Hinv)) as Hnew.
  apply table_inv_fold_index_add with (r := new_row t values).
  - exact Hwf.
  - apply table_inv_append_row; assumption.
  - simpl. apply in_or_app; right; simpl; auto.
  - exact Hnew.
  - intros c v Hin Hix. simpl in Hix.
    exists v. split; [| apply py_eq_refl].
    rewrite new_row_column by (apply (inv_indexed_is_column Hinv); assumption).
    unfold dict_get_or_None. rewrite (@In_dict_get _ c v values Hwf Hin). reflexivity.
  - intros c ix _ Hix Hin. simpl in Hix.
    apply In_index_ids in Hin as (k & ids & Hk & Hx).
    destruct (inv_index_sound Hinv _ _ _ _ _ Hix Hk Hx) as (r & w & Hr & Hid & _).
    destruct (inv_ids_fresh Hinv _ Hr) as (n & Hn & Hlt).
    rewrite Hid in Hn. injection Hn as Hn. lia.
Qed.

(** [insert_row] keeps the invariant, whether it returns or raises. *)
Lemma table_inv_insert_row values t :
  table_inv t -> dict_wf values -> table_inv (fst (insert_row values t)).
Proof.
  intros Hinv Hwf.
  destruct (insert_row_cases values t) as [[e ->] | ->]; simpl;
    [assumption | apply table_inv_insert_commit; assumption].
Qed.

(* ------------------------------------------------------------------ *)
(** ** delete_rows *)

Lemma index_remove_eq c v rid t :
  index_remove c v rid t =
  match dict_get c (indexes t) with
  | Some _ => (after_index_remove c v rid t, Returned tt)
  | None => (t, Raised (KeyError c))
  end.
Proof.
  unfold index_remove, after_index_remove, bind, get, subscript, put, ret, raise.
  destruct (dict_get c (indexes t)); reflexivity.
Qed.

Lemma after_index_remove_indexed c c' v rid t :
  dict_get c' (indexes (after_index_remove c v rid t)) <> None <->
  dict_get c' (indexes t) <> None.
Proof.
  unfold after_index_remove.
  destruct (dict_get c (indexes t)) eqn:E; simpl; [| tauto].
  rewrite dict_get_set_cases. destruct (string_dec c' c) as [-> | _]; [| tauto].
  rewrite E. split; discriminate.
Qed.

(** The loop over the indexed columns never raises. *)
Lemma purge_loop_eq row rid keys :
  forall t,
    (forall c, In c keys -> dict_get c (indexes t) <> None) ->
    for_each keys (fun c => match dict_get c row with
                            | Some v => index_remove c v rid
                            | None => ret tt
                            end) t
    = (after_purge row rid keys t, Returned tt).
Proof.
  induction keys as [| c keys IH]; intros t Hkeys; simpl; [reflexivity |].
  unfold bind.
  assert (forall u, (forall c', dict_get c' (indexes u) <> None <->
                                dict_get c' (indexes t) <> None) ->
                    forall c', In c' keys -> dict_get c' (indexes u) <> None) as Hnext.
  { intros u Hu c' Hc'. apply Hu. apply Hkeys; simpl; auto. }
  destruct (dict_get c row) as [v |].
  - rewrite index_remove_eq.
    destruct (dict_get c (indexes t)) eqn:E.
    + apply IH. apply Hnext. intros c'. apply after_index_remove_indexed.
    + exfalso. apply (Hkeys c); simpl; auto.
  - unfold ret at 1. apply IH. apply Hnext. tauto.
Qed.

Lemma after_purge_frame row rid keys t :
  rows (after_purge row rid keys t) = rows t
  /\ columns (after_purge row rid keys t) = columns t
  /\ next_row_id (after_purge row rid keys t) = next_row_id t.
Proof.
  unfold after_purge. revert t; induction keys as [| c keys IH]; intros t; simpl;
    [auto |].
  destruct (dict_get c row) as [v |]; [| apply IH].
  destruct (IH (after_index_remove c v rid t)) as (H1 & H2 & H3).
  destruct (after_index_remove_frame c v rid t) as (F1 & F2 & F3 & _).
  repeat split; congruence.
Qed.

Lemma table_inv_after_purge row rid keys t :
  table_inv t -> table_inv (after_purge row rid keys t).
Proof.
  unfold after_purge. revert t; induction keys as [| c keys IH]; intros t Hinv;
    simpl; [assumption |].
  apply IH. destruct (dict_get c row); [| assumption].
  apply table_inv_after_index_remove; assumption.
Qed.

(** [r == row] gives [row] every key of [r], with an equal value. *)
Lemma dict_eq_get r row k w :
  dict_eq r row = true -> dict_get k r = Some w ->
  exists w', dict_get k row = Some w' /\ py_eq w w' = true.
Proof.
  unfold dict_eq. intros H Hk.
  apply andb_true_iff in H as [_ H].
  rewrite forallb_forall in H. specialize (H (k, w) (dict_get_In _ _ Hk)).
  simpl in H. destruct (dict_get k row) as [w' |]; [eauto | discriminate].
Qed.

(** Once a live row equal to [row] has been found, the loop leaves its
    identifier in no index it went through, nor in any index that did not
    list it. *)
Lemma after_purge_gone row rid r0 keys :
  dict_eq r0 row = true ->
  forall t,
    table_inv t -> In r0 (rows t) -> dict_get "_row_id" r0 = Some rid ->
    forall c ix,
      In c keys
      \/ (forall ix0, dict_get c (indexes t) = Some ix0 -> ~ In rid (index_ids ix0)) ->
      dict_get c (indexes (after_purge row rid keys t)) = Some ix ->
      ~ In rid (index_ids ix).
Proof.
  intros Heq. unfold after_purge.
  induction keys as [| c0 keys IH]; intros t Hinv Hr0 Hid c ix Hc; simpl.
  - destruct Hc as [[] | Hc]. apply Hc.
  - assert (forall ix0, dict_get c0 (indexes t) = Some ix0 ->
                        dict_get c0 row = None -> ~ In rid (index_ids ix0)) as Hnone.
    { intros ix0 Hix0 Hnone Hin.
      apply In_index_ids in Hin as (k & ids & Hk & Hx).
      destruct (inv_index_sound Hinv _ _ _ _ _ Hix0 Hk Hx) as (r & w & Hr & Hrid & Hw & _).
      assert (r = r0) as -> by (eapply row_by_id; eauto).
      destruct (@dict_eq_get r0 row _ _ Heq Hw) as (w' & Hw' & _). congruence. }
    destruct (dict_get c0 row) as [v |] eqn:Ev.
    + destruct (after_index_remove_frame c0 v rid t) as (Hrows & _).
      apply IH.
      * apply table_inv_after_index_remove; assumption.
      * rewrite Hrows; assumption.
      * assumption.
      * destruct (string_dec c c0) as [-> | Hne].
        -- right. apply (@after_index_remove_gone c0 v rid r0 t); auto.
           intros w Hw. destruct (@dict_eq_get r0 row _ _ Heq Hw) as (w' & Hw' & E).
           congruence.
        -- destruct Hc as [[-> | Hc] | Hc]; [congruence | left; assumption |].
           right. intros ix0. rewrite after_index_remove_other by assumption.
           apply Hc.
    + apply IH; auto.
      destruct (string_dec c c0) as [-> | Hne].
      * right. intros ix0 Hix0. apply Hnone; auto.
      * destruct Hc as [[-> | Hc] | Hc]; [congruence | left; assumption |].
        right; assumption.
Qed.

Lemma rows_remove_split row l l' :
  rows_remove row l = Some l' ->
  exists l1 r0 l2, l = l1 ++ r0 :: l2 /\ l' = l1 ++ l2 /\ dict_eq r0 row = true.
Proof.
  revert l'; induction l as [| r l IH]; simpl; intros l'; [discriminate |].
  destruct (dict_eq r row) eqn:E.
  - intros [= <-]. exists [], r, l. auto.
  - destruct (rows_remove row l) as [l'' |]; [| discriminate].
    intros [= <-]. destruct (IH _ eq_refl) as (l1 & r0 & l2 & -> & -> & H).
    exists (r :: l1), r0, l2. auto.
Qed.

(** Taking out a live row that no index lists keeps the invariant. *)
Lemma table_inv_remove_row t l1 r0 l2 rid :
  table_inv t -> rows t = l1 ++ r0 :: l2 ->
  dict_get "_row_id" r0 = Some rid ->
  (forall c ix, dict_get c (indexes t) = Some ix -> ~ In rid (index_ids ix)) ->
  table_inv (set_rows t (l1 ++ l2)).
Proof.
  intros Hinv Hrows Hid Hfree.
  assert (forall r, In r (l1 ++ l2) -> In r (rows t)) as Hsub.
  { intros r Hr. rewrite Hrows. apply in_app_or in Hr as [H | H];
      apply in_or_app; simpl; auto. }
  constructor; simpl.
  - apply (inv_no_row_id_column Hinv).
  - apply (inv_indexed_is_column Hinv).
  - intros r Hr. apply (inv_ids_fresh Hinv). auto.
  - pose proof (inv_ids_distinct Hinv) as Hnd. unfold row_ids in *; simpl.
    rewrite Hrows, map_app in Hnd. simpl in Hnd.
    rewrite map_app. eapply NoDup_remove_1; eauto.
  - intros c ix k ids x Hix Hin Hx. simpl in Hix.
    destruct (inv_index_sound Hinv _ _ _ _ _ Hix Hin Hx) as (r & w & Hr & Hrid & H).
    exists r, w. split; [| auto]. simpl.
    rewrite Hrows in Hr. apply in_elt_inv in Hr as [<- | Hr]; [| assumption].
    exfalso. apply (Hfree c ix Hix). apply In_index_ids.
    exists k, ids. split; [assumption |]. congruence.
  - apply (inv_index_wf Hinv).
Qed.

(** Deleting one row keeps the invariant, whether the deletion goes
    through or raises. *)
Lemma table_inv_delete_row row t :
  table_inv t -> (exists n, dict_get "_row_id" row = Some (VInt n)) ->
  table_inv (fst (delete_row row t)).
Proof.
  intros Hinv [n Hn]. unfold delete_row.
  unfold bind at 1, subscript at 1. rewrite Hn. unfold ret at 1.
  unfold bind at 1, get. unfold bind at 1.
  rewrite purge_loop_eq
    by (intros c Hc; apply In_keys_dict_get; assumption).
  set (u := after_purge row (VInt n) (dict_keys (indexes t)) t).
  pose proof (table_inv_after_purge row (VInt n) (dict_keys (indexes t)) Hinv) as Hu.
  destruct (after_purge_frame row (VInt n) (dict_keys (indexes t)) t) as (Hrows & _).
  fold u in Hu, Hrows.
  unfold bind, get.
  destruct (rows_remove row (rows u)) as [l |] eqn:Erm; simpl; [| assumption].
  destruct (rows_remove_split _ _ Erm) as (l1 & r0 & l2 & Hl & -> & Heq).
  assert (In r0 (rows t)) as Hr0.
  { rewrite <- Hrows, Hl. apply in_or_app; simpl; auto. }
  assert (dict_get "_row_id" r0 = Some (VInt n)) as Hid0.
  { destruct (inv_ids_fresh Hinv _ Hr0) as (m & Hm & _).
    destruct (@dict_eq_get r0 row _ _ Heq Hm) as (w' & Hw' & E).
    rewrite Hn in Hw'. injection Hw' as <-.
    apply py_eq_VInt in E. congruence. }
  apply table_inv_remove_row with (r0 := r0) (rid := VInt n); auto.
  intros c ix Hix.
  apply (@after_purge_gone row (VInt n) r0 (dict_keys (indexes t)) Heq t Hinv Hr0 Hid0 c ix);
    [| exact Hix].
  destruct (dict_get c (indexes t)) as [ix0 |] eqn:E0.
  - left. eapply dict_get_In_keys; eauto.
  - right. intros ix0 H0. discriminate.
Qed.

Lemma find_rows_incl t conditions r :
  In r (find_rows t conditions) -> In r (rows t).
Proof.
  unfold find_rows. destruct conditions as [[| kv conds] |]; auto.
  intros H. apply filter_In in H. tauto.
Qed.

(** [delete_rows] keeps the invariant, whether it returns or raises. *)
Lemma table_inv_delete_rows conditions t :
  table_inv t -> table_inv (fst (delete_rows conditions t)).
Proof.
  intros Hinv. unfold delete_rows.
  apply bind_keeps; [exact Hinv |].
  intros self t1 E1. unfold get in E1. injection E1 as <- <-.
  assert (forall row u, In row (find_rows t conditions) -> table_inv u ->
                        table_inv (fst (delete_row row u))) as Hstep.
  { intros row u Hrow Hu. apply table_inv_delete_row; [assumption |].
    destruct (inv_ids_fresh Hinv _ (find_rows_incl _ _ _ Hrow)) as (n & Hn & _).
    eauto. }
  apply bind_keeps.
  - apply for_each_keeps; assumption.
  - intros [] t2 E2. simpl.
    replace t2 with (fst (for_each (find_rows t conditions) delete_row t))
      by (rewrite E2; reflexivity).
    apply for_each_keeps; assumption.
Qed.

(* ------------------------------------------------------------------ *)
(** ** A fresh table, and sequences of operations *)

Lemma Table_init_columns cols k :
  forall d0,
    dict_get k (fold_left (fun d c => dict_set (col_name c) c d) cols d0) <> None <->
    In k (map col_name cols) \/ dict_get k d0 <> None.
Proof.
  induction cols as [| c cols IH]; intros d0; simpl; [tauto |].
  rewrite IH, dict_get_set_cases.
  destruct (string_dec k (col_name c)) as [-> | Hne].
  - split; [auto | intros _; right; discriminate].
  - split; [tauto | intros [[E | H] | H]; [congruence | auto | auto]].
Qed.

Lemma Table_init_indexes cols k ix :
  forall d0,
    dict_get k (fold_left (fun d c =>
                             match constraint c with
                             | PRIMARY_KEY | UNIQUE => dict_set (col_name c) ([] : Index) d
                             | NONE => d
                             end) cols d0) = Some ix ->
    (ix = [] /\ In k (map col_name cols)) \/ dict_get k d0 = Some ix.
Proof.
  induction cols as [| c cols IH]; intros d0; simpl; [auto |].
  intros H. apply IH in H as [[-> Hin] | H]; [left; auto |].
  destruct (constraint c); try (right; exact H);
    rewrite dict_get_set_cases in H;
    (destruct (string_dec k (col_name c)) as [-> | Hne];
     [injection H as <-; left; auto | right; exact H]).
Qed.

(** A table just created satisfies the invariant, if no column is called
    ['_row_id']. *)
Lemma table_inv_Table_init nm cols :
  ~ In "_row_id" (map col_name cols) -> table_inv (Table_init nm cols).
Proof.
  intros Hno. unfold Table_init.
  constructor; simpl.
  - unfold no_row_id_column; simpl.
    destruct (dict_get "_row_id" _) eqn:E; [| reflexivity].
    exfalso.
    assert (dict_get "_row_id"
              (fold_left (fun d c => dict_set (col_name c) c d) cols []) <> None)
      as H by congruence.
    apply Table_init_columns in H as [H | H]; [auto | apply H; reflexivity].
  - intros c H. apply Table_init_columns. left.
    destruct (dict_get c _) as [ix |] eqn:E; [| congruence].
    apply Table_init_indexes in E as [[_ Hin] | E]; [assumption | discriminate].
  - intros r [].
  - constructor.
  - intros c ix k ids x Hix Hin. simpl in Hix.
    apply Table_init_indexes in Hix as [[-> _] | Hix]; [destruct Hin | discriminate].
  - intros c ix Hix.
    apply Table_init_indexes in Hix as [[-> _] | Hix]; [| discriminate].
    split; [exact I | constructor].
Qed.

Lemma table_inv_run_op o t :
  table_inv t -> op_wf o -> table_inv (fst (run_op o t)).
Proof.
  intros Hinv Hwf. destruct o as [values | conditions updates | conditions]; simpl.
  - apply table_inv_insert_row; assumption.
  - apply table_inv_update_rows; assumption.
  - apply table_inv_delete_rows; assumption.
Qed.

Lemma table_inv_run_ops ops :
  forall t, table_inv t -> Forall op_wf ops -> table_inv (run_ops t ops).
Proof.
  induction ops as [| o ops IH]; intros t Hinv Hwf; simpl; [assumption |].
  inversion Hwf; subst. apply IH; [apply table_inv_run_op |]; assumption.
Qed.

(* ================================================================== *)
(** * Completeness of the indexes, along operations that return *)

Lemma for_each_returned_keeps (P : Table -> Prop) X (body : X -> M unit) l :
  (forall x u u', In x l -> P u -> body x u = (u', Returned tt) -> P u') ->
  forall t t', P t -> for_each l body t = (t', Returned tt) -> P t'.
Proof.
  induction l as [| x l IH]; intros Hbody t t' Ht; simpl.
  - unfold ret. intros [= <-]. assumption.
  - unfold bind. destruct (body x t) as [u [e | []]] eqn:E; [discriminate |].
    apply IH.
    + intros y v v' Hy. apply Hbody; simpl; auto.
    + eapply Hbody; eauto. simpl; auto.
Qed.

Lemma after_index_add_same c v rid t ix :
  dict_get c (indexes t) = Some ix ->
  dict_get c (indexes (after_index_add c v rid t)) = Some (Index_add ix v rid).
Proof.
  intros H. unfold after_index_add. rewrite H. simpl. apply dict_get_set_same.
Qed.

Lemma after_index_remove_same c v rid t ix :
  dict_get c (indexes t) = Some ix ->
  dict_get c (indexes (after_index_remove c v rid t)) = Some (Index_remove ix v rid).
Proof.
  intros H. unfold after_index_remove. rewrite H. simpl. apply dict_get_set_same.
Qed.

(** Through a loop of [add]s an index keeps what [find] returned, and
    lists the identifier under the values added for its column. *)
Lemma fold_index_add_find rid vs :
  forall u c ix,
    dict_get c (indexes u) = Some ix ->
    exists ix',
      dict_get c (indexes (fold_left
                             (fun u kv => after_index_add (fst kv) (snd kv) rid u)
                             vs u)) = Some ix'
      /\ (forall w x, In x (Index_find ix w) -> In x (Index_find ix' w))
      /\ (forall v, In (c, v) vs -> In rid (Index_find ix' v)).
Proof.
  induction vs as [| [c0 v0] vs IH]; intros u c ix Hix; simpl.
  - exists ix. repeat split; auto. intros v [].
  - destruct (string_dec c c0) as [-> | Hne].
    + destruct (IH _ _ _ (after_index_add_same c0 v0 rid _ Hix))
        as (ix' & H1 & H2 & H3).
      exists ix'. split; [assumption |]. split.
      * intros w x Hx. apply H2. apply Index_find_add_mono; assumption.
      * intros v [[= <-] | Hin]; [| auto].
        apply H2. apply Index_find_add_same.
    + assert (dict_get c (indexes (after_index_add c0 v0 rid u)) = Some ix) as Hix'
          by (rewrite after_index_add_other; assumption).
      destruct (IH _ _ _ Hix') as (ix' & H1 & H2 & H3).
      exists ix'. split; [assumption |]. split; [assumption |].
      intros v [[= E _] | Hin]; [congruence | auto].
Qed.

Lemma fold_index_add_unindexed rid vs :
  forall u c,
    dict_get c (indexes u) = None ->
    dict_get c (indexes (fold_left
                           (fun u kv => after_index_add (fst kv) (snd kv) rid u)
                           vs u)) = None.
Proof.
  induction vs as [| [c0 v0] vs IH]; intros u c H; simpl; [assumption |].
  apply IH.
  destruct (dict_get c (indexes (after_index_add c0 v0 rid u))) eqn:E;
    [| reflexivity].
  assert (dict_get c (indexes u) <> None) as H'
      by (apply (after_index_add_indexed c0 c v0 rid u); congruence).
  congruence.
Qed.

(** A committed INSERT keeps the indexes complete. *)
Lemma index_complete_insert_commit values t :
  table_inv t -> dict_wf values -> index_complete t ->
  index_complete (insert_commit values t).
Proof.
  intros Hinv Hwf Hc r c ix' v x Hr Hix' Hv Hnn Hid.
  destruct (insert_commit_frame values t) as (Hrows & _).
  rewrite Hrows in Hr.
  unfold insert_commit in Hix'.
  set (t0 := set_next_row_id (set_rows t (rows t ++ [new_row t values]))
                             (next_row_id t + 1)) in *.
  destruct (dict_get c (indexes t)) as [ix |] eqn:Hix.
  - destruct (@fold_index_add_find (VInt (next_row_id t)) values t0 c ix Hix)
      as (ix'' & H1 & H2 & H3).
    rewrite H1 in Hix'. injection Hix' as <-.
    apply in_app_or in Hr as [Hr | [<- | []]].
    + apply H2. eapply Hc; eauto.
    + rewrite (new_row_row_id values (inv_no_row_id_column Hinv)) in Hid.
      injection Hid as <-.
      apply H3.
      rewrite new_row_column in Hv
        by (apply (inv_indexed_is_column Hinv); congruence).
      injection Hv as Hv. unfold dict_get_or_None in Hv.
      destruct (dict_get c values) as [v' |] eqn:Ev; [| congruence].
      subst v'. apply dict_get_In; assumption.
  - rewrite (@fold_index_add_unindexed (VInt (next_row_id t)) values t0 c Hix) in Hix'.
    discriminate.
Qed.

Lemma VInt_ne_py_eq a b : VInt a <> VInt b -> py_eq (VInt a) (VInt b) = false.
Proof.
  intros H. simpl. apply Z.eqb_neq. congruence.
Qed.

(** Two rows at different positions have identifiers that are not [==]. *)
Lemma ids_at_positions_differ t i j ri rj x y :
  table_inv t -> i <> j ->
  nth_error (rows t) i = Some ri -> nth_error (rows t) j = Some rj ->
  dict_get "_row_id" ri = Some x -> dict_get "_row_id" rj = Some y ->
  py_eq y x = false.
Proof.
  intros Hinv Hij Hi Hj Hx Hy.
  destruct (inv_ids_fresh Hinv _ (nth_error_In _ _ Hi)) as (a & Ha & _).
  destruct (inv_ids_fresh Hinv _ (nth_error_In _ _ Hj)) as (b & Hb & _).
  assert (x = VInt a) as -> by congruence.
  assert (y = VInt b) as -> by congruence.
  apply VInt_ne_py_eq. intros E.
  apply Hij.
  pose proof (inv_ids_distinct Hinv) as Hnd.
  rewrite NoDup_nth_error in Hnd.
  apply Hnd.
  - unfold row_ids. rewrite length_map. apply nth_error_Some.
    rewrite Hi. discriminate.
  - unfold row_ids. rewrite !nth_error_map, Hi, Hj. simpl. congruence.
Qed.

(** An item of an UPDATE that goes through keeps the indexes complete. *)
Lemma index_complete_update_item i rid kv t t' :
  table_inv t -> index_complete t ->
  nth_error (row_ids t) i = Some (Some rid) ->
  update_item i rid kv t = (t', Returned tt) ->
  index_complete t'.
Proof.
  intros Hinv Hc Hrid. apply nth_error_row_ids in Hrid as (row0 & Hi0 & Hid0).
  destruct kv as [c v]. rewrite update_item_eq.
  destruct (dict_get c (columns t)) as [column |] eqn:Ecol; [| discriminate].
  rewrite Hi0.
  destruct (dict_get c row0) as [old |] eqn:Eold; [| discriminate].
  destruct (py_eq old v); [intros [= <-]; assumption |].
  cbv zeta.
  destruct (snd (check_constraint column c v (after_index_remove c old rid t)))
    as [e | []]; [discriminate |].
  intros [= <-].
  assert (c <> "_row_id") as Hcne.
  { intros ->. pose proof (inv_no_row_id_column Hinv) as Hno.
    unfold no_row_id_column in Hno. congruence. }
  intros r c' ix' w x Hr Hix' Hw Hnn Hx.
  match type of Hr with
  | In r (rows (after_index_add ?a ?b ?d ?u)) =>
      destruct (after_index_add_frame a b d u) as (Hrows & _)
  end.
  rewrite Hrows in Hr. simpl in Hr.
  apply In_nth_error in Hr as [j Hj].
  (* the index of [c'] afterwards, in terms of the index before *)
  assert (forall ix, dict_get c' (indexes t) = Some ix ->
                     forall y, py_eq y rid = false -> In y (Index_find ix w) ->
                               In y (Index_find ix' w)) as Hother.
  { intros ix Hix y Hy Hin.
    destruct (string_dec c' c) as [-> | Hne].
    - rewrite (after_index_add_same c v rid _
                 (ix := Index_remove ix old rid)) in Hix'.
      + injection Hix' as <-. apply Index_find_add_mono.
        apply Index_find_remove_other; assumption.
      + simpl. apply after_index_remove_same; assumption.
    - rewrite after_index_add_other in Hix' by assumption. simpl in Hix'.
      rewrite after_index_remove_other in Hix' by assumption.
      congruence. }
  assert (dict_get c' (indexes t) <> None) as Hidx.
  { match type of Hix' with
    | dict_get _ ?d = _ => assert (dict_get c' d <> None) as H1 by congruence
    end.
    apply after_index_add_indexed in H1. simpl in H1.
    apply after_index_remove_indexed in H1. exact H1. }
  destruct (dict_get c' (indexes t)) as [ix |] eqn:Hix; [| congruence].
  destruct (Nat.eq_dec i j) as [<- | Hij].
  - rewrite (nth_error_list_update_same _ _ _ Hi0) in Hj. injection Hj as <-.
    rewrite dict_get_set_other in Hx by congruence.
    assert (x = rid) as -> by congruence.
    destruct (string_dec c' c) as [-> | Hne].
    + rewrite dict_get_set_same in Hw. injection Hw as <-.
      rewrite (after_index_add_same c v rid _
                 (ix := Index_remove ix old rid)) in Hix'.
      * injection Hix' as <-. apply Index_find_add_same.
      * simpl. apply after_index_remove_same; assumption.
    + rewrite dict_get_set_other in Hw by assumption.
      rewrite after_index_add_other in Hix' by assumption. simpl in Hix'.
      rewrite after_index_remove_other in Hix' by assumption.
      assert (ix' = ix) as -> by congruence.
      eapply Hc; eauto. eapply nth_error_In; eauto.
  - rewrite nth_error_list_update_other in Hj by assumption.
    apply (Hother ix eq_refl).
    + eapply ids_at_positions_differ with (i := i) (j := j); eauto.
    + eapply Hc; eauto. eapply nth_error_In; eauto.
Qed.

Lemma bind_Returned_inv A B (m : M A) (k : A -> M B) t t' b :
  bind m k t = (t', Returned b) ->
  exists a t1, m t = (t1, Returned a) /\ k a t1 = (t', Returned b).
Proof.
  unfold bind. destruct (m t) as [t1 [e | a]]; [discriminate |]. eauto.
Qed.

Lemma index_complete_update_row updates i t t' :
  table_inv t -> index_complete t ->
  update_row updates i t = (t', Returned tt) -> index_complete t'.
Proof.
  intros Hinv Hc H. unfold update_row in H.
  apply bind_Returned_inv in H as (row & t1 & E1 & H).
  rewrite row_at_eq in E1.
  destruct (nth_error (rows t) i) as [row' |] eqn:Hi; [| discriminate].
  injection E1 as <- <-.
  apply bind_Returned_inv in H as (rid & t2 & E2 & H).
  unfold subscript in E2.
  destruct (dict_get "_row_id" row') as [rid' |] eqn:Hid; [| discriminate].
  injection E2 as <- <-.
  apply bind_Returned_inv in H as ([] & t3 & E3 & H).
  assert (t3 = t) as ->.
  { pose proof (for_each_readonly validate_item updates
                  (fun x u _ => validate_item_readonly x u) t) as R.
    rewrite E3 in R; exact R. }
  set (P := fun u : Table =>
              table_inv u /\ index_complete u
              /\ nth_error (row_ids u) i = Some (Some rid')).
  assert (P t') as (_ & Hc' & _); [| exact Hc'].
  apply (for_each_returned_keeps P (update_item i rid') updates) with (t := t);
    [| | exact H].
  - intros kv u u' _ (Hu1 & Hu2 & Hu3) E.
    assert (u' = fst (update_item i rid' kv u)) as Eu by (rewrite E; reflexivity).
    split; [| split].
    + rewrite Eu. apply table_inv_update_item; assumption.
    + apply (@index_complete_update_item i rid' kv u u' Hu1 Hu2 Hu3 E).
    + rewrite Eu.
      destruct (update_item_row_ids i rid' kv (inv_no_row_id_column Hu1)) as [-> _].
      assumption.
  - split; [assumption | split; [assumption |]].
    apply nth_error_row_ids. eauto.
Qed.

(** An UPDATE that returns keeps the indexes complete. *)
Lemma index_complete_update_rows conditions updates t t' n :
  table_inv t -> index_complete t ->
  update_rows conditions updates t = (t', Returned n) -> index_complete t'.
Proof.
  intros Hinv Hc H. unfold update_rows in H.
  apply bind_Returned_inv in H as (self & t1 & E1 & H).
  unfold get in E1. injection E1 as <- <-.
  apply bind_Returned_inv in H as ([] & t2 & E2 & H).
  unfold ret in H. injection H as <- _.
  set (P := fun u : Table => table_inv u /\ index_complete u).
  assert (P t2) as [_ Hc']; [| exact Hc'].
  apply (for_each_returned_keeps P (update_row updates)
           (find_row_positions t conditions)) with (t := t);
    [| split; assumption | exact E2].
  intros i u u' _ [Hu1 Hu2] E. split.
  - assert (u' = fst (update_row updates i u)) as -> by (rewrite E; reflexivity).
    apply table_inv_update_row; assumption.
  - apply (@index_complete_update_row updates i u u' Hu1 Hu2 E).
Qed.

(** Through the loop of [remove]s an index keeps, in what [find]
    returns, every identifier other than the one removed. *)
Lemma after_purge_find row rid keys c w y :
  py_eq y rid = false ->
  forall t ix',
    dict_get c (indexes (after_purge row rid keys t)) = Some ix' ->
    (forall ix, dict_get c (indexes t) = Some ix -> In y (Index_find ix w)) ->
    In y (Index_find ix' w).
Proof.
  intros Hy. unfold after_purge.
  induction keys as [| c0 keys IH]; intros t ix' Hix' Hfind; simpl in Hix'.
  - auto.
  - apply (IH _ _ Hix').
    destruct (dict_get c0 row) as [v |]; [| assumption].
    intros ix1 Hix1.
    destruct (string_dec c c0) as [-> | Hne].
    + destruct (dict_get c0 (indexes t)) as [ix |] eqn:Hix.
      * rewrite (after_index_remove_same c0 v rid t Hix) in Hix1.
        injection Hix1 as <-.
        apply Index_find_remove_other; auto.
      * unfold after_index_remove in Hix1. rewrite Hix in Hix1. congruence.
    + rewrite after_index_remove_other in Hix1 by assumption. auto.
Qed.

Lemma after_purge_indexed row rid keys c :
  forall t,
    dict_get c (indexes (after_purge row rid keys t)) <> None ->
    dict_get c (indexes t) <> None.
Proof.
  unfold after_purge.
  induction keys as [| c0 keys IH]; intros t H; simpl in H; [assumption |].
  apply IH in H. destruct (dict_get c0 row); [| assumption].
  apply after_index_remove_indexed in H. assumption.
Qed.

(** Deleting one row, when it goes through, keeps the indexes complete. *)
Lemma index_complete_delete_row row t t' :
  table_inv t -> index_complete t ->
  (exists n, dict_get "_row_id" row = Some (VInt n)) ->
  delete_row row t = (t', Returned tt) -> index_complete t'.
Proof.
  intros Hinv Hc [n Hn]. unfold delete_row.
  unfold bind at 1, subscript at 1. rewrite Hn. unfold ret at 1.
  unfold bind at 1, get. unfold bind at 1.
  rewrite purge_loop_eq
    by (intros c Hk; apply In_keys_dict_get; assumption).
  set (u := after_purge row (VInt n) (dict_keys (indexes t)) t).
  destruct (after_purge_frame row (VInt n) (dict_keys (indexes t)) t) as (Hrows & _).
  fold u in Hrows.
  unfold bind, get.
  destruct (rows_remove row (rows u)) as [l |] eqn:Erm; [| discriminate].
  unfold put. intros [= <-].
  destruct (rows_remove_split _ _ Erm) as (l1 & r0 & l2 & Hl & -> & Heq).
  rewrite Hrows in Hl.
  assert (In r0 (rows t)) as Hr0
      by (rewrite Hl; apply in_or_app; simpl; auto).
  assert (dict_get "_row_id" r0 = Some (VInt n)) as Hid0.
  { destruct (inv_ids_fresh Hinv _ Hr0) as (m & Hm & _).
    destruct (@dict_eq_get r0 row _ _ Heq Hm) as (w' & Hw' & E).
    rewrite Hn in Hw'. injection Hw' as <-.
    apply py_eq_VInt in E. congruence. }
  intros r c ix' w x Hr Hix' Hw Hnn Hx. simpl in Hr, Hix'.
  assert (In r (rows t)) as Hr'.
  { rewrite Hl. apply in_app_or in Hr as [H | H]; apply in_or_app; simpl; auto. }
  assert (py_eq x (VInt n) = false) as Hne.
  { destruct (inv_ids_fresh Hinv _ Hr') as (m & Hm & _).
    assert (x = VInt m) as -> by congruence.
    apply VInt_ne_py_eq. intros E.
    pose proof (inv_ids_distinct Hinv) as Hnd. unfold row_ids in Hnd.
    rewrite Hl, map_app in Hnd. simpl in Hnd.
    apply NoDup_remove_2 in Hnd. apply Hnd.
    rewrite <- map_app. rewrite Hid0, <- E, <- Hm.
    apply in_map. assumption. }
  apply (@after_purge_find row (VInt n) (dict_keys (indexes t)) c w x Hne t ix' Hix').
  intros ix Hix. eapply Hc; eauto.
Qed.

(** A DELETE that returns keeps the indexes complete. *)
Lemma index_complete_delete_rows conditions t t' n :
  table_inv t -> index_complete t ->
  delete_rows conditions t = (t', Returned n) -> index_complete t'.
Proof.
  intros Hinv Hc H. unfold delete_rows in H.
  apply bind_Returned_inv in H as (self & t1 & E1 & H).
  unfold get in E1. injection E1 as <- <-.
  apply bind_Returned_inv in H as ([] & t2 & E2 & H).
  unfold ret in H. injection H as <- _.
  set (P := fun u : Table => table_inv u /\ index_complete u).
  assert (P t2) as [_ Hc']; [| exact Hc'].
  apply (for_each_returned_keeps P delete_row (find_rows t conditions))
    with (t := t); [| split; assumption | exact E2].
  intros row u u' Hrow [Hu1 Hu2] E.
  assert (exists n, dict_get "_row_id" row = Some (VInt n)) as Hid.
  { destruct (inv_ids_fresh Hinv _ (find_rows_incl _ _ _ Hrow)) as (m & Hm & _).
    eauto. }
  split.
  - assert (u' = fst (delete_row row u)) as -> by (rewrite E; reflexivity).
    apply table_inv_delete_row; assumption.
  - apply (@index_complete_delete_row row u u' Hu1 Hu2 Hid E).
Qed.

Lemma index_complete_run_op o t t' n :
  table_inv t -> op_wf o -> index_complete t ->
  run_op o t = (t', Returned n) -> index_complete t'.
Proof.
  intros Hinv Hwf Hc H.
  destruct o as [values | conditions updates | conditions]; simpl in H.
  - destruct (insert_row_cases values t) as [[e E] | E]; rewrite E in H;
      [discriminate |].
    injection H as <- _. apply index_complete_insert_commit; assumption.
  - eapply index_complete_update_rows; eauto.
  - eapply index_complete_delete_rows; eauto.
Qed.

Lemma index_complete_run_ops ops :
  forall t,
    table_inv t -> Forall op_wf ops -> index_complete t ->
    all_returned t ops -> index_complete (run_ops t ops).
Proof.
  induction ops as [| o ops IH]; intros t Hinv Hwf Hc Hret; simpl; [assumption |].
  inversion Hwf; subst. destruct Hret as [[n Hn] Hret].
  apply IH; auto.
  - apply table_inv_run_op; assumption.
  - destruct (run_op o t) as [t' r] eqn:E. simpl in Hn |- *. subst r.
    eapply index_complete_run_op; eauto.
Qed.

(** C2, as amended.  Take a table created without a column called
    ['_row_id'] and run any sequence of [insert_row], [update_rows] and
    [delete_rows] on it, each INSERT with a dict of values.  Then, whether
    or not some of the operations raised, every identifier listed in an
    entry of the index of a column is the identifier of a live row whose
    current value in that column equals the entry's key: no index lists
    the identifier of a row that is not live.  And when none of the
    operations raised, every live row with a non-null value in an indexed
    column is listed in the entry [Index.find] returns for that value. *)
Theorem index_entries_reflect_live_rows :
  forall (nm : string) (cols : list Column) (ops : list Op),
    ~ In "_row_id" (map col_name cols) ->
    Forall op_wf ops ->
    index_sound (run_ops (Table_init nm cols) ops)
    /\ (all_returned (Table_init nm cols) ops ->
        index_complete (run_ops (Table_init nm cols) ops)).
Proof.
  intros nm cols ops Hno Hwf.
  pose proof (table_inv_Table_init nm cols Hno) as Hinv0.
  split.
  - apply inv_index_sound. apply table_inv_run_ops; assumption.
  - intros Hret. apply index_complete_run_ops; auto.
    intros r c ix v id [].
Qed.

(* ================================================================== *)
(** * A multi-column UPDATE that fails part-way *)

Lemma for_each_app X (body : X -> M unit) l1 l2 t :
  for_each (l1 ++ l2) body t = (for_each l1 body ;;; for_each l2 body) t.
Proof.
  revert t; induction l1 as [| x l1 IH]; intros t; simpl.
  - unfold bind, ret. reflexivity.
  - unfold bind. destruct (body x t) as [u [e | []]]; [reflexivity |].
    rewrite IH. reflexivity.
Qed.

(** What an item of an UPDATE that goes through does: the value of its
    column, the index of its column, and nothing else. *)
Lemma update_item_returned i rid c v t t' row :
  update_item i rid (c, v) t = (t', Returned tt) ->
  nth_error (rows t) i = Some row ->
  exists row' old,
    nth_error (rows t') i = Some row'
    /\ dict_get c row = Some old
    /\ (forall k, k <> c -> dict_get k row' = dict_get k row)
    /\ (forall k, k <> c -> dict_get k (indexes t') = dict_get k (indexes t))
    /\ ((py_eq old v = true /\ dict_get c row' = Some old)
        \/ (py_eq old v = false /\ dict_get c row' = Some v
            /\ forall ix, dict_get c (indexes t') = Some ix ->
                          In rid (Index_find ix v))).
Proof.
  rewrite update_item_eq. intros H Hi. rewrite Hi in H.
  destruct (dict_get c (columns t)) as [column |]; [| discriminate].
  destruct (dict_get c row) as [old |] eqn:Eold; [| discriminate].
  destruct (py_eq old v) eqn:E.
  - injection H as <-. exists row, old. repeat split; auto.
  - cbv zeta in H.
    destruct (snd (check_constraint column c v (after_index_remove c old rid t)))
      as [e | []]; [discriminate |].
    injection H as <-.
    exists (dict_set c v row), old.
    match goal with
    | |- context [after_index_add ?a ?b ?d ?u] =>
        destruct (after_index_add_frame a b d u) as (Hrows & _)
    end.
    rewrite Hrows. simpl.
    split; [eapply nth_error_list_update_same; eauto |].
    split; [reflexivity |].
    split; [intros k Hk; apply dict_get_set_other; assumption |].
    split.
    + intros k Hk. rewrite after_index_add_other by assumption. simpl.
      apply after_index_remove_other; assumption.
    + right. split; [first [reflexivity | assumption] |].
      split; [apply dict_get_set_same |].
      intros ix Hix.
      unfold after_index_add in Hix. simpl in Hix.
      destruct (dict_get c (indexes (after_index_remove c old rid t)))
        as [ix0 |] eqn:E0.
      * simpl in Hix. rewrite dict_get_set_same in Hix. injection Hix as <-.
        apply Index_find_add_same.
      * simpl in Hix. congruence.
Qed.

(** An item that raises has changed no row, and no index but that of its
    column. *)
Lemma update_item_raised i rid c v t t' e :
  update_item i rid (c, v) t = (t', Raised e) ->
  rows t' = rows t
  /\ forall k, k <> c -> dict_get k (indexes t') = dict_get k (indexes t).
Proof.
  rewrite update_item_eq. intros H.
  destruct (dict_get c (columns t)) as [column |];
    [| injection H as <- _; auto].
  destruct (nth_error (rows t) i) as [row |]; [| injection H as <- _; auto].
  destruct (dict_get c row) as [old |]; [| injection H as <- _; auto].
  destruct (py_eq old v); [discriminate |].
  cbv zeta in H.
  destruct (snd (check_constraint column c v (after_index_remove c old rid t)))
    as [e' | []]; [| discriminate].
  injection H as <- _.
  destruct (after_index_remove_frame c old rid t) as (Hrows & _).
  split; [assumption |].
  intros k Hk. apply after_index_remove_other; assumption.
Qed.

(** The items of an UPDATE that went through, on distinct columns: each
    column named holds its new value (or the equal value it had), is listed
    under it if it changed, and the other columns and indexes are as they
    were. *)
Lemma update_items_returned i rid items :
  NoDup (map fst items) ->
  forall t t' row,
    for_each items (update_item i rid) t = (t', Returned tt) ->
    nth_error (rows t) i = Some row ->
    exists row',
      nth_error (rows t') i = Some row'
      /\ (forall k, ~ In k (map fst items) ->
                    dict_get k row' = dict_get k row
                    /\ dict_get k (indexes t') = dict_get k (indexes t))
      /\ (forall c v, In (c, v) items ->
            exists old,
              dict_get c row = Some old
              /\ ((py_eq old v = true /\ dict_get c row' = Some old)
                  \/ (py_eq old v = false /\ dict_get c row' = Some v
                      /\ forall ix, dict_get c (indexes t') = Some ix ->
                                    In rid (Index_find ix v)))).
Proof.
  induction items as [| [c0 v0] items IH]; intros Hnd t t' row H Hi; simpl in H.
  - unfold ret in H. injection H as <-.
    exists row. split; [assumption |]. split; [auto | intros c v []].
  - simpl in Hnd. inversion Hnd as [| ? ? Hnot Hnd']; subst.
    apply bind_Returned_inv in H as ([] & t0 & E0 & H).
    destruct (@update_item_returned i rid c0 v0 t t0 row E0 Hi)
      as (row0 & old0 & Hi0 & Hold0 & Hrow0 & Hix0 & Hc0).
    destruct (IH Hnd' t0 t' row0 H Hi0) as (row' & Hi' & Hframe & Hitems).
    exists row'. split; [assumption |]. split.
    + intros k Hk. simpl in Hk.
      assert (k <> c0) as Hne by (intros ->; apply Hk; auto).
      assert (~ In k (map fst items)) as Hk' by (intros Hin; apply Hk; auto).
      destruct (Hframe k Hk') as [F1 F2].
      split; [rewrite F1; auto | rewrite F2; auto].
    + intros c v [[= <- <-] | Hin].
      * destruct (Hframe c0 Hnot) as [F1 F2].
        exists old0. split; [assumption |].
        rewrite F1, F2. exact Hc0.
      * assert (c <> c0) as Hne.
        { intros ->. apply Hnot. change c0 with (fst (c0, v)).
          apply in_map; assumption. }
        destruct (Hitems c v Hin) as (old & Hold & Hcase).
        exists old. split; [| exact Hcase].
        rewrite <- (Hrow0 c Hne). assumption.
Qed.

Lemma table_inv_update_items i rid items t :
  table_inv t -> nth_error (row_ids t) i = Some (Some rid) ->
  table_inv (fst (for_each items (update_item i rid) t))
  /\ nth_error (row_ids (fst (for_each items (update_item i rid) t))) i
     = Some (Some rid).
Proof.
  intros Hinv Hrid.
  apply (for_each_keeps
           (fun u => table_inv u /\ nth_error (row_ids u) i = Some (Some rid)));
    [| auto].
  intros kv u _ [Hu1 Hu2]. split.
  - apply table_inv_update_item; assumption.
  - destruct (update_item_row_ids i rid kv (inv_no_row_id_column Hu1)) as [-> _].
    assumption.
Qed.

(** C5.  An UPDATE matching the single row at position [i], with SET
    items [pre], then [(c, v)], then [post], all of them valid values:
    when the items of [pre] go through and the constraint check of
    [(c, v)] fails, [update_rows] stops with that error in the state the
    failing item left.  Nothing is rolled back: every earlier column whose
    value changed holds its new value in the row, and the index of that
    column lists the row under the new value and no longer under the
    old one. *)
Theorem update_stops_without_rollback :
  forall (t : Table) (conditions : option (pydict value)) (i : nat)
         (row : Row) (rid : value)
         (pre post : pydict value) (c : string) (v : value)
         (t1 t2 : Table) (e : exn),
    table_inv t ->
    find_row_positions t conditions = [i] ->
    nth_error (rows t) i = Some row ->
    dict_get "_row_id" row = Some rid ->
    dict_wf (pre ++ (c, v) :: post) ->
    for_each (pre ++ (c, v) :: post) validate_item t = (t, Returned tt) ->
    for_each pre (update_item i rid) t = (t1, Returned tt) ->
    update_item i rid (c, v) t1 = (t2, Raised e) ->
    update_rows conditions (pre ++ (c, v) :: post) t = (t2, Raised e)
    /\ forall c' v' old,
        In (c', v') pre -> dict_get c' row = Some old -> py_eq old v' = false ->
        (exists row2,
            nth_error (rows t2) i = Some row2 /\ dict_get c' row2 = Some v')
        /\ (forall ix2, dict_get c' (indexes t2) = Some ix2 ->
              In rid (Index_find ix2 v') /\ ~ In rid (Index_find ix2 old)).
Proof.
  intros t conditions i row rid pre post c v t1 t2 e
         Hinv Hpos Hi Hid Hwf Hval Hpre Hfail.
  split.
  - unfold update_rows. unfold bind at 1, get. rewrite Hpos.
    simpl for_each. unfold bind at 1. unfold bind at 1.
    unfold update_row.
    unfold bind at 1. rewrite row_at_eq, Hi.
    unfold bind at 1, subscript. rewrite Hid. unfold ret at 1.
    unfold bind at 1. rewrite Hval.
    rewrite for_each_app. unfold bind at 1. rewrite Hpre.
    simpl for_each. unfold bind at 1. rewrite Hfail. reflexivity.
  - intros c' v' old Hin Hold Hne.
    assert (NoDup (map fst pre) /\ ~ In c (map fst pre)) as [Hnd Hc].
    { unfold dict_wf, dict_keys in Hwf. rewrite map_app in Hwf. simpl in Hwf.
      split; [eapply NoDup_app_remove_r; eauto |].
      intros Hc. eapply NoDup_app_disjoint; [exact Hwf | exact Hc |].
      simpl; auto. }
    destruct (@update_items_returned i rid pre Hnd t t1 row Hpre Hi)
      as (row1 & Hi1 & _ & Hitems).
    destruct (Hitems c' v' Hin) as (old' & Hold' & [[E _] | (_ & Hrow1 & Hix1)]).
    { rewrite Hold in Hold'. injection Hold' as <-. congruence. }
    destruct (@update_item_raised i rid c v t1 t2 e Hfail) as (Hrows2 & Hix2).
    assert (c' <> c) as Hcc.
    { intros ->. apply Hc. change c with (fst (c, v')). apply in_map; assumption. }
    split.
    + exists row1. rewrite Hrows2. auto.
    + intros ix2 Hix. rewrite Hix2 in Hix by assumption.
      split; [apply Hix1; assumption |].
      intros Hlisted.
      (* the invariant in the state reached *)
      assert (nth_error (row_ids t) i = Some (Some rid)) as Hrid
          by (apply nth_error_row_ids; eauto).
      destruct (@table_inv_update_items i rid pre t Hinv Hrid) as [Hinv1 Hrid1].
      rewrite Hpre in Hinv1, Hrid1. simpl in Hinv1, Hrid1.
      apply Index_find_entry in Hlisted as (k & ids & Hk & Hx & Ek).
      destruct (inv_index_sound Hinv1 _ _ _ _ _ Hix Hk Hx)
        as (r & w & Hr & Hrid' & Hw & Ew).
      apply nth_error_row_ids in Hrid1 as (row1' & Hi1' & Hid1).
      assert (row1' = row1) as -> by congruence.
      assert (r = row1) as ->.
      { eapply row_by_id; eauto. eapply nth_error_In; eauto. }
      assert (w = v') as -> by congruence.
      assert (py_eq old v' = true) as Habs.
      { apply py_eq_sym. eapply py_eq_trans; eauto. }
      congruence.
Qed.

(* ================================================================== *)
(** * Uniqueness, along operations that return *)

Lemma Index_find_py_eq ix w v :
  py_eq w v = true -> Index_find ix w = Index_find ix v.
Proof.
  intros E. induction ix as [| [k ids] rest IH]; simpl; [reflexivity |].
  assert (py_eq k w = py_eq k v) as ->.
  { destruct (py_eq k v) eqn:Ev.
    - eapply py_eq_trans; [exact Ev | apply py_eq_sym; exact E].
    - destruct (py_eq k w) eqn:Ew; [| reflexivity].
      rewrite (py_eq_trans _ _ _ Ew E) in Ev. discriminate. }
  rewrite IH. reflexivity.
Qed.

Lemma py_eq_None_r v : v <> VNone -> py_eq v VNone = false.
Proof. destruct v; simpl; congruence. Qed.

Lemma value_is_None_dec v : {v = VNone} + {v <> VNone}.
Proof. destruct v; [left; reflexivity | right .. ]; discriminate. Qed.

(** A constraint check that passes on a non-null value has found the
    index of the column empty at that value. *)
Lemma check_constraint_returned column c v t :
  snd (check_constraint column c v t) = Returned tt ->
  constraint column <> NONE -> v <> VNone ->
  exists ix, dict_get c (indexes t) = Some ix /\ Index_find ix v = [].
Proof.
  unfold check_constraint, bind, get, subscript, ret, raise.
  intros H Hk Hv.
  assert (is_None v = false) as Hn by (destruct v; simpl; congruence).
  destruct (constraint column); [| | congruence]; rewrite Hn in H; simpl in H;
    (destruct (dict_get c (indexes t)) as [ix |]; [| discriminate]);
    (destruct (Index_find ix v) eqn:Ef; [eauto | discriminate]).
Qed.

(** The uniqueness argument shared by INSERT and UPDATE: a row listed
    under its non-null value cannot hold a value equal to one the index
    has no entry for. *)
Lemma listed_value_differs ix id w v :
  In id (Index_find ix w) -> Index_find ix v = [] -> py_eq w v = false.
Proof.
  intros Hin He. destruct (py_eq w v) eqn:E; [| reflexivity].
  rewrite (Index_find_py_eq ix _ _ E), He in Hin. destruct Hin.
Qed.

Lemma for_each_returned_each X (body : X -> M unit) l :
  (forall x u, fst (body x u) = u) ->
  forall t t', for_each l body t = (t', Returned tt) ->
               forall x, In x l -> body x t = (t, Returned tt).
Proof.
  intros Hro. induction l as [| y l IH]; intros t t' H x Hx; [destruct Hx |].
  simpl in H. apply bind_Returned_inv in H as ([] & u & E & H).
  assert (u = t) as -> by (rewrite <- (Hro y t), E; reflexivity).
  destruct Hx as [-> | Hx]; [exact E | eauto].
Qed.

(** An INSERT that returns has passed the constraint check of every value
    it was given. *)
Lemma insert_row_returned_checks values t t' n :
  insert_row values t = (t', Returned n) ->
  forall c v, In (c, v) values ->
    exists column, dict_get c (columns t) = Some column
                   /\ snd (check_constraint column c v t) = Returned tt.
Proof.
  intros H c v Hin. unfold insert_row in H.
  apply bind_Returned_inv in H as ([] & t1 & E1 & H).
  assert (t1 = t) as ->.
  { pose proof (for_each_readonly validate_item values
                  (fun x u _ => validate_item_readonly x u) t) as R.
    rewrite E1 in R; exact R. }
  apply bind_Returned_inv in H as ([] & t2 & E2 & _).
  pose proof (for_each_returned_each check_item values check_item_readonly
                _ E2 (c, v) Hin) as Hc.
  unfold check_item, bind, get, subscript in Hc. simpl in Hc.
  destruct (dict_get c (columns t)) as [column |]; [| discriminate].
  exists column. split; [reflexivity |].
  unfold ret in Hc.
  destruct (check_constraint column c v t) as [u [e | []]]; [discriminate |].
  reflexivity.
Qed.

(** An INSERT that returns keeps the constrained columns free of
    duplicates. *)
Lemma unique_values_insert_row values t t' n :
  table_inv t -> dict_wf values -> index_complete t -> unique_values t ->
  insert_row values t = (t', Returned n) -> unique_values t'.
Proof.
  intros Hinv Hwf Hc Hu Hins.
  pose proof (insert_row_returned_checks _ _ Hins) as Hchecks.
  destruct (insert_row_cases values t) as [[e E] | E]; rewrite E in Hins;
    [discriminate |].
  injection Hins as <- _.
  destruct (insert_commit_frame values t) as (Hrows & Hcols & _).
  intros c column r1 r2 v1 v2 Hcol Hk H1 H2 Hids Hv1 Hv2 Hnn.
  rewrite Hcols in Hcol. rewrite Hrows in H1, H2.
  assert (dict_get c (columns t) <> None) as Hcol' by congruence.
  (* what the check tells about the new row's value *)
  assert (forall v, dict_get c (new_row t values) = Some v -> v <> VNone ->
                    exists ix, dict_get c (indexes t) = Some ix
                               /\ Index_find ix v = []) as Hnew.
  { intros v Hv Hvn. rewrite new_row_column in Hv by assumption.
    injection Hv as Hv. unfold dict_get_or_None in Hv.
    destruct (dict_get c values) as [v' |] eqn:Ev; [| congruence]. subst v'.
    destruct (Hchecks c v (dict_get_In _ _ Ev)) as (column' & Hcol2 & Hchk).
    assert (column' = column) as -> by congruence.
    apply check_constraint_returned with (column := column); assumption. }
  (* what completeness tells about an old row's value *)
  assert (forall r w ix, In r (rows t) -> dict_get c r = Some w -> w <> VNone ->
                         dict_get c (indexes t) = Some ix ->
                         exists id, In id (Index_find ix w)) as Hold.
  { intros r w ix Hr Hw Hwn Hix.
    destruct (inv_ids_fresh Hinv _ Hr) as (m & Hm & _).
    exists (VInt m). eapply Hc; eauto. }
  apply in_app_or in H1 as [H1 | [<- | []]];
    apply in_app_or in H2 as [H2 | [<- | []]].
  - apply (Hu c column r1 r2 v1 v2); assumption.
  - destruct (value_is_None_dec v2) as [-> | Hv2n];
      [apply py_eq_None_r; assumption |].
    destruct (Hnew v2 Hv2 Hv2n) as (ix & Hix & He).
    destruct (Hold r1 v1 ix H1 Hv1 Hnn Hix) as (id & Hid).
    eapply listed_value_differs; eauto.
  - destruct (Hnew v1 Hv1 Hnn) as (ix & Hix & He).
    destruct (value_is_None_dec v2) as [-> | Hv2n];
      [apply py_eq_None_r; assumption |].
    destruct (Hold r2 v2 ix H2 Hv2 Hv2n Hix) as (id & Hid).
    apply py_eq_sym_false. eapply listed_value_differs; eauto.
  - congruence.
Qed.

(** An item of an UPDATE that goes through keeps the constrained columns
    free of duplicates. *)
Lemma unique_values_update_item i rid kv t t' :
  table_inv t -> index_complete t -> unique_values t ->
  nth_error (row_ids t) i = Some (Some rid) ->
  update_item i rid kv t = (t', Returned tt) ->
  unique_values t'.
Proof.
  intros Hinv Hc Hu Hrid. apply nth_error_row_ids in Hrid as (row0 & Hi0 & Hid0).
  destruct kv as [c v]. rewrite update_item_eq.
  destruct (dict_get c (columns t)) as [column |] eqn:Ecol; [| discriminate].
  rewrite Hi0.
  destruct (dict_get c row0) as [old |] eqn:Eold; [| discriminate].
  destruct (py_eq old v); [intros [= <-]; assumption |].
  cbv zeta.
  destruct (snd (check_constraint column c v (after_index_remove c old rid t)))
    as [e | []] eqn:Echk; [discriminate |].
  intros [= <-].
  assert (c <> "_row_id") as Hcne.
  { intros ->. pose proof (inv_no_row_id_column Hinv) as Hno.
    unfold no_row_id_column in Hno. congruence. }
  pose proof (nth_error_In _ _ Hi0) as Hrow0.
  intros c0 column0 r1 r2 v1 v2 Hcol Hk H1 H2 Hids Hv1 Hv2 Hnn.
  match type of H1 with
  | In r1 (rows (after_index_add ?a ?b ?d ?u)) =>
      destruct (after_index_add_frame a b d u) as (Hrows & Hcols & _)
  end.
  rewrite Hrows in H1, H2. rewrite Hcols in Hcol. simpl in H1, H2, Hcol.
  destruct (after_index_remove_frame c old rid t) as (_ & Hcols1 & _).
  rewrite Hcols1 in Hcol.
  apply In_nth_error in H1 as [j1 Hj1]. apply In_nth_error in H2 as [j2 Hj2].
  (* the value the new row is checked against, and what the check says *)
  assert (c0 = c -> v <> VNone ->
          forall j r w, j <> i -> nth_error (rows t) j = Some r ->
                        dict_get c r = Some w -> w <> VNone ->
                        py_eq w v = false) as Hcheck.
  { intros -> Hvn j r w Hji Hj Hw Hwn.
    assert (column0 = column) as -> by congruence.
    destruct (@check_constraint_returned column c v _ Echk Hk Hvn)
      as (ix1 & Hix1 & He).
    destruct (dict_get c (indexes t)) as [ix |] eqn:Hix.
    - rewrite (after_index_remove_same c old rid t Hix) in Hix1.
      injection Hix1 as <-.
      destruct (inv_ids_fresh Hinv _ (nth_error_In _ _ Hj)) as (m & Hm & _).
      apply listed_value_differs with (ix := Index_remove ix old rid) (id := VInt m);
        [| assumption].
      apply Index_find_remove_other.
      + apply (Hc r c ix w (VInt m)); auto. eapply nth_error_In; eauto.
      + apply (@ids_at_positions_differ t i j row0 r rid (VInt m)); auto.
    - unfold after_index_remove in Hix1. rewrite Hix in Hix1. congruence. }
  destruct (Nat.eq_dec i j1) as [<- | Hij1]; destruct (Nat.eq_dec i j2) as [<- | Hij2].
  - congruence.
  - rewrite (nth_error_list_update_same _ _ _ Hi0) in Hj1. injection Hj1 as <-.
    rewrite nth_error_list_update_other in Hj2 by assumption.
    rewrite dict_get_set_other in Hids by congruence.
    destruct (string_dec c0 c) as [-> | Hne].
    + rewrite dict_get_set_same in Hv1. injection Hv1 as <-.
      destruct (value_is_None_dec v2) as [-> | Hv2n];
        [apply py_eq_None_r; assumption |].
      apply py_eq_sym_false.
      apply (Hcheck eq_refl Hnn j2 r2 v2); auto.
    + rewrite dict_get_set_other in Hv1 by assumption.
      apply (Hu c0 column0 row0 r2 v1 v2); auto.
      eapply nth_error_In; eauto.
  - rewrite (nth_error_list_update_same _ _ _ Hi0) in Hj2. injection Hj2 as <-.
    rewrite nth_error_list_update_other in Hj1 by assumption.
    rewrite dict_get_set_other in Hids by congruence.
    destruct (string_dec c0 c) as [-> | Hne].
    + rewrite dict_get_set_same in Hv2. injection Hv2 as <-.
      destruct (value_is_None_dec v) as [-> | Hvn];
        [apply py_eq_None_r; assumption |].
      apply (Hcheck eq_refl Hvn j1 r1 v1); auto.
    + rewrite dict_get_set_other in Hv2 by assumption.
      apply (Hu c0 column0 r1 row0 v1 v2); auto.
      eapply nth_error_In; eauto.
  - rewrite nth_error_list_update_other in Hj1, Hj2 by assumption.
    apply (Hu c0 column0 r1 r2 v1 v2); auto; eapply nth_error_In; eauto.
Qed.

(** Along an operation that returns, the invariant, the completeness of
    the indexes and uniqueness go together. *)
Lemma sound_complete_unique_update_row updates i t t' :
  table_inv t -> index_complete t -> unique_values t ->
  update_row updates i t = (t', Returned tt) ->
  unique_values t'.
Proof.
  intros Hinv Hc Hu H. unfold update_row in H.
  apply bind_Returned_inv in H as (row & t1 & E1 & H).
  rewrite row_at_eq in E1.
  destruct (nth_error (rows t) i) as [row' |] eqn:Hi; [| discriminate].
  injection E1 as <- <-.
  apply bind_Returned_inv in H as (rid & t2 & E2 & H).
  unfold subscript in E2.
  destruct (dict_get "_row_id" row') as [rid' |] eqn:Hid; [| discriminate].
  injection E2 as <- <-.
  apply bind_Returned_inv in H as ([] & t3 & E3 & H).
  assert (t3 = t) as ->.
  { pose proof (for_each_readonly validate_item updates
                  (fun x u _ => validate_item_readonly x u) t) as R.
    rewrite E3 in R; exact R. }
  set (P := fun u : Table =>
              table_inv u /\ index_complete u /\ unique_values u
              /\ nth_error (row_ids u) i = Some (Some rid')).
  assert (P t') as (_ & _ & Hu' & _); [| exact Hu'].
  apply (for_each_returned_keeps P (update_item i rid') updates) with (t := t);
    [| | exact H].
  - intros kv u u' _ (Hu1 & Hu2 & Hu3 & Hu4) E.
    assert (u' = fst (update_item i rid' kv u)) as Eu by (rewrite E; reflexivity).
    split; [| split; [| split]].
    + rewrite Eu. apply table_inv_update_item; assumption.
    + apply (@index_complete_update_item i rid' kv u u' Hu1 Hu2 Hu4 E).
    + apply (@unique_values_update_item i rid' kv u u' Hu1 Hu2 Hu3 Hu4 E).
    + rewrite Eu.
      destruct (update_item_row_ids i rid' kv (inv_no_row_id_column Hu1)) as [-> _].
      assumption.
  - split; [assumption | split; [assumption | split; [assumption |]]].
    apply nth_error_row_ids. eauto.
Qed.

Lemma unique_values_update_rows conditions updates t t' n :
  table_inv t -> index_complete t -> unique_values t ->
  update_rows conditions updates t = (t', Returned n) -> unique_values t'.
Proof.
  intros Hinv Hc Hu H. unfold update_rows in H.
  apply bind_Returned_inv in H as (self & t1 & E1 & H).
  unfold get in E1. injection E1 as <- <-.
  apply bind_Returned_inv in H as ([] & t2 & E2 & H).
  unfold ret in H. injection H as <- _.
  set (P := fun u : Table => table_inv u /\ index_complete u /\ unique_values u).
  assert (P t2) as (_ & _ & Hu'); [| exact Hu'].
  apply (for_each_returned_keeps P (update_row updates)
           (find_row_positions t conditions)) with (t := t);
    [| split; [| split]; assumption | exact E2].
  intros i u u' _ (Hu1 & Hu2 & Hu3) E. split; [| split].
  - assert (u' = fst (update_row updates i u)) as -> by (rewrite E; reflexivity).
    apply table_inv_update_row; assumption.
  - apply (@index_complete_update_row updates i u u' Hu1 Hu2 E).
  - apply (@sound_complete_unique_update_row updates i u u' Hu1 Hu2 Hu3 E).
Qed.

Lemma unique_values_delete_row row t t' :
  unique_values t -> delete_row row t = (t', Returned tt) -> unique_values t'.
Proof.
  intros Hu H.
  assert (columns t' = columns t /\ forall r, In r (rows t') -> In r (rows t))
    as [Hcols Hsub].
  { unfold delete_row in H.
    apply bind_Returned_inv in H as (rid & t1 & E1 & H).
    unfold subscript in E1.
    destruct (dict_get "_row_id" row) as [rid' |]; [| discriminate].
    injection E1 as <- <-.
    apply bind_Returned_inv in H as (self & t1 & E1 & H).
    unfold get in E1. injection E1 as <- <-.
    apply bind_Returned_inv in H as ([] & t2 & E2 & H).
    rewrite purge_loop_eq in E2
      by (intros c Hk; apply In_keys_dict_get; assumption).
    injection E2 as <-.
    destruct (after_purge_frame row rid' (dict_keys (indexes t)) t) as (Hrows & Hcols & _).
    unfold bind, get in H.
    destruct (rows_remove row (rows (after_purge row rid' (dict_keys (indexes t)) t)))
      as [l |] eqn:Erm; [| discriminate].
    unfold put in H. injection H as <-. simpl.
    split; [assumption |].
    destruct (rows_remove_split _ _ Erm) as (l1 & r0 & l2 & Hl & -> & _).
    rewrite <- Hrows, Hl. intros r Hr.
    apply in_app_or in Hr as [Hr | Hr]; apply in_or_app; simpl; auto. }
  intros c column r1 r2 v1 v2 Hcol Hk H1 H2.
  rewrite Hcols in Hcol. apply (Hu c column r1 r2 v1 v2); auto.
Qed.

Lemma unique_values_delete_rows conditions t t' n :
  table_inv t -> index_complete t -> unique_values t ->
  delete_rows conditions t = (t', Returned n) -> unique_values t'.
Proof.
  intros Hinv Hc Hu H. unfold delete_rows in H.
  apply bind_Returned_inv in H as (self & t1 & E1 & H).
  unfold get in E1. injection E1 as <- <-.
  apply bind_Returned_inv in H as ([] & t2 & E2 & H).
  unfold ret in H. injection H as <- _.
  apply (for_each_returned_keeps unique_values delete_row (find_rows t conditions))
    with (t := t); [| assumption | exact E2].
  intros row u u' _ Hu' E. eapply unique_values_delete_row; eauto.
Qed.

Lemma unique_values_run_ops ops :
  forall t,
    table_inv t -> Forall op_wf ops -> index_complete t -> unique_values t ->
    all_returned t ops -> unique_values (run_ops t ops).
Proof.
  induction ops as [| o ops IH]; intros t Hinv Hwf Hc Hu Hret; simpl; [assumption |].
  inversion Hwf as [| ? ? Hwfo Hwfs]; subst. destruct Hret as [[n Hn] Hret].
  destruct (run_op o t) as [t' r] eqn:E. simpl in Hn, Hret |- *. subst r.
  assert (table_inv t') as Hinv'.
  { replace t' with (fst (run_op o t)) by (rewrite E; reflexivity).
    apply table_inv_run_op; assumption. }
  apply IH; auto.
  - apply (@index_complete_run_op o t t' n Hinv Hwfo Hc E).
  - destruct o as [values | conditions updates | conditions]; simpl in E.
    + apply (@unique_values_insert_row values t t' n Hinv Hwfo Hc Hu E).
    + apply (@unique_values_update_rows conditions updates t t' n Hinv Hc Hu E).
    + apply (@unique_values_delete_rows conditions t t' n Hinv Hc Hu E).
Qed.

(** X11. Uniqueness does hold as long as no operation raises: on a table
    created without a column called ['_row_id'], after any sequence of
    [insert_row], [update_rows] and [delete_rows] that all returned, no two
    live rows hold equal non-null values in a PrimaryKey or Unique column.
    Breaking uniqueness takes an operation that raised, as in the scenario
    below. *)
Theorem unique_values_when_nothing_raised :
  forall (nm : string) (cols : list Column) (ops : list Op),
    ~ In "_row_id" (map col_name cols) ->
    Forall op_wf ops ->
    all_returned (Table_init nm cols) ops ->
    unique_values (run_ops (Table_init nm cols) ops).
Proof.
  intros nm cols ops Hno Hwf Hret.
  apply unique_values_run_ops; auto.
  - apply table_inv_Table_init; assumption.
  - intros r c ix v id [].
  - intros c column r1 r2 v1 v2 _ _ [].
Qed.

(* ================================================================== *)
(** * Two scenarios on the users table *)

(** C4, where the code departs from it.  [insert_row] checks the primary
    key only among the columns it is given: leaving the key column out
    stores a live row whose primary key is null. *)
Theorem insert_without_primary_key_stores_null :
  dict_get "id" (columns users0)
  = Some (mkColumn "id" INT PRIMARY_KEY false)
  /\ snd (insert_row nobody users0) = Returned 1
  /\ rows (fst (insert_row nobody users0))
     = [[("_row_id", VInt 1); ("id", VNone); ("name", VStr "Nobody");
         ("email", VNone)]].
Proof. repeat split; vm_compute; reflexivity. Qed.

(** C3, where the code departs from it.  A refused UPDATE of a primary key
    has already taken the row out of the index; the key the row still holds
    can then be inserted a second time. *)
Theorem refused_update_then_insert_duplicates_key :
  map (dict_get "id") (rows users2) = [Some (VInt 1); Some (VInt 2)]
  /\ snd (update_rows (Some [("id", VInt 1)]) [("id", VInt 2)] users2)
     = Raised (PrimaryKeyViolation "id" (VInt 2))
  /\ rows users2_after_refused_update = rows users2
  /\ dict_get "id" (indexes users2_after_refused_update)
     = Some [(VInt 2, [VInt 2])]
  /\ snd (insert_row eve users2_after_refused_update) = Returned 3
  /\ map (dict_get "id") (rows (fst (insert_row eve users2_after_refused_update)))
     = [Some (VInt 1); Some (VInt 2); Some (VInt 1)].
Proof. repeat split; vm_compute; reflexivity. Qed.

(* ================================================================== *)
(** * SELECT * hands out the stored rows *)

(** [SELECT *] without WHERE and JOIN returns the row objects of the table
    as they are stored. *)
Lemma select_star_is_rows db command t :
  get_table db (table_name command) = Returned t ->
  truthy_name (join_table command) = false ->
  sel_columns command = ["*"] ->
  truthy_dict (where_conditions command) = false ->
  _execute_select db command
  = mkResult true (MsgSelected (List.length (rows t)) (table_name command))
      (Some (rows t)) 0.
Proof.
  intros Ht Hj Hs Hw. unfold _execute_select. rewrite Ht, Hj, Hs.
  unfold project. simpl is_star.
  assert (find_rows t (where_conditions command) = rows t) as ->.
  { unfold find_rows. destruct (where_conditions command) as [[| ? ?] |];
      try reflexivity. discriminate. }
  reflexivity.
Qed.

(** C1, where the code departs from it.  After a successful [insert_row],
    [SELECT *] without WHERE and JOIN returns the stored rows themselves.
    The result contains the row just built, which holds under every column
    of the schema the value inserted, or null when the column was left
    out; but that mapping also has the key ['_row_id'] in it.  The
    identifier is thus surfaced, against the claim; [_execute_join_select]
    is the path that leaves it out. *)
Theorem select_star_exposes_row_id :
  forall (db : Database) (command : SelectCommand) (t t' : Table)
         (values : pydict value) (rid : Z),
    insert_row values t = (t', Returned rid) ->
    get_table db (table_name command) = Returned t' ->
    truthy_name (join_table command) = false ->
    sel_columns command = ["*"] ->
    truthy_dict (where_conditions command) = false ->
    exists out,
      data (_execute_select db command) = Some out
      /\ List.length out = List.length (rows t')
      /\ In (new_row t values) out
      /\ (forall c, dict_get c (columns t) <> None ->
                    dict_get c (new_row t values)
                    = Some (dict_get_or_None c values))
      /\ dict_mem "_row_id" (new_row t values) = true.
Proof.
  intros db command t t' values rid Hins Ht Hj Hs Hw.
  rewrite (select_star_is_rows db command Ht Hj Hs Hw). simpl.
  exists (rows t'). split; [reflexivity |]. split; [reflexivity |].
  split; [| split; [intros c; apply new_row_column
                   | apply new_row_has_row_id_key]].
  destruct (insert_row_cases values t) as [[e E] | E]; rewrite E in Hins;
    [discriminate |].
  injection Hins as <- _.
  destruct (insert_commit_frame values t) as (-> & _).
  apply in_or_app; right; simpl; auto.
Qed.

(** [INSERT INTO users ...] for Alice, then [SELECT * FROM users]: the one
    mapping returned starts with the entry ['_row_id': 1]. *)
Lemma select_star_exposes_row_id_witness :
  data (_execute_select [("users", users1)] select_all_users)
  = Some [[("_row_id", VInt 1); ("id", VInt 1); ("name", VStr "Alice");
           ("email", VStr "a@x.com")]]
  /\ exists out,
      data (_execute_select [("users", users1)] select_all_users) = Some out
      /\ List.length out = List.length (rows users1)
      /\ In (new_row users0 alice) out
      /\ (forall c, dict_get c (columns users0) <> None ->
                    dict_get c (new_row users0 alice)
                    = Some (dict_get_or_None c alice))
      /\ dict_mem "_row_id" (new_row users0 alice) = true.
Proof.
  split; [vm_compute; reflexivity |].
  apply (@select_star_exposes_row_id [("users", users1)] select_all_users
           users0 users1 alice 1);
    vm_compute; reflexivity.
Defined.

(* ================================================================== *)
(** * The nested-loop join without conditions *)

Lemma optional_conditions_falsy ln rn l r conds :
  truthy_dict conds = false ->
  optional_conditions ln rn l r conds = Returned true.
Proof. unfold optional_conditions; intros ->; reflexivity. Qed.

(** A loop that appends one element for every item. *)
Lemma collect_singletons X Y (f : X -> outcome (list Y)) (g : X -> Y) l :
  (forall x, In x l -> f x = Returned [g x]) ->
  collect f l = Returned (map g l).
Proof.
  induction l as [| x l IH]; intros H; simpl; [reflexivity |].
  rewrite (H x (or_introl eq_refl)), IH by (intros; apply H; simpl; auto).
  reflexivity.
Qed.

(** Without conditions the two loops merge every pair, the right rows
    running faster. *)
Lemma nested_loop_join_unconditional command left_rows right_rows :
  truthy_dict (join_conditions command) = false ->
  truthy_dict (where_conditions command) = false ->
  nested_loop_join command left_rows right_rows
  = Returned (map (fun p => merge_rows (table_name command) (join_table command)
                              (fst p) (snd p))
                (list_prod left_rows right_rows)).
Proof.
  intros Hj Hw. unfold nested_loop_join.
  induction left_rows as [| l left_rows IH]; simpl; [reflexivity |].
  rewrite (@collect_singletons _ _ _
             (merge_rows (table_name command) (join_table command) l) right_rows).
  - rewrite IH, map_app, map_map. reflexivity.
  - intros r _. unfold join_pair.
    rewrite !optional_conditions_falsy by assumption. reflexivity.
Qed.

(* ================================================================== *)
(** * Strings: split, replace, strip *)

Section StringFacts.

Lemma prefix_string_drop a b :
  prefix a b = true -> (a ++ string_drop (String.length a) b)%string = b.
Proof.
  revert b; induction a as [| c a IH]; intros b H; simpl.
  - reflexivity.
  - destruct b as [| d b]; simpl in H; [discriminate |].
    destruct (ascii_dec c d) as [-> |]; [| discriminate].
    rewrite IH; auto.
Qed.

Lemma split_from_nonempty sep k s : split_from sep k s <> [].
Proof.
  revert k; induction s as [| c s IH]; intros k; cbn [split_from];
    [discriminate |].
  destruct k; [| apply IH].
  destruct (prefix sep (String c s)); [discriminate |].
  destruct (split_from sep 0 s); discriminate.
Qed.

Lemma join_with_cons_char sep c p ps :
  join_with sep (String c p :: ps) = String c (join_with sep (p :: ps)).
Proof. destruct ps; reflexivity. Qed.

Lemma join_with_cons sep p q qs :
  join_with sep (p :: q :: qs) = (p ++ sep ++ join_with sep (q :: qs))%string.
Proof. reflexivity. Qed.

(** Joining the pieces with the separator gives the text back. *)
Lemma join_split_from sep s :
  sep <> EmptyString ->
  forall k, join_with sep (split_from sep k s) = string_drop k s.
Proof.
  intros Hsep. induction s as [| c s IH]; intros k.
  - destruct k; reflexivity.
  - destruct k as [| k]; [| simpl; apply IH].
    cbn [split_from].
    destruct (prefix sep (String c s)) eqn:Hp.
    + pose proof (split_from_nonempty sep (String.length sep - 1) s) as Hne.
      destruct (split_from sep (String.length sep - 1) s) as [| q qs] eqn:Eq;
        [congruence |].
      rewrite join_with_cons, <- Eq, IH. simpl.
      apply prefix_string_drop in Hp.
      destruct sep as [| d sep']; [congruence |].
      simpl in Hp |- *. rewrite Nat.sub_0_r. exact Hp.
    + pose proof (split_from_nonempty sep 0 s) as Hne.
      specialize (IH 0%nat).
      destruct (split_from sep 0 s) as [| q qs]; [congruence |].
      rewrite join_with_cons_char, IH. reflexivity.
Qed.

Lemma join_split sep s :
  sep <> EmptyString -> join_with sep (split sep s) = s.
Proof. intros H. unfold split. rewrite join_split_from; auto. Qed.

(** [split('=', 1)] on a text containing the sign cuts at the first one. *)
Lemma split_once_first sep s :
  contains_char sep s = true ->
  exists l r, split_once sep s = [l; r]
              /\ s = (l ++ String sep r)%string
              /\ contains_char sep l = false.
Proof.
  induction s as [| c s IH]; simpl; [discriminate |].
  destruct (Ascii.eqb c sep) eqn:E; simpl.
  - intros _. apply Ascii.eqb_eq in E; subst c.
    exists EmptyString, s. auto.
  - intros H. destruct (IH H) as (l & r & -> & -> & Hl).
    exists (String c l), r. simpl. rewrite E. auto.
Qed.

Lemma prefix_two_quotes s :
  prefix "''" s =
  match s with
  | String c (String d _) => Ascii.eqb c quote && Ascii.eqb d quote
  | _ => false
  end.
Proof.
  unfold quote.
  destruct s as [| c [| d s]]; cbn [prefix]; [reflexivity | |].
  - destruct (ascii_dec "'" c); reflexivity.
  - destruct (ascii_dec "'" c) as [<- | Hc].
    + rewrite Ascii.eqb_refl. cbn [andb].
      destruct (ascii_dec "'" d) as [<- | Hd]; [destruct s; reflexivity |].
      symmetry; apply Ascii.eqb_neq; congruence.
    + assert (Ascii.eqb c "'" = false) as ->
        by (apply Ascii.eqb_neq; congruence).
      reflexivity.
Qed.

Lemma replace_from_cons old new c s :
  replace_from old new 0 (String c s) =
  if prefix old (String c s)
  then (new ++ replace_from old new (String.length old - 1) s)%string
  else String c (replace_from old new 0 s).
Proof. reflexivity. Qed.

Lemma unescape_cons2 c d s :
  unescape (String c (String d s)) =
  if Ascii.eqb c quote && Ascii.eqb d quote
  then String quote (unescape s)
  else String c (unescape (String d s)).
Proof. reflexivity. Qed.

(** [replace("''", "'")] is the unescaping of doubled quotes. *)
Lemma replace_quotes_unescape s : replace "''" "'" s = unescape s.
Proof.
  unfold replace.
  assert (forall n s, (String.length s <= n)%nat ->
                      replace_from "''" "'" 0 s = unescape s) as H.
  { clear s. induction n as [| n IH]; intros s Hlen.
    - destruct s; [reflexivity | simpl in Hlen; lia].
    - destruct s as [| c [| d s]]; [reflexivity | |].
      + rewrite replace_from_cons, prefix_two_quotes. reflexivity.
      + rewrite replace_from_cons, unescape_cons2, prefix_two_quotes.
        destruct (Ascii.eqb c quote && Ascii.eqb d quote).
        * change (String.length "''" - 1)%nat with 1%nat.
          change (replace_from "''" "'" 1 (String d s))
            with (replace_from "''" "'" 0 s).
          change ("'" ++ replace_from "''" "'" 0 s)%string
            with (String quote (replace_from "''" "'" 0 s)).
          f_equal. apply IH. simpl in Hlen. lia.
        * f_equal. apply IH. simpl in Hlen |- *. lia. }
  apply (H (String.length s)). lia.
Qed.

End StringFacts.

(* ================================================================== *)
(** * Value literals *)

Section ValueLiterals.

Lemma upper_char_is_N c : upper_char c = "N"%char <-> (c = "n" \/ c = "N")%char.
Proof.
  split.
  - destruct c as [[] [] [] [] [] [] [] []]; cbv; intros H;
      solve [discriminate H | auto].
  - intros [-> | ->]; reflexivity.
Qed.

Lemma upper_char_is_U c : upper_char c = "U"%char <-> (c = "u" \/ c = "U")%char.
Proof.
  split.
  - destruct c as [[] [] [] [] [] [] [] []]; cbv; intros H;
      solve [discriminate H | auto].
  - intros [-> | ->]; reflexivity.
Qed.

Lemma upper_char_is_L c : upper_char c = "L"%char <-> (c = "l" \/ c = "L")%char.
Proof.
  split.
  - destruct c as [[] [] [] [] [] [] [] []]; cbv; intros H;
      solve [discriminate H | auto].
  - intros [-> | ->]; reflexivity.
Qed.

(** [s.upper() == 'NULL'] holds exactly of the spellings of NULL. *)
Lemma upper_is_NULL s : String.eqb (upper s) "NULL" = true <-> null_spelling s.
Proof.
  rewrite String.eqb_eq. unfold null_spelling. split.
  - destruct s as [| a [| b [| c [| d [| e s]]]]]; simpl; try discriminate.
    intros [= Ha Hb Hc Hd].
    exists a, b, c, d. split; [reflexivity |].
    rewrite <- upper_char_is_N, <- upper_char_is_U, <- !upper_char_is_L. auto.
  - intros (a & b & c & d & -> & Ha & Hb & Hc & Hd). simpl.
    apply upper_char_is_N in Ha. apply upper_char_is_U in Hb.
    apply upper_char_is_L in Hc. apply upper_char_is_L in Hd.
    congruence.
Qed.

Lemma endswith_quote_app body : endswith_quote (body ++ "'") = true.
Proof.
  induction body as [| c body IH]; [reflexivity |].
  simpl. destruct (body ++ "'")%string eqn:E; [| exact IH].
  destruct body; discriminate.
Qed.

Lemma substring_0_app body rest :
  substring 0 (String.length body) (body ++ rest) = body.
Proof.
  induction body as [| c body IH]; simpl.
  - destruct rest; reflexivity.
  - rewrite IH; reflexivity.
Qed.

Lemma length_app_quote body :
  String.length (body ++ "'") = S (String.length body).
Proof. induction body; simpl; auto. Qed.

(** A text between two quotes has the quoted shape, and [s[1:-1]] is the
    text. *)
Lemma wrapped_is_quoted body :
  quoted (String quote (body ++ "'"))
  /\ slice_1_m1 (String quote (body ++ "'")) = body.
Proof.
  split; [split |].
  - reflexivity.
  - change (endswith_quote (String quote (body ++ "'")))
      with (match (body ++ "'")%string with
            | EmptyString => Ascii.eqb quote quote
            | String _ _ => endswith_quote (body ++ "'")
            end).
    destruct (body ++ "'")%string eqn:E; [destruct body; discriminate |].
    rewrite <- E. apply endswith_quote_app.
  - unfold slice_1_m1. simpl String.length. rewrite length_app_quote.
    replace (S (S (String.length body)) - 2)%nat with (String.length body) by lia.
    simpl. apply substring_0_app.
Qed.

(** The quoted shape is a text between two quotes, or the one quote
    alone. *)
Lemma quoted_shape s :
  quoted s <-> s = "'" \/ exists body, s = String quote (body ++ "'").
Proof.
  split.
  - intros [Hs He]. destruct s as [| c s]; [discriminate |].
    simpl in Hs. apply Ascii.eqb_eq in Hs; subst c.
    destruct s as [| d s]; [left; reflexivity | right].
    change (endswith_quote (String quote (String d s)))
      with (endswith_quote (String d s)) in He.
    clear - He. revert d He.
    induction s as [| e s IH]; intros d He.
    + simpl in He. apply Ascii.eqb_eq in He; subst d. exists EmptyString; reflexivity.
    + change (endswith_quote (String d (String e s)))
        with (endswith_quote (String e s)) in He.
      destruct (IH e He) as [body Hb].
      injection Hb as Hb. exists (String d body). simpl. rewrite <- Hb. reflexivity.
  - intros [-> | [body ->]]; [split; reflexivity | apply wrapped_is_quoted].
Qed.

Variable py_float : string -> option pyfloat.
Variable py_int : string -> option Z.

(** C7. How [_parse_value] reads a literal [s], [t] being [s] without its
    surrounding white space:
    - NULL in any letter case is the null value;
    - otherwise a text wrapped in single quotes is the enclosed text with
      each pair of quotes replaced by one quote (a quote standing alone
      opens and closes at once and encloses the empty text);
    - otherwise a literal with a '.' is what [float()] makes of it, one
      without is what [int()] makes of it, and when that fails the literal
      itself is returned as text. *)
Theorem parse_value_literal :
  forall s : string,
    let t := strip s in
    (null_spelling t -> _parse_value py_float py_int s = VNone)
    /\ (~ null_spelling t ->
        forall body, t = String quote (body ++ "'") ->
                     _parse_value py_float py_int s = VStr (unescape body))
    /\ (~ null_spelling t -> t = "'" ->
        _parse_value py_float py_int s = VStr "")
    /\ (~ null_spelling t -> ~ quoted t -> contains_char dot t = true ->
        _parse_value py_float py_int s =
        match py_float t with Some f => VFloat f | None => VStr t end)
    /\ (~ null_spelling t -> ~ quoted t -> contains_char dot t = false ->
        _parse_value py_float py_int s =
        match py_int t with Some z => VInt z | None => VStr t end).
Proof.
  intros s t. unfold _parse_value. fold t.
  destruct (String.eqb (upper t) "NULL") eqn:En.
  - apply upper_is_NULL in En.
    repeat split; intros; solve [reflexivity | contradiction].
  - assert (~ null_spelling t) as Hn
        by (rewrite <- upper_is_NULL; congruence).
    split; [intros; contradiction |].
    split; [| split; [| split]].
    + intros _ body ->.
      destruct (wrapped_is_quoted body) as [[-> ->] ->]. simpl andb.
      rewrite replace_quotes_unescape. reflexivity.
    + intros _ ->. reflexivity.
    + intros _ Hq Hdot.
      destruct (startswith_quote t && endswith_quote t) eqn:Eq.
      { exfalso. apply Hq. apply andb_true_iff in Eq. exact Eq. }
      rewrite Hdot. destruct (py_float t); reflexivity.
    + intros _ Hq Hdot.
      destruct (startswith_quote t && endswith_quote t) eqn:Eq.
      { exfalso. apply Hq. apply andb_true_iff in Eq. exact Eq. }
      rewrite Hdot. destruct (py_int t); reflexivity.
Qed.

End ValueLiterals.

(** The literal ['it''s'] with blanks around it. *)
Lemma parse_value_literal_witness :
  _parse_value sample_float sample_int " 'it''s' " = VStr "it's".
Proof.
  apply (proj1 (proj2 (parse_value_literal sample_float sample_int " 'it''s' "))
           (fun H : null_spelling (strip " 'it''s' ") =>
              match H with
              | ex_intro _ a (ex_intro _ b (ex_intro _ c (ex_intro _ d (conj E _)))) =>
                  eq_ind (strip " 'it''s' ")
                    (fun x => match x with
                              | String _ (String _ (String _ (String _ EmptyString))) => False
                              | _ => True
                              end) I _ E
              end)
           "it''s" eq_refl).
Defined.

(* ================================================================== *)
(** * Condition clauses *)

Section Conditions.
Variable py_float : string -> option pyfloat.
Variable py_int : string -> option Z.

Lemma parse_conjunct_ok conditions part :
  has_equals part ->
  exists kv, conjunct_item py_float py_int part kv
             /\ parse_conjunct py_float py_int conditions part
                = Returned (dict_set (fst kv) (snd kv) conditions).
Proof.
  unfold has_equals, parse_conjunct. intros H. rewrite H. simpl negb.
  destruct (split_once_first _ _ H) as (l & r & -> & Hp & Hl).
  exists (strip l, _parse_value py_float py_int (strip r)).
  split; [exists l, r; auto | reflexivity].
Qed.

Lemma parse_conjuncts_ok parts :
  Forall has_equals parts ->
  forall conditions,
  exists items,
    Forall2 (conjunct_item py_float py_int) parts items
    /\ parse_conjuncts py_float py_int conditions parts
       = Returned (fold_left (fun d kv => dict_set (fst kv) (snd kv) d)
                     items conditions).
Proof.
  induction 1 as [| part parts Hp _ IH]; intros conditions.
  - exists []; split; [constructor | reflexivity].
  - destruct (parse_conjunct_ok conditions Hp) as (kv & Hkv & E).
    destruct (IH (dict_set (fst kv) (snd kv) conditions)) as (items & Hitems & E').
    exists (kv :: items). split; [constructor; assumption |].
    simpl. rewrite E. exact E'.
Qed.

Lemma parse_conjuncts_fail good part rest :
  Forall has_equals good ->
  contains_char equals_sign part = false ->
  forall conditions,
    parse_conjuncts py_float py_int conditions (good ++ part :: rest)
    = Raised (InvalidCondition part).
Proof.
  induction 1 as [| g good Hg _ IH]; intros Hp conditions; simpl.
  - unfold parse_conjunct. rewrite Hp. reflexivity.
  - destruct (parse_conjunct_ok conditions Hg) as (kv & _ & ->).
    apply IH; assumption.
Qed.

(** C6, as amended.  [_parse_conditions] cuts the clause at every
    occurrence of the text AND (the pieces joined with AND give the clause
    back) and strips each piece.  A piece with no ['='] in it stops the
    parse with the invalid-condition error naming the first such piece.
    When every piece has at least one ['='], each is cut at its first
    ['='] into a key and a value literal (which may itself contain
    ['=']), and the result is the dictionary of the assignments
    key := parsed literal, in order. *)
Theorem parse_conditions_conjuncts :
  forall s : string,
    let raw := split "AND" s in
    let parts := map strip raw in
    join_with "AND" raw = s
    /\ (forall good part rest,
           parts = good ++ part :: rest ->
           Forall has_equals good ->
           contains_char equals_sign part = false ->
           _parse_conditions py_float py_int s = Raised (InvalidCondition part))
    /\ (Forall has_equals parts ->
        exists items,
          Forall2 (conjunct_item py_float py_int) parts items
          /\ _parse_conditions py_float py_int s = Returned (dict_of_items items)).
Proof.
  intros s raw parts. split; [| split].
  - apply join_split. discriminate.
  - intros good part rest E Hgood Hpart.
    unfold _parse_conditions. fold raw. fold parts. rewrite E.
    apply parse_conjuncts_fail; assumption.
  - intros Hall. unfold _parse_conditions, dict_of_items. fold raw. fold parts.
    apply parse_conjuncts_ok. assumption.
Qed.

End Conditions.

(** A clause of two conjuncts, and a clause whose second piece lacks its
    ['=']. *)
Lemma parse_conditions_conjuncts_witness :
  (exists items,
      Forall2 (conjunct_item sample_float sample_int)
        (map strip (split "AND" "id = 1 AND name = 'Bob'")) items
      /\ _parse_conditions sample_float sample_int "id = 1 AND name = 'Bob'"
         = Returned (dict_of_items items))
  /\ _parse_conditions sample_float sample_int "id = 1 AND name"
     = Raised (InvalidCondition "name").
Proof.
  split.
  - apply (proj2 (proj2 (parse_conditions_conjuncts sample_float sample_int
                           "id = 1 AND name = 'Bob'"))).
    vm_compute. repeat constructor.
  - apply (proj1 (proj2 (parse_conditions_conjuncts sample_float sample_int
                           "id = 1 AND name"))
             ["id = 1"] "name" []);
      [vm_compute; reflexivity | repeat constructor | vm_compute; reflexivity].
Defined.

(** C6, as stated, fails: the conjunct [a=b=c] has two ['='] signs and is
    accepted, the second sign ending up in the value. *)
Lemma parse_conditions_accepts_two_equals :
  map strip (split "AND" "a=b=c") = ["a=b=c"]
  /\ count_char equals_sign "a=b=c" = 2%nat
  /\ _parse_conditions sample_float sample_int "a=b=c"
     = Returned [("a", VStr "b=c")].
Proof. repeat split; vm_compute; reflexivity. Qed.

(* ================================================================== *)
(** * The theorems at work on the users table *)

Ltac distinct_keys :=
  unfold op_wf, dict_wf, dict_keys; simpl;
  repeat (apply NoDup_cons; [simpl; intuition discriminate |]); apply NoDup_nil.

Ltac ops_wf :=
  repeat (apply Forall_cons; [first [exact I | distinct_keys] |]);
  apply Forall_nil.

Lemma users_columns_plain : ~ In "_row_id" (map col_name users_columns).
Proof. simpl. intuition discriminate. Qed.

Lemma users2_inv : table_inv users2.
Proof.
  change users2 with (run_ops users0 [OpInsert alice; OpInsert bob]).
  apply table_inv_run_ops.
  - apply table_inv_Table_init. exact users_columns_plain.
  - ops_wf.
Qed.

(** Four statements that go through: the indexes are sound and
    complete. *)
Lemma index_entries_reflect_live_rows_witness :
  index_sound (run_ops (Table_init "users" users_columns) quiet_ops)
  /\ index_complete (run_ops (Table_init "users" users_columns) quiet_ops).
Proof.
  assert (Forall op_wf quiet_ops) as Hwf by (unfold quiet_ops; ops_wf).
  destruct (@index_entries_reflect_live_rows "users" users_columns quiet_ops
              users_columns_plain Hwf) as [Hs Hc].
  split; [exact Hs |].
  apply Hc. vm_compute. repeat split; eexists; reflexivity.
Defined.

(** C2, as stated, fails: Carol is inserted without an email, her row
    holds null there, and the index of email has no entry listing her. *)
Lemma omitted_column_is_not_indexed :
  snd (insert_row carol users0) = Returned 1
  /\ ~ index_lists_every_row (run_ops users0 [OpInsert carol]).
Proof.
  split; [vm_compute; reflexivity |].
  intros H.
  specialize (H [("_row_id", VInt 1); ("id", VInt 3); ("name", VStr "Carol");
                 ("email", VNone)]
                "email" [] VNone (VInt 1)).
  apply H; vm_compute; auto.
Qed.

(** The three-item UPDATE of Alice's row: the email is changed and
    re-indexed, then the id is refused, and nothing is undone. *)
Lemma update_stops_without_rollback_witness :
  update_rows where_id_1 (set_email ++ ("id", VInt 2) :: set_name) users2
  = (users2_id_refused, Raised (PrimaryKeyViolation "id" (VInt 2)))
  /\ forall c' v' old,
      In (c', v') set_email -> dict_get c' alice_row = Some old ->
      py_eq old v' = false ->
      (exists row2,
          nth_error (rows users2_id_refused) 0 = Some row2
          /\ dict_get c' row2 = Some v')
      /\ (forall ix2, dict_get c' (indexes users2_id_refused) = Some ix2 ->
            In (VInt 1) (Index_find ix2 v') /\ ~ In (VInt 1) (Index_find ix2 old)).
Proof.
  apply (@update_stops_without_rollback users2 where_id_1 0%nat alice_row (VInt 1)
           set_email set_name "id" (VInt 2) users2_email_set users2_id_refused
           (PrimaryKeyViolation "id" (VInt 2))).
  - exact users2_inv.
  - vm_compute; reflexivity.
  - vm_compute; reflexivity.
  - vm_compute; reflexivity.
  - distinct_keys.
  - vm_compute; reflexivity.
  - vm_compute; reflexivity.
  - vm_compute; reflexivity.
Defined.


(* ================================================================== *)
(** * Index: what find returns after add, and add undone by remove *)

(** X1. After [add(v, id)], [find(w)] returns what it returned before with
    [id] appended when [w == v], and what it returned before otherwise. *)
Theorem Index_find_after_add :
  forall (ix : Index) (v id w : value),
    Index_find (Index_add ix v id) w
    = if py_eq v w then Index_find ix w ++ [id] else Index_find ix w.
Proof.
  intros ix v id w.
  induction ix as [| [k ids] rest IH]; simpl.
  - destruct (py_eq v w); reflexivity.
  - destruct (py_eq k v) eqn:Ekv; simpl.
    + destruct (py_eq v w) eqn:Evw.
      * rewrite (py_eq_trans _ _ _ Ekv Evw). reflexivity.
      * destruct (py_eq k w) eqn:Ekw; [| reflexivity].
        rewrite (py_eq_trans _ _ _ (py_eq_sym _ _ Ekv) Ekw) in Evw. discriminate.
    + destruct (py_eq k w) eqn:Ekw; [| exact IH].
      destruct (py_eq v w) eqn:Evw; [| reflexivity].
      rewrite (py_eq_trans _ _ _ Ekw (py_eq_sym _ _ Evw)) in Ekv. discriminate.
Qed.

Lemma list_remove_appended id ids :
  list_contains id ids = false -> list_remove id (ids ++ [id]) = Some ids.
Proof.
  unfold list_contains.
  induction ids as [| e ids IH]; simpl.
  - rewrite py_eq_refl. reflexivity.
  - intros H. apply orb_false_iff in H as [-> H]. rewrite (IH H). reflexivity.
Qed.

Lemma list_contains_appended id ids : list_contains id (ids ++ [id]) = true.
Proof.
  unfold list_contains. rewrite existsb_app. simpl.
  rewrite py_eq_refl. rewrite orb_true_r. reflexivity.
Qed.

(** X2. [remove(v, id)] of a pair the index does not list leaves the index
    as it is; and in an index without empty entries, [add(v, id)]
    followed by [remove(v, id)] gives back the index, for an [id] that was
    not listed under [v]. *)
Theorem Index_remove_undoes_add :
  forall (ix : Index) (v id : value),
    list_contains id (Index_find ix v) = false ->
    Index_remove ix v id = ix
    /\ (Forall (fun entry => snd entry <> []) ix ->
        Index_remove (Index_add ix v id) v id = ix).
Proof.
  intros ix v id. induction ix as [| [k ids] rest IH]; simpl; intros Hnot.
  - split; [reflexivity |]. intros _.
    rewrite Index_remove_cons, py_eq_refl. simpl. rewrite py_eq_refl. reflexivity.
  - rewrite Index_remove_cons.
    destruct (py_eq k v) eqn:Ekv.
    + rewrite (list_contains_false_remove _ _ Hnot).
      split; [reflexivity |]. intros Hne.
      rewrite Index_remove_cons, Ekv, (list_remove_appended _ _ Hnot).
      inversion Hne as [| ? ? Hids _]; subst. simpl in Hids.
      destruct ids; [congruence | reflexivity].
    + destruct (IH Hnot) as [IH1 IH2].
      split; [rewrite IH1; reflexivity |]. intros Hne.
      rewrite Index_remove_cons, Ekv.
      inversion Hne; subst. rewrite IH2 by assumption. reflexivity.
Qed.

Lemma Index_remove_undoes_add_witness :
  list_contains (VInt 3) (Index_find [(VStr "a", [VInt 1])] (VStr "a")) = false
  /\ Index_remove [(VStr "a", [VInt 1])] (VStr "a") (VInt 3) = [(VStr "a", [VInt 1])]
  /\ Index_remove (Index_add [(VStr "a", [VInt 1])] (VStr "a") (VInt 3))
       (VStr "a") (VInt 3)
     = [(VStr "a", [VInt 1])].
Proof.
  assert (list_contains (VInt 3) (Index_find [(VStr "a", [VInt 1])] (VStr "a")) = false)
    as E by (vm_compute; reflexivity).
  destruct (@Index_remove_undoes_add [(VStr "a", [VInt 1])] (VStr "a") (VInt 3) E)
    as [H1 H2].
  split; [exact E |]. split; [exact H1 |].
  apply H2. constructor; [discriminate | constructor].
Defined.

(* ================================================================== *)
(** * A new table *)

Lemma fold_columns_other cols k :
  forall d0,
    ~ In k (map col_name cols) ->
    dict_get k (fold_left (fun d c => dict_set (col_name c) c d) cols d0)
    = dict_get k d0.
Proof.
  induction cols as [| a cols IH]; simpl; intros d0 Hk; [reflexivity |].
  rewrite IH by tauto. apply dict_get_set_other.
  intros E. apply Hk. left. symmetry. exact E.
Qed.

Lemma fold_columns_same cols col :
  NoDup (map col_name cols) -> In col cols ->
  forall d0,
    dict_get (col_name col)
      (fold_left (fun d c => dict_set (col_name c) c d) cols d0) = Some col.
Proof.
  induction cols as [| a cols IH]; simpl; intros Hnd Hin d0; [contradiction |].
  inversion Hnd as [| ? ? Hnot Hnd']; subst.
  destruct Hin as [-> | Hin]; [| auto].
  rewrite fold_columns_other by assumption. apply dict_get_set_same.
Qed.

Lemma fold_indexes_other cols k :
  forall d0,
    ~ In k (map col_name cols) ->
    dict_get k (fold_left (fun d c =>
                             match constraint c with
                             | PRIMARY_KEY | UNIQUE => dict_set (col_name c) ([] : Index) d
                             | NONE => d
                             end) cols d0)
    = dict_get k d0.
Proof.
  induction cols as [| a cols IH]; simpl; intros d0 Hk; [reflexivity |].
  rewrite IH by tauto.
  assert (k <> col_name a) as Hne by (intros E; apply Hk; left; symmetry; exact E).
  destruct (constraint a); try reflexivity; apply dict_get_set_other; exact Hne.
Qed.

Lemma fold_indexes_same cols col :
  NoDup (map col_name cols) -> In col cols ->
  forall d0,
    dict_get (col_name col)
      (fold_left (fun d c =>
                    match constraint c with
                    | PRIMARY_KEY | UNIQUE => dict_set (col_name c) ([] : Index) d
                    | NONE => d
                    end) cols d0)
    = match constraint col with
      | NONE => dict_get (col_name col) d0
      | _ => Some []
      end.
Proof.
  induction cols as [| a cols IH]; simpl; intros Hnd Hin d0; [contradiction |].
  inversion Hnd as [| ? ? Hnot Hnd']; subst.
  destruct Hin as [-> | Hin]; [| rewrite (IH Hnd' Hin)].
  - rewrite fold_indexes_other by assumption.
    destruct (constraint col); try reflexivity; apply dict_get_set_same.
  - assert (col_name col <> col_name a) as Hne.
    { intros E. apply Hnot. rewrite <- E. apply in_map; assumption. }
    destruct (constraint col); try reflexivity.
    destruct (constraint a); try reflexivity; apply dict_get_set_other; exact Hne.
Qed.

(** X3. A table made from columns with pairwise different names has no
    rows, hands out 1 as its first identifier, keeps every column under
    its name, and has an empty index for exactly the columns declared
    PRIMARY_KEY or UNIQUE. *)
Theorem Table_init_schema :
  forall (nm : string) (cols : list Column),
    NoDup (map col_name cols) ->
    let t := Table_init nm cols in
    name t = nm /\ rows t = [] /\ next_row_id t = 1
    /\ (forall col, In col cols -> dict_get (col_name col) (columns t) = Some col)
    /\ (forall c, dict_get c (columns t) <> None -> In c (map col_name cols))
    /\ (forall c, dict_get c (indexes t)
                  = match dict_get c (columns t) with
                    | Some col => match constraint col with
                                  | NONE => None
                                  | _ => Some []
                                  end
                    | None => None
                    end).
Proof.
  intros nm cols Hnd t. subst t. unfold Table_init; simpl.
  repeat split.
  - intros col Hin. apply fold_columns_same; assumption.
  - intros c Hc. apply Table_init_columns in Hc as [Hc | Hc]; [exact Hc |].
    simpl in Hc. congruence.
  - intros c. destruct (in_dec string_dec c (map col_name cols)) as [Hin | Hout].
    + apply in_map_iff in Hin as (col & <- & Hin).
      rewrite (@fold_columns_same cols col Hnd Hin), (@fold_indexes_same cols col Hnd Hin).
      destruct (constraint col); reflexivity.
    + rewrite fold_columns_other, fold_indexes_other by assumption. reflexivity.
Qed.

Lemma Table_init_schema_witness :
  NoDup (map col_name users_columns)
  /\ dict_get "email" (indexes (Table_init "users" users_columns)) = Some []
  /\ dict_get "name" (indexes (Table_init "users" users_columns)) = None.
Proof.
  assert (NoDup (map col_name users_columns)) as Hnd.
  { vm_compute. repeat (apply NoDup_cons; [simpl; intuition discriminate |]).
    apply NoDup_nil. }
  split; [exact Hnd |].
  destruct (Table_init_schema "users" users_columns Hnd) as (_ & _ & _ & _ & _ & H).
  split; [rewrite (H "email") | rewrite (H "name")]; vm_compute; reflexivity.
Defined.

(* ================================================================== *)
(** * Properties kept by the loops of UPDATE and DELETE *)

Section Keeps.
Variable P : Table -> Prop.

(** A property that every SET item keeps, for items that passed the
    validation of [update_rows], is kept by the update of one row. *)
Lemma update_row_keeps updates i t :
  P t ->
  (forall rid kv u,
      In kv updates -> validate_item kv t = (t, Returned tt) -> P u ->
      P (fst (update_item i rid kv u))) ->
  P (fst (update_row updates i t)).
Proof.
  intros Ht Hstep. unfold update_row.
  apply bind_keeps; [rewrite row_at_readonly; exact Ht |].
  intros row t1 E1. rewrite row_at_eq in E1.
  destruct (nth_error (rows t) i) as [row' |] eqn:Hi; [| discriminate].
  injection E1 as <- <-.
  apply bind_keeps; [rewrite subscript_readonly; exact Ht |].
  intros rid t2 E2. unfold subscript in E2.
  destruct (dict_get "_row_id" row') as [rid' |] eqn:Hid; [| discriminate].
  injection E2 as <- <-.
  apply bind_keeps.
  { rewrite for_each_readonly; [exact Ht |]. intros; apply validate_item_readonly. }
  intros [] t3 E3.
  assert (t3 = t) as ->.
  { pose proof (for_each_readonly validate_item updates
                  (fun x u _ => validate_item_readonly x u) t) as R.
    rewrite E3 in R; exact R. }
  apply for_each_keeps; [| exact Ht].
  intros kv u Hkv Hu. apply Hstep; auto.
  apply (for_each_returned_each validate_item updates validate_item_readonly
           _ E3 kv Hkv).
Qed.

Lemma update_rows_keeps conditions updates t :
  (forall i u, P u -> P (fst (update_row updates i u))) ->
  P t -> P (fst (update_rows conditions updates t)).
Proof.
  intros Hstep Ht. unfold update_rows.
  apply bind_keeps; [exact Ht |].
  intros self t1 E1. unfold get in E1. injection E1 as <- <-.
  apply bind_keeps.
  - apply for_each_keeps; [| exact Ht]. intros i u _ Hu. apply Hstep; assumption.
  - intros [] t2 E2. simpl.
    replace t2 with (fst (for_each (find_row_positions t conditions)
                            (update_row updates) t)) by (rewrite E2; reflexivity).
    apply for_each_keeps; [| exact Ht]. intros i u _ Hu. apply Hstep; assumption.
Qed.

Lemma delete_rows_keeps conditions t :
  (forall row u, P u -> P (fst (delete_row row u))) ->
  P t -> P (fst (delete_rows conditions t)).
Proof.
  intros Hstep Ht. unfold delete_rows.
  apply bind_keeps; [exact Ht |].
  intros self t1 E1. unfold get in E1. injection E1 as <- <-.
  apply bind_keeps.
  - apply for_each_keeps; [| exact Ht]. intros r u _ Hu. apply Hstep; assumption.
  - intros [] t2 E2. simpl.
    replace t2 with (fst (for_each (find_rows t conditions) delete_row t))
      by (rewrite E2; reflexivity).
    apply for_each_keeps; [| exact Ht]. intros r u _ Hu. apply Hstep; assumption.
Qed.
End Keeps.

(** [delete_row], step by step. *)
Lemma delete_row_eq row t :
  delete_row row t =
  match dict_get "_row_id" row with
  | None => (t, Raised (KeyError "_row_id"))
  | Some rid =>
      match rows_remove row (rows t) with
      | Some l =>
          (set_rows (after_purge row rid (dict_keys (indexes t)) t) l, Returned tt)
      | None => (after_purge row rid (dict_keys (indexes t)) t, Raised NotInList)
      end
  end.
Proof.
  unfold delete_row. unfold bind at 1, subscript at 1.
  destruct (dict_get "_row_id" row) as [rid |]; [| reflexivity].
  unfold ret at 1. unfold bind at 1, get. unfold bind at 1.
  rewrite purge_loop_eq by (intros c Hc; apply In_keys_dict_get; assumption).
  unfold bind, get.
  destruct (after_purge_frame row rid (dict_keys (indexes t)) t) as (Hrows & _).
  rewrite Hrows. destruct (rows_remove row (rows t)); reflexivity.
Qed.

(* ================================================================== *)
(** * What INSERT, UPDATE and DELETE leave alone *)

Lemma same_schema_refl t : same_schema t t.
Proof. unfold same_schema. repeat split; reflexivity. Qed.

Lemma same_schema_trans t u w :
  same_schema t u -> same_schema u w -> same_schema t w.
Proof.
  unfold same_schema. intros (A1 & A2 & A3 & A4) (B1 & B2 & B3 & B4).
  repeat split; try congruence. lia.
Qed.

Lemma after_index_add_keys c v rid t :
  dict_keys (indexes (after_index_add c v rid t)) = dict_keys (indexes t).
Proof.
  unfold after_index_add. destruct (dict_get c (indexes t)) eqn:E; [| reflexivity].
  simpl. apply dict_keys_set_present. congruence.
Qed.

Lemma after_index_remove_keys c v rid t :
  dict_keys (indexes (after_index_remove c v rid t)) = dict_keys (indexes t).
Proof.
  unfold after_index_remove. destruct (dict_get c (indexes t)) eqn:E; [| reflexivity].
  simpl. apply dict_keys_set_present. congruence.
Qed.

Lemma same_schema_after_index_add c v rid t :
  same_schema t (after_index_add c v rid t).
Proof.
  destruct (after_index_add_frame c v rid t) as (_ & Hc & Hn & Hm).
  unfold same_schema. rewrite after_index_add_keys, Hc, Hn, Hm.
  repeat split; reflexivity.
Qed.

Lemma same_schema_after_index_remove c v rid t :
  same_schema t (after_index_remove c v rid t).
Proof.
  destruct (after_index_remove_frame c v rid t) as (_ & Hc & Hn & Hm).
  unfold same_schema. rewrite after_index_remove_keys, Hc, Hn, Hm.
  repeat split; reflexivity.
Qed.

Lemma same_schema_set_rows t l : same_schema t (set_rows t l).
Proof. unfold same_schema; simpl. repeat split; reflexivity. Qed.

Lemma same_schema_after_purge row rid keys :
  forall t, same_schema t (after_purge row rid keys t).
Proof.
  unfold after_purge. induction keys as [| c keys IH]; simpl; intros t.
  - apply same_schema_refl.
  - eapply same_schema_trans; [| apply IH].
    destruct (dict_get c row); [apply same_schema_after_index_remove |].
    apply same_schema_refl.
Qed.

Lemma same_schema_fold_index_add rid values :
  forall u,
    same_schema u
      (fold_left (fun u kv => after_index_add (fst kv) (snd kv) rid u) values u).
Proof.
  induction values as [| kv values IH]; simpl; intros u.
  - apply same_schema_refl.
  - eapply same_schema_trans; [apply same_schema_after_index_add | apply IH].
Qed.

Lemma same_schema_insert_row values t :
  same_schema t (fst (insert_row values t)).
Proof.
  destruct (insert_row_cases values t) as [[e ->] | ->]; simpl.
  - apply same_schema_refl.
  - unfold insert_commit.
    eapply same_schema_trans; [| apply same_schema_fold_index_add].
    unfold same_schema; simpl. repeat split; try reflexivity. lia.
Qed.

Lemma same_schema_update_item i rid kv t :
  same_schema t (fst (update_item i rid kv t)).
Proof.
  destruct kv as [c v]. rewrite update_item_eq.
  destruct (dict_get c (columns t)) as [column |]; [| apply same_schema_refl].
  destruct (nth_error (rows t) i) as [row |]; [| apply same_schema_refl].
  destruct (dict_get c row) as [old |]; [| apply same_schema_refl].
  destruct (py_eq old v); [apply same_schema_refl |].
  cbv zeta.
  destruct (snd (check_constraint column c v (after_index_remove c old rid t)))
    as [e | []]; simpl fst.
  - apply same_schema_after_index_remove.
  - eapply same_schema_trans; [apply same_schema_after_index_remove |].
    eapply same_schema_trans; [apply same_schema_set_rows |].
    apply same_schema_after_index_add.
Qed.

Lemma same_schema_delete_row row t : same_schema t (fst (delete_row row t)).
Proof.
  rewrite delete_row_eq.
  destruct (dict_get "_row_id" row) as [rid |]; [| apply same_schema_refl].
  destruct (rows_remove row (rows t)); simpl.
  - eapply same_schema_trans; [apply same_schema_after_purge |].
    apply same_schema_set_rows.
  - apply same_schema_after_purge.
Qed.

Lemma same_schema_run_op o t : same_schema t (fst (run_op o t)).
Proof.
  destruct o as [values | conditions updates | conditions]; simpl.
  - apply same_schema_insert_row.
  - apply update_rows_keeps; [| apply same_schema_refl].
    intros i u Hu. apply update_row_keeps; [exact Hu |].
    intros rid kv w _ _ Hw.
    eapply same_schema_trans; [exact Hw | apply same_schema_update_item].
  - apply delete_rows_keeps; [| apply same_schema_refl].
    intros row u Hu.
    eapply same_schema_trans; [exact Hu | apply same_schema_delete_row].
Qed.

Lemma same_schema_run_ops ops : forall t, same_schema t (run_ops t ops).
Proof.
  induction ops as [| o ops IH]; simpl; intros t.
  - apply same_schema_refl.
  - eapply same_schema_trans; [apply same_schema_run_op | apply IH].
Qed.

(** X4. Whatever INSERT, UPDATE and DELETE operations are run on a table,
    and whether they return or raise, the columns, the name and the list
    of indexed columns stay what they were: [get_table_info] reports the
    same schema and the same indexes, with the current number of rows. *)
Theorem schema_is_never_changed :
  forall (t : Table) (ops : list Op),
    columns (run_ops t ops) = columns t
    /\ table_info (run_ops t ops)
       = mkTableInfo (info_name (table_info t)) (info_columns (table_info t))
           (List.length (rows (run_ops t ops))) (info_indexes (table_info t)).
Proof.
  intros t ops. destruct (same_schema_run_ops ops t) as (Hc & Hn & Hk & _).
  split; [exact Hc |].
  unfold table_info; simpl. rewrite Hc, Hn, Hk. reflexivity.
Qed.

(* ================================================================== *)
(** * Row identifiers are never handed out twice *)

(** X5. On a table that satisfies the invariant, the identifier a
    successful INSERT returns, after any operations, is not below the
    counter the table started with, is larger than the identifier of
    every row then live, and is the one the new row carries. *)
Theorem row_ids_are_never_reused :
  forall (t : Table) (ops : list Op) (values : pydict value) (t' : Table) (rid : Z),
    table_inv t -> Forall op_wf ops ->
    insert_row values (run_ops t ops) = (t', Returned rid) ->
    next_row_id t <= rid
    /\ (forall r, In r (rows (run_ops t ops)) ->
                  exists n, dict_get "_row_id" r = Some (VInt n) /\ n < rid)
    /\ dict_get "_row_id" (new_row (run_ops t ops) values) = Some (VInt rid)
    /\ rows t' = rows (run_ops t ops) ++ [new_row (run_ops t ops) values].
Proof.
  intros t ops values t' rid Hinv Hwf H.
  pose proof (table_inv_run_ops Hinv Hwf) as Hinv'.
  destruct (same_schema_run_ops ops t) as (_ & _ & _ & Hle).
  set (u := run_ops t ops) in *.
  destruct (insert_row_cases values u) as [[e E] | E]; rewrite E in H;
    [discriminate |].
  injection H as <- <-.
  repeat split.
  - exact Hle.
  - intros r Hr. exact (inv_ids_fresh Hinv' r Hr).
  - apply new_row_row_id. exact (inv_no_row_id_column Hinv').
  - destruct (insert_commit_frame values u) as (Hrows & _). exact Hrows.
Qed.

Lemma row_ids_are_never_reused_witness :
  table_inv users2
  /\ insert_row eve (run_ops users2 [OpDelete (Some [("id", VInt 1)])])
     = (fst (insert_row eve (run_ops users2 [OpDelete (Some [("id", VInt 1)])])),
        Returned 3)
  /\ (next_row_id users2 <= 3
      /\ (forall r, In r (rows (run_ops users2 [OpDelete (Some [("id", VInt 1)])])) ->
                    exists n, dict_get "_row_id" r = Some (VInt n) /\ n < 3)
      /\ dict_get "_row_id"
           (new_row (run_ops users2 [OpDelete (Some [("id", VInt 1)])]) eve)
         = Some (VInt 3)
      /\ rows (fst (insert_row eve (run_ops users2 [OpDelete (Some [("id", VInt 1)])])))
         = rows (run_ops users2 [OpDelete (Some [("id", VInt 1)])])
           ++ [new_row (run_ops users2 [OpDelete (Some [("id", VInt 1)])]) eve]).
Proof.
  split; [exact users2_inv |].
  split; [vm_compute; reflexivity |].
  apply (@row_ids_are_never_reused users2 [OpDelete (Some [("id", VInt 1)])] eve
           (fst (insert_row eve (run_ops users2 [OpDelete (Some [("id", VInt 1)])])))
           3 users2_inv).
  - repeat constructor.
  - vm_compute; reflexivity.
Defined.

(* ================================================================== *)
(** * The shape and the types of the stored rows *)

Lemma dict_keys_set_absent V k (v : V) d :
  dict_get k d = None -> dict_keys (dict_set k v d) = dict_keys d ++ [k].
Proof.
  induction d as [| [k0 v0] d IH]; simpl; intros H; [reflexivity |].
  destruct (String.eqb k0 k) eqn:E; [discriminate |].
  simpl. f_equal. apply IH; assumption.
Qed.

Lemma fold_dict_set_keys V W (g : string -> V) (cols : list (string * W)) :
  NoDup (map fst cols) ->
  forall row,
    (forall k, In k (map fst cols) -> dict_get k row = None) ->
    dict_keys (fold_left (fun row (kc : string * W) =>
                            dict_set (fst kc) (g (fst kc)) row) cols row)
    = dict_keys row ++ map fst cols.
Proof.
  induction cols as [| [k w] cols IH]; simpl; intros Hnd row Hfree.
  - rewrite app_nil_r; reflexivity.
  - inversion Hnd as [| ? ? Hnot Hnd']; subst. rewrite IH.
    + rewrite dict_keys_set_absent by auto. rewrite <- app_assoc. reflexivity.
    + assumption.
    + intros k' Hk'. rewrite dict_get_set_other; [auto |].
      intros ->; contradiction.
Qed.

Lemma new_row_keys t values :
  no_row_id_column t -> dict_wf (columns t) ->
  dict_keys (new_row t values) = "_row_id" :: dict_keys (columns t).
Proof.
  intros Hno Hwf. unfold new_row.
  rewrite (fold_dict_set_keys (fun c => dict_get_or_None c values)); [reflexivity | exact Hwf |].
  intros k Hk.
  change (dict_get k [("_row_id", VInt (next_row_id t))])
    with (if String.eqb "_row_id" k then Some (VInt (next_row_id t)) else None).
  destruct (String.eqb "_row_id" k) eqn:E; [| reflexivity].
  apply String.eqb_eq in E; subst k.
  apply In_keys_dict_get in Hk. contradiction.
Qed.

Lemma validate_item_returned c v t u :
  validate_item (c, v) t = (u, Returned tt) ->
  exists col, dict_get c (columns t) = Some col /\ validate_value col v = true.
Proof.
  unfold validate_item, bind, get; simpl.
  destruct (dict_get c (columns t)) as [col |]; [| discriminate].
  destruct (validate_value col v) eqn:E; [| discriminate].
  intros _. eauto.
Qed.

(** An INSERT that returns has validated every value it was given. *)
Lemma insert_row_returned_valid values t t' n :
  insert_row values t = (t', Returned n) ->
  forall c v, In (c, v) values ->
    exists col, dict_get c (columns t) = Some col /\ validate_value col v = true.
Proof.
  intros H c v Hin. unfold insert_row in H.
  apply bind_Returned_inv in H as ([] & t1 & E1 & _).
  apply (@validate_item_returned c v t t).
  apply (for_each_returned_each validate_item values validate_item_readonly
           _ E1 (c, v) Hin).
Qed.

Lemma new_row_conforms t values :
  no_row_id_column t -> dict_wf (columns t) ->
  (forall c v, In (c, v) values ->
     exists col, dict_get c (columns t) = Some col /\ validate_value col v = true) ->
  row_conforms (columns t) (new_row t values).
Proof.
  intros Hno Hwf Hvalid. split; [apply new_row_keys; assumption |].
  intros c col Hc. rewrite new_row_column by congruence.
  eexists; split; [reflexivity |].
  unfold fits, dict_get_or_None.
  destruct (dict_get c values) as [v |] eqn:Ev; [| left; reflexivity].
  apply dict_get_In in Ev. destruct (Hvalid c v Ev) as (col' & Hc' & Hv).
  right. congruence.
Qed.

Lemma row_conforms_set cols row c column v :
  row_conforms cols row -> dict_get c cols = Some column ->
  validate_value column v = true ->
  row_conforms cols (dict_set c v row).
Proof.
  intros [Hkeys Hvals] Hc Hv. split.
  - rewrite dict_keys_set_present; [exact Hkeys |].
    destruct (Hvals c column Hc) as (v0 & Hv0 & _). congruence.
  - intros c' col' Hc'. rewrite dict_get_set_cases.
    destruct (string_dec c' c) as [-> | Hne]; [| auto].
    exists v. split; [reflexivity |]. right. congruence.
Qed.

Lemma Forall_list_update X (Q : X -> Prop) i x l :
  Forall Q l -> Q x -> Forall Q (list_update i x l).
Proof.
  revert i; induction l as [| y l IH]; intros [| i] Hl Hx; simpl; auto;
    inversion Hl; subst; constructor; auto.
Qed.

Section Conforming.
Variable cols : pydict Column.
Hypothesis cols_plain : dict_get "_row_id" cols = None.
Hypothesis cols_wf : dict_wf cols.

Lemma conforming_update_item i rid c v col u :
  dict_get c cols = Some col -> validate_value col v = true ->
  conforming cols u -> conforming cols (fst (update_item i rid (c, v) u)).
Proof.
  intros Hc Hv [Hcols Hrows]. rewrite update_item_eq.
  destruct (dict_get c (columns u)) as [column |] eqn:Ecol; [| split; assumption].
  destruct (nth_error (rows u) i) as [row |] eqn:Hi; [| split; assumption].
  destruct (dict_get c row) as [old |]; [| split; assumption].
  destruct (py_eq old v); [split; assumption |].
  cbv zeta.
  destruct (after_index_remove_frame c old rid u) as (Hr1 & Hc1 & _).
  destruct (snd (check_constraint column c v (after_index_remove c old rid u)))
    as [e | []]; simpl fst.
  - split; [rewrite Hc1 | rewrite Hr1]; assumption.
  - match goal with |- conforming cols (after_index_add ?a ?b ?d ?w) =>
      destruct (after_index_add_frame a b d w) as (Hr2 & Hc2 & _)
    end.
    split; [rewrite Hc2; simpl; rewrite Hc1; assumption |].
    rewrite Hr2; simpl. apply Forall_list_update; [assumption |].
    apply row_conforms_set with (column := col); auto.
    rewrite Forall_forall in Hrows. apply Hrows. eapply nth_error_In; eassumption.
Qed.

Lemma conforming_delete_row row u :
  conforming cols u -> conforming cols (fst (delete_row row u)).
Proof.
  intros [Hcols Hrows]. rewrite delete_row_eq.
  destruct (dict_get "_row_id" row) as [rid |]; [| split; assumption].
  destruct (after_purge_frame row rid (dict_keys (indexes u)) u) as (Hr & Hc & _).
  destruct (rows_remove row (rows u)) as [l |] eqn:Erm.
  - split.
    + change (columns (after_purge row rid (dict_keys (indexes u)) u) = cols).
      rewrite Hc; assumption.
    + change (Forall (row_conforms cols) l).
      destruct (rows_remove_split _ _ Erm) as (l1 & r0 & l2 & Hl & -> & _).
      rewrite Hl in Hrows. apply Forall_app in Hrows as [H1 H2].
      inversion H2; subst. apply Forall_app; split; assumption.
  - split; unfold fst; [rewrite Hc | rewrite Hr]; assumption.
Qed.

Lemma conforming_insert_row values u :
  conforming cols u -> conforming cols (fst (insert_row values u)).
Proof.
  intros [Hcols Hrows].
  destruct (insert_row_cases values u) as [[e ->] | E]; [split; assumption |].
  rewrite E; simpl.
  destruct (insert_commit_frame values u) as (Hr & Hc & _).
  split; [rewrite Hc; assumption |].
  rewrite Hr. apply Forall_app; split; [assumption |].
  constructor; [| constructor].
  rewrite <- Hcols. apply new_row_conforms.
  - unfold no_row_id_column. rewrite Hcols. exact cols_plain.
  - rewrite Hcols. exact cols_wf.
  - exact (@insert_row_returned_valid values u _ _ E).
Qed.

Lemma conforming_run_op o u : conforming cols u -> conforming cols (fst (run_op o u)).
Proof.
  intros Hu. destruct o as [values | conditions updates | conditions]; simpl.
  - apply conforming_insert_row; assumption.
  - apply update_rows_keeps; [| exact Hu].
    intros i w Hw. apply update_row_keeps; [exact Hw |].
    intros rid [c v] w' _ Hvalid Hw'.
    apply validate_item_returned in Hvalid as (col & Hc & Hv).
    destruct Hw as [Hwc _]. rewrite Hwc in Hc.
    apply conforming_update_item with (col := col); assumption.
  - apply delete_rows_keeps; [| exact Hu].
    intros row w Hw. apply conforming_delete_row; assumption.
Qed.

Lemma conforming_run_ops ops :
  forall u, columns u = cols -> Forall (row_conforms cols) (rows u) ->
            Forall (row_conforms cols) (rows (run_ops u ops)).
Proof.
  induction ops as [| o ops IH]; simpl; intros u Hc Hr; [exact Hr |].
  destruct (conforming_run_op o (conj Hc Hr)) as [Hc' Hr'].
  apply IH; assumption.
Qed.
End Conforming.

Lemma fold_columns_wf cols :
  forall d0 : pydict Column,
    dict_wf d0 ->
    dict_wf (fold_left (fun d c => dict_set (col_name c) c d) cols d0).
Proof.
  induction cols as [| a cols IH]; simpl; intros d0 H; [exact H |].
  apply IH. apply dict_set_wf. exact H.
Qed.

(** X6. In a table made from columns none of which is named ['_row_id'],
    after any INSERT, UPDATE and DELETE operations (returned or raised),
    every stored row has the keys ['_row_id'] and then the columns of the
    schema, in schema order, and holds in each column [None] or a value
    [validate_value] accepts for that column. *)
Theorem stored_rows_conform_to_schema :
  forall (nm : string) (cols : list Column) (ops : list Op),
    ~ In "_row_id" (map col_name cols) ->
    Forall (row_conforms (columns (Table_init nm cols)))
           (rows (run_ops (Table_init nm cols) ops)).
Proof.
  intros nm cols ops Hplain.
  apply conforming_run_ops.
  - destruct (dict_get "_row_id" (columns (Table_init nm cols))) eqn:E;
      [| reflexivity].
    exfalso. apply Hplain.
    assert (dict_get "_row_id" (columns (Table_init nm cols)) <> None) as H
      by congruence.
    unfold Table_init in H; simpl in H.
    apply Table_init_columns in H as [H | H]; [exact H | simpl in H; congruence].
  - unfold Table_init; simpl. apply fold_columns_wf. constructor.
  - reflexivity.
  - constructor.
Qed.

Lemma stored_rows_conform_to_schema_witness :
  Forall (row_conforms (columns (Table_init "users" users_columns)))
         (rows (run_ops (Table_init "users" users_columns)
                  [OpInsert nobody; OpInsert alice;
                   OpUpdate None [("email", VStr "n@x.com")]])).
Proof.
  apply (@stored_rows_conform_to_schema "users" users_columns
           [OpInsert nobody; OpInsert alice;
            OpUpdate None [("email", VStr "n@x.com")]]).
  exact users_columns_plain.
Defined.

(* ================================================================== *)
(** * find_rows, and INSERT followed by a lookup *)

Lemma filter_all X (l : list X) : filter (fun _ => true) l = l.
Proof. induction l as [| x l IH]; simpl; congruence. Qed.

Lemma find_rows_filter t conditions :
  find_rows t conditions = filter (selected conditions) (rows t).
Proof.
  unfold find_rows, selected.
  destruct conditions as [[| kv conds] |]; try reflexivity;
    symmetry; apply filter_all.
Qed.

(** X7. After a successful [insert_row(values)] the table holds the rows
    it held, in their order, followed by the new row; the identifier
    returned is the former [next_row_id], which has advanced by one; and
    [find_rows(values)] returns what it returned before followed by the
    new row. *)
Theorem insert_then_find_rows :
  forall (values : pydict value) (t t' : Table) (rid : Z),
    dict_wf values ->
    insert_row values t = (t', Returned rid) ->
    rid = next_row_id t
    /\ next_row_id t' = rid + 1
    /\ rows t' = rows t ++ [new_row t values]
    /\ find_rows t' (Some values)
       = find_rows t (Some values) ++ [new_row t values].
Proof.
  intros values t t' rid Hwf H.
  pose proof (@insert_row_returned_valid values t t' rid H) as Hvalid.
  destruct (insert_row_cases values t) as [[e E] | E]; rewrite E in H;
    [discriminate |].
  injection H as <- <-.
  destruct (insert_commit_frame values t) as (Hr & _ & Hn & _).
  repeat split; try assumption.
  assert (selected (Some values) (new_row t values) = true) as Hsel.
  { unfold selected. destruct values as [| kv values'] eqn:Ev; [reflexivity |].
    rewrite <- Ev in *. unfold row_matches. apply forallb_forall. intros [c v] Hin.
    destruct (Hvalid c v Hin) as (col & Hc & _).
    cbn [fst snd]. rewrite new_row_column by congruence.
    unfold dict_get_or_None. rewrite (In_dict_get _ _ Hwf Hin). apply py_eq_refl. }
  rewrite !find_rows_filter, Hr, filter_app. f_equal.
  cbn [filter]. rewrite Hsel. reflexivity.
Qed.

Lemma insert_then_find_rows_witness :
  dict_wf bob
  /\ insert_row bob users1 = (users2, Returned 2)
  /\ (2 = next_row_id users1
      /\ next_row_id users2 = 2 + 1
      /\ rows users2 = rows users1 ++ [new_row users1 bob]
      /\ find_rows users2 (Some bob)
         = find_rows users1 (Some bob) ++ [new_row users1 bob]).
Proof.
  assert (dict_wf bob) as Hwf.
  { unfold dict_wf. vm_compute.
    repeat (apply NoDup_cons; [simpl; intuition discriminate |]). apply NoDup_nil. }
  split; [exact Hwf |].
  split; [vm_compute; reflexivity |].
  apply (@insert_then_find_rows bob users1 users2 2 Hwf).
  vm_compute; reflexivity.
Defined.

(* ================================================================== *)
(** * UPDATE: which rows change, and to what *)

Lemma positions_from_In p l :
  forall n j,
    In j (positions_from n p l) <->
    (n <= j)%nat /\ exists r, nth_error l (j - n) = Some r /\ p r = true.
Proof.
  induction l as [| r l IH]; intros n j; simpl.
  - split; [contradiction |].
    intros (_ & r & H & _). destruct (j - n)%nat; discriminate.
  - assert (In j (positions_from (S n) p l) <->
            (n <= j)%nat /\ j <> n
            /\ exists r0, nth_error (r :: l) (j - n) = Some r0 /\ p r0 = true)
      as Htail.
    { rewrite IH. split.
      - intros (Hle & r0 & Hn & Hp). split; [lia |]. split; [lia |].
        exists r0. split; [| exact Hp].
        replace (j - n)%nat with (S (j - S n)) by lia. exact Hn.
      - intros (Hle & Hne & r0 & Hn & Hp). split; [lia |].
        exists r0. split; [| exact Hp].
        replace (j - n)%nat with (S (j - S n)) in Hn by lia. exact Hn. }
    destruct (p r) eqn:Epr; simpl; rewrite Htail.
    + split.
      * intros [<- | (Hle & _ & H)]; [| auto].
        split; [lia |]. exists r. rewrite Nat.sub_diag. auto.
      * intros (Hle & H). destruct (Nat.eq_dec n j) as [-> | Hne]; [left; reflexivity |].
        right. repeat split; auto.
    + split.
      * intros (Hle & _ & H); auto.
      * intros (Hle & r0 & Hn & Hp). split; [exact Hle |]. split; [| eauto].
        intros ->. rewrite Nat.sub_diag in Hn. simpl in Hn. congruence.
Qed.

Lemma positions_from_NoDup p l : forall n, NoDup (positions_from n p l).
Proof.
  induction l as [| r l IH]; intros n; simpl; [constructor |].
  destruct (p r); [| apply IH].
  constructor; [| apply IH].
  intros H. apply positions_from_In in H as [H _]. lia.
Qed.

(** The positions [update_rows] works on are those of the rows
    [find_rows] selects, each once. *)
Lemma find_row_positions_spec t conditions :
  NoDup (find_row_positions t conditions)
  /\ forall j, In j (find_row_positions t conditions) <->
               exists r, nth_error (rows t) j = Some r
                         /\ selected conditions r = true.
Proof.
  assert (NoDup (seq 0 (List.length (rows t)))
          /\ forall j, In j (seq 0 (List.length (rows t))) <->
                       exists r, nth_error (rows t) j = Some r /\ true = true)
    as Hall.
  { split; [apply seq_NoDup |]. intros j. rewrite in_seq. split.
    - intros [_ H]. simpl in H. apply nth_error_Some in H.
      destruct (nth_error (rows t) j) as [r |]; [eauto | congruence].
    - intros (r & H & _). split; [lia |]. simpl. apply nth_error_Some. congruence. }
  assert (forall conds,
             NoDup (positions_from 0 (row_matches conds) (rows t))
             /\ forall j, In j (positions_from 0 (row_matches conds) (rows t)) <->
                          exists r, nth_error (rows t) j = Some r
                                    /\ row_matches conds r = true) as Hsome.
  { intros conds. split; [apply positions_from_NoDup |]. intros j.
    rewrite positions_from_In. rewrite Nat.sub_0_r. split.
    - intros [_ H]; exact H.
    - intros H; split; [lia | exact H]. }
  unfold find_row_positions, selected.
  destruct conditions as [[| kv conds] |]; auto.
Qed.

Lemma update_item_other_rows i rid kv t j :
  j <> i ->
  nth_error (rows (fst (update_item i rid kv t))) j = nth_error (rows t) j.
Proof.
  intros Hne. destruct kv as [c v]. rewrite update_item_eq.
  destruct (dict_get c (columns t)) as [column |]; [| reflexivity].
  destruct (nth_error (rows t) i) as [row |]; [| reflexivity].
  destruct (dict_get c row) as [old |]; [| reflexivity].
  destruct (py_eq old v); [reflexivity |].
  cbv zeta.
  destruct (after_index_remove_frame c old rid t) as (Hr1 & _).
  destruct (snd (check_constraint column c v (after_index_remove c old rid t)))
    as [e | []]; simpl fst.
  - rewrite Hr1; reflexivity.
  - match goal with |- context [after_index_add ?a ?b ?d ?w] =>
      destruct (after_index_add_frame a b d w) as (Hr2 & _)
    end.
    rewrite Hr2. simpl. apply nth_error_list_update_other. auto.
Qed.

(** One matched row, for an UPDATE that went through on it. *)
Lemma update_row_returned updates i t t' :
  dict_wf updates ->
  update_row updates i t = (t', Returned tt) ->
  exists row row',
    nth_error (rows t) i = Some row
    /\ nth_error (rows t') i = Some row'
    /\ updated updates row row'
    /\ forall j, j <> i -> nth_error (rows t') j = nth_error (rows t) j.
Proof.
  intros Hwf H. unfold update_row in H.
  apply bind_Returned_inv in H as (row & t1 & E1 & H).
  rewrite row_at_eq in E1.
  destruct (nth_error (rows t) i) as [row0 |] eqn:Hi; [| discriminate].
  injection E1 as <- <-.
  apply bind_Returned_inv in H as (rid & t2 & E2 & H).
  unfold subscript in E2.
  destruct (dict_get "_row_id" row0) as [rid0 |]; [| discriminate].
  injection E2 as <- <-.
  apply bind_Returned_inv in H as ([] & t3 & E3 & H).
  assert (t3 = t) as ->.
  { pose proof (for_each_readonly validate_item updates
                  (fun x u _ => validate_item_readonly x u) t) as R.
    rewrite E3 in R; exact R. }
  destruct (@update_items_returned i rid0 updates Hwf t t' row0 H Hi)
    as (row' & Hi' & Hframe & Hitems).
  exists row0, row'. repeat split; auto.
  - intros c v Hin. destruct (Hitems c v Hin) as (old & _ & [[E Hc] | (E & Hc & _)]).
    + exists old; auto.
    + exists v; split; [exact Hc | apply py_eq_refl].
  - intros k Hk. apply Hframe; assumption.
  - intros j Hj.
    replace t' with (fst (for_each updates (update_item i rid0) t))
      by (rewrite H; reflexivity).
    apply (for_each_keeps
             (fun u => nth_error (rows u) j = nth_error (rows t) j));
      [| reflexivity].
    intros kv u _ Hu. rewrite update_item_other_rows by assumption. exact Hu.
Qed.

(** The loop of [update_rows] over distinct positions. *)
Lemma update_rows_loop updates :
  dict_wf updates ->
  forall ps t t',
    NoDup ps ->
    for_each ps (update_row updates) t = (t', Returned tt) ->
    forall j,
      (In j ps ->
       exists row row',
         nth_error (rows t) j = Some row /\ nth_error (rows t') j = Some row'
         /\ updated updates row row')
      /\ (~ In j ps -> nth_error (rows t') j = nth_error (rows t) j).
Proof.
  intros Hwf. induction ps as [| i ps IH]; intros t t' Hnd H j; simpl in H.
  - unfold ret in H. injection H as <-. split; [intros [] | reflexivity].
  - inversion Hnd as [| ? ? Hnot Hnd']; subst.
    apply bind_Returned_inv in H as ([] & t1 & E1 & H).
    destruct (@update_row_returned updates i t t1 Hwf E1) as (row & row' & Hi & Hi' & Hup & Hother).
    destruct (IH t1 t' Hnd' H j) as [IHin IHout].
    split.
    + intros [<- | Hin].
      * exists row, row'. split; [assumption |]. split; [| assumption].
        rewrite (IHout Hnot). assumption.
      * destruct (IHin Hin) as (r & r' & Hr & Hr' & Hu).
        exists r, r'. split; [| auto].
        rewrite <- Hother; [assumption |]. intros ->; contradiction.
    + intros Hout. simpl in Hout.
      rewrite IHout by tauto. apply Hother. intros ->; tauto.
Qed.

Lemma Forall2_pointwise X (R : X -> X -> Prop) :
  forall l l',
    (forall j, match nth_error l j, nth_error l' j with
               | Some x, Some y => R x y
               | None, None => True
               | _, _ => False
               end) ->
    Forall2 R l l'.
Proof.
  induction l as [| x l IH]; intros [| y l'] H.
  - constructor.
  - specialize (H 0%nat); simpl in H; contradiction.
  - specialize (H 0%nat); simpl in H; contradiction.
  - constructor; [exact (H 0%nat) | apply IH; intros j; exact (H (S j))].
Qed.

Lemma length_find_row_positions t conditions :
  List.length (find_row_positions t conditions)
  = List.length (find_rows t conditions).
Proof.
  pose proof (f_equal (@List.length _) (find_row_positions_rows t conditions)) as H.
  rewrite !length_map in H. exact H.
Qed.

(** X8. An [update_rows] that returns has returned the number of rows
    [find_rows] selects, has left every other row as it was, and in each
    selected row has left every key outside the SET clause as it was and
    every column of the SET clause with a value [==] to the new one.  The
    rows keep their places. *)
Theorem update_rows_sets_selected_rows :
  forall (conditions : option (pydict value)) (updates : pydict value)
         (t t' : Table) (n : Z),
    dict_wf updates ->
    update_rows conditions updates t = (t', Returned n) ->
    n = Z.of_nat (List.length (find_rows t conditions))
    /\ Forall2 (fun r r' => if selected conditions r
                            then updated updates r r'
                            else r' = r)
               (rows t) (rows t').
Proof.
  intros conditions updates t t' n Hwf H. unfold update_rows in H.
  apply bind_Returned_inv in H as (self & t0 & E0 & H).
  unfold get in E0. injection E0 as <- <-.
  apply bind_Returned_inv in H as ([] & t1 & E1 & H).
  unfold ret in H. injection H as <- <-.
  split; [rewrite length_find_row_positions; reflexivity |].
  destruct (find_row_positions_spec t conditions) as [Hnd Hspec].
  apply Forall2_pointwise. intros j.
  destruct (@update_rows_loop updates Hwf _ t t1 Hnd E1 j) as [Hin Hout].
  destruct (nth_error (rows t) j) as [r |] eqn:Hj.
  - destruct (selected conditions r) eqn:Hsel.
    + destruct Hin as (row & row' & Hr & Hr' & Hu).
      { apply Hspec. eauto. }
      injection Hr as <-. rewrite Hr'. exact Hu.
    + rewrite Hout; [reflexivity |].
      intros Hc. apply Hspec in Hc as (r0 & Hr0 & Hs). congruence.
  - rewrite Hout; [exact I |].
    intros Hc. apply Hspec in Hc as (r0 & Hr0 & _). congruence.
Qed.

Lemma update_rows_sets_selected_rows_witness :
  dict_wf [("name", VStr "Al")]
  /\ update_rows (Some [("id", VInt 1)]) [("name", VStr "Al")] users2
     = (fst (update_rows (Some [("id", VInt 1)]) [("name", VStr "Al")] users2),
        Returned 1)
  /\ (1 = Z.of_nat (List.length (find_rows users2 (Some [("id", VInt 1)])))
      /\ Forall2 (fun r r' => if selected (Some [("id", VInt 1)]) r
                              then updated [("name", VStr "Al")] r r'
                              else r' = r)
                 (rows users2)
                 (rows (fst (update_rows (Some [("id", VInt 1)])
                               [("name", VStr "Al")] users2)))).
Proof.
  assert (dict_wf [("name", VStr "Al")]) as Hwf.
  { unfold dict_wf. simpl. apply NoDup_cons; [simpl; tauto | apply NoDup_nil]. }
  split; [exact Hwf |].
  split; [vm_compute; reflexivity |].
  apply (@update_rows_sets_selected_rows (Some [("id", VInt 1)])
           [("name", VStr "Al")] users2 _ 1 Hwf).
  vm_compute; reflexivity.
Defined.

(** X9. When no row is selected, [update_rows] and [delete_rows] return 0
    and leave the table as it is; the SET items are not looked at, so that
    an unknown column or a value of the wrong type goes unnoticed. *)
Theorem no_selected_row_no_effect :
  forall (conditions : option (pydict value)) (updates : pydict value) (t : Table),
    find_rows t conditions = [] ->
    update_rows conditions updates t = (t, Returned 0)
    /\ delete_rows conditions t = (t, Returned 0).
Proof.
  intros conditions updates t Hnone.
  assert (find_row_positions t conditions = []) as Hpos.
  { apply length_zero_iff_nil. rewrite length_find_row_positions, Hnone. reflexivity. }
  unfold update_rows, delete_rows, bind, get. rewrite Hpos, Hnone. split; reflexivity.
Qed.

Lemma no_selected_row_no_effect_witness :
  find_rows users2 (Some [("id", VInt 9)]) = []
  /\ update_rows (Some [("id", VInt 9)]) [("nosuch", VStr "x"); ("id", VStr "one")]
       users2 = (users2, Returned 0)
  /\ delete_rows (Some [("id", VInt 9)]) users2 = (users2, Returned 0).
Proof.
  split; [vm_compute; reflexivity |].
  apply (@no_selected_row_no_effect (Some [("id", VInt 9)])
           [("nosuch", VStr "x"); ("id", VStr "one")] users2).
  vm_compute; reflexivity.
Defined.

(* ================================================================== *)
(** * DELETE removes the selected rows, and only them *)

Lemma dict_eq_refl r : dict_wf r -> dict_eq r r = true.
Proof.
  intros Hwf. unfold dict_eq. rewrite Nat.eqb_refl. simpl.
  apply forallb_forall. intros [k v] Hin. cbn [fst snd].
  rewrite (In_dict_get _ _ Hwf Hin). apply py_eq_refl.
Qed.

Lemma rows_remove_here kept r l' :
  (forall r0, In r0 kept -> dict_eq r0 r = false) -> dict_eq r r = true ->
  rows_remove r (kept ++ r :: l') = Some (kept ++ l').
Proof.
  intros Hkept Hr. induction kept as [| r0 kept IH]; simpl.
  - rewrite Hr; reflexivity.
  - rewrite (Hkept r0) by (simpl; auto).
    rewrite IH; [reflexivity |]. intros r1 H1. apply Hkept; simpl; auto.
Qed.

(** Two rows of a table that are [==] are the same row. *)
Lemma dict_eq_same_row t r0 r :
  table_inv t -> In r0 (rows t) -> In r (rows t) ->
  dict_eq r0 r = true -> r0 = r.
Proof.
  intros Hinv H0 H Heq.
  destruct (inv_ids_fresh Hinv _ H0) as (m & Hm & _).
  destruct (inv_ids_fresh Hinv _ H) as (n & Hn & _).
  destruct (@dict_eq_get r0 r _ _ Heq Hm) as (w & Hw & E).
  rewrite Hn in Hw. injection Hw as <-. apply py_eq_VInt in E.
  apply (@row_by_id t r0 r (VInt m) Hinv H0 H Hm). congruence.
Qed.

Lemma delete_loop p :
  forall l kept u,
    table_inv u -> Forall (@dict_wf value) (rows u) -> rows u = kept ++ l ->
    exists u',
      for_each (filter p l) delete_row u = (u', Returned tt)
      /\ rows u' = kept ++ filter (fun r => negb (p r)) l.
Proof.
  induction l as [| r l IH]; intros kept u Hinv Hwf Hrows; simpl.
  - exists u. split; [reflexivity | exact Hrows].
  - destruct (p r) eqn:Epr; simpl.
    + assert (In r (rows u)) as Hr by (rewrite Hrows; apply in_or_app; simpl; auto).
      destruct (inv_ids_fresh Hinv _ Hr) as (n & Hn & _).
      assert (rows_remove r (rows u) = Some (kept ++ l)) as Hrm.
      { rewrite Hrows. apply rows_remove_here.
        - intros r0 H0. destruct (dict_eq r0 r) eqn:E; [| reflexivity]. exfalso.
          assert (In r0 (rows u)) as H0' by (rewrite Hrows; apply in_or_app; auto).
          pose proof (@dict_eq_same_row u r0 r Hinv H0' Hr E) as ->.
          pose proof (inv_ids_distinct Hinv) as Hnd.
          unfold row_ids in Hnd. rewrite Hrows, map_app in Hnd. simpl in Hnd.
          apply (NoDup_app_disjoint _ _ (dict_get "_row_id" r) Hnd).
          + apply in_map; assumption.
          + simpl; auto.
        - apply dict_eq_refl. rewrite Forall_forall in Hwf. auto. }
      pose proof (delete_row_eq r u) as E. rewrite Hn, Hrm in E.
      rewrite (bind_Returned _ _ _ E).
      apply IH.
      * pose proof (@table_inv_delete_row r u Hinv (ex_intro _ n Hn)) as H.
        rewrite E in H. exact H.
      * simpl. rewrite Hrows in Hwf. apply Forall_app in Hwf as [H1 H2].
        inversion H2; subst. apply Forall_app; split; assumption.
      * reflexivity.
    + destruct (IH (kept ++ [r]) u Hinv Hwf) as (u' & E & Hu').
      { rewrite <- app_assoc. exact Hrows. }
      exists u'. split; [exact E |]. rewrite Hu', <- app_assoc. reflexivity.
Qed.

Lemma filter_filter_neg X (p : X -> bool) l :
  filter p (filter (fun x => negb (p x)) l) = [].
Proof.
  induction l as [| x l IH]; simpl; [reflexivity |].
  destruct (p x) eqn:E; simpl; [exact IH |]. rewrite E. exact IH.
Qed.

Lemma delete_rows_spec conditions t :
  table_inv t -> Forall (@dict_wf value) (rows t) ->
  exists t',
    delete_rows conditions t
    = (t', Returned (Z.of_nat (List.length (find_rows t conditions))))
    /\ rows t' = filter (fun r => negb (selected conditions r)) (rows t)
    /\ find_rows t' conditions = [].
Proof.
  intros Hinv Hwf.
  destruct (@delete_loop (selected conditions) (rows t) [] t Hinv Hwf eq_refl)
    as (t' & E & Hrows).
  exists t'. rewrite <- find_rows_filter in E.
  split; [| split].
  - unfold delete_rows, bind, get. rewrite E. reflexivity.
  - exact Hrows.
  - rewrite find_rows_filter, Hrows. apply filter_filter_neg.
Qed.

(** X10. On a table that satisfies the invariant, [delete_rows] returns
    the number of rows [find_rows] selects, and leaves exactly the rows
    that were not selected, in their order; on the table it leaves,
    [find_rows] with the same conditions selects nothing. *)
Theorem delete_rows_removes_selected_rows :
  forall (conditions : option (pydict value)) (t : Table),
    table_inv t -> Forall (@dict_wf value) (rows t) ->
    exists t',
      delete_rows conditions t
      = (t', Returned (Z.of_nat (List.length (find_rows t conditions))))
      /\ rows t' = filter (fun r => negb (selected conditions r)) (rows t)
      /\ find_rows t' conditions = [].
Proof. intros conditions t. apply delete_rows_spec. Qed.

Lemma users2_rows_wf : Forall (@dict_wf value) (rows users2).
Proof.
  unfold dict_wf. vm_compute.
  repeat (apply Forall_cons;
          [repeat (apply NoDup_cons; [simpl; intuition discriminate |]);
           apply NoDup_nil |]).
  apply Forall_nil.
Qed.

Lemma delete_rows_removes_selected_rows_witness :
  exists t',
    delete_rows (Some [("name", VStr "Bob")]) users2
    = (t', Returned (Z.of_nat (List.length
                                 (find_rows users2 (Some [("name", VStr "Bob")])))))
    /\ rows t' = filter (fun r => negb (selected (Some [("name", VStr "Bob")]) r))
                        (rows users2)
    /\ find_rows t' (Some [("name", VStr "Bob")]) = [].
Proof.
  apply (@delete_rows_removes_selected_rows (Some [("name", VStr "Bob")]) users2).
  - exact users2_inv.
  - exact users2_rows_wf.
Defined.

(* ================================================================== *)
(** * Uniqueness at work: a key selects at most one row *)

Lemma quiet_ops_all_returned :
  all_returned (Table_init "users" users_columns) quiet_ops.
Proof. vm_compute. repeat split; eexists; reflexivity. Qed.

Lemma unique_values_when_nothing_raised_witness :
  all_returned (Table_init "users" users_columns) quiet_ops
  /\ unique_values (run_ops (Table_init "users" users_columns) quiet_ops).
Proof.
  split; [exact quiet_ops_all_returned |].
  apply (@unique_values_when_nothing_raised "users" users_columns quiet_ops).
  - exact users_columns_plain.
  - unfold quiet_ops; ops_wf.
  - exact quiet_ops_all_returned.
Defined.

Lemma at_most_one X (l : list X) :
  NoDup l -> (forall a b, In a l -> In b l -> a = b) -> (List.length l <= 1)%nat.
Proof.
  intros Hnd Hsame. destruct l as [| a [| b l]]; simpl; try lia.
  exfalso. inversion Hnd as [| ? ? Hnot _]; subst. apply Hnot.
  rewrite (Hsame a b) by (simpl; auto). simpl; auto.
Qed.

Lemma py_eq_not_None a b : py_eq a b = true -> b <> VNone -> a <> VNone.
Proof. intros H Hb ->. destruct b; simpl in H; congruence. Qed.

(** X12. In a table made from columns none of which is named ['_row_id'],
    after operations none of which raised, [find_rows] with a single
    condition [c == v], on a column [c] declared PRIMARY_KEY or UNIQUE and
    a value [v] other than [None], returns at most one row. *)
Theorem key_lookup_returns_at_most_one_row :
  forall (nm : string) (cols : list Column) (ops : list Op)
         (c : string) (column : Column) (v : value),
    ~ In "_row_id" (map col_name cols) ->
    Forall op_wf ops ->
    all_returned (Table_init nm cols) ops ->
    dict_get c (columns (run_ops (Table_init nm cols) ops)) = Some column ->
    constraint column <> NONE ->
    v <> VNone ->
    (List.length (find_rows (run_ops (Table_init nm cols) ops) (Some [(c, v)])) <= 1)%nat.
Proof.
  intros nm cols ops c column v Hplain Hwf Hret Hc Hcon Hv.
  pose proof (@table_inv_Table_init nm cols Hplain) as Hinv0.
  pose proof (@table_inv_run_ops ops _ Hinv0 Hwf) as Hinv.
  assert (unique_values (run_ops (Table_init nm cols) ops)) as Huniq.
  { apply unique_values_run_ops; auto.
    - intros r c0 ix v0 id Hr. simpl in Hr. contradiction.
    - intros c0 column0 r1 r2 v1 v2 _ _ Hr. simpl in Hr. contradiction. }
  set (t := run_ops (Table_init nm cols) ops) in *.
  rewrite find_rows_filter.
  assert (NoDup (rows t)) as Hnd.
  { apply (NoDup_map_inv (dict_get "_row_id")). exact (inv_ids_distinct Hinv). }
  apply at_most_one; [apply NoDup_filter; exact Hnd |].
  intros a b Ha Hb.
  apply filter_In in Ha as [Ha Hma]. apply filter_In in Hb as [Hb Hmb].
  unfold selected, row_matches in Hma, Hmb. simpl in Hma, Hmb.
  destruct (dict_get c a) as [va |] eqn:Eva; [| discriminate].
  destruct (dict_get c b) as [vb |] eqn:Evb; [| discriminate].
  rewrite andb_true_r in Hma, Hmb.
  destruct (inv_ids_fresh Hinv _ Ha) as (m & Hm & _).
  destruct (inv_ids_fresh Hinv _ Hb) as (n & Hn & _).
  destruct (Z.eq_dec m n) as [-> | Hne].
  - apply (@row_by_id t a b (VInt n) Hinv Ha Hb Hm Hn).
  - exfalso.
    assert (py_eq va vb = false) as Hdiff.
    { apply (Huniq c column a b va vb Hc Hcon Ha Hb); auto.
      - rewrite Hm, Hn. congruence.
      - eapply py_eq_not_None; eauto. }
    rewrite (py_eq_trans _ _ _ Hma (py_eq_sym _ _ Hmb)) in Hdiff. discriminate.
Qed.

Lemma key_lookup_returns_at_most_one_row_witness :
  (List.length (find_rows (run_ops (Table_init "users" users_columns) quiet_ops)
                  (Some [("email", VStr "al@x.com")])) <= 1)%nat.
Proof.
  apply (@key_lookup_returns_at_most_one_row "users" users_columns quiet_ops
           "email" (mkColumn "email" TEXT UNIQUE true) (VStr "al@x.com")).
  - exact users_columns_plain.
  - unfold quiet_ops; ops_wf.
  - exact quiet_ops_all_returned.
  - vm_compute; reflexivity.
  - discriminate.
  - discriminate.
Defined.

(* ================================================================== *)
(** * The statements of the executor *)

Lemma dict_set_same V k (v : V) d : dict_get k d = Some v -> dict_set k v d = d.
Proof.
  induction d as [| [k0 v0] d IH]; simpl; [discriminate |].
  destruct (String.eqb k0 k) eqn:E.
  - intros [= ->]. reflexivity.
  - intros H. rewrite (IH H). reflexivity.
Qed.

Lemma get_table_set_same db nm t : get_table (dict_set nm t db) nm = Returned t.
Proof. unfold get_table. rewrite dict_get_set_same. reflexivity. Qed.

Lemma get_table_set_other db nm t other :
  other <> nm -> get_table (dict_set nm t db) other = get_table db other.
Proof. intros H. unfold get_table. rewrite dict_get_set_other by exact H. reflexivity. Qed.

Lemma get_table_Returned db nm t :
  get_table db nm = Returned t -> dict_get nm db = Some t.
Proof. unfold get_table. destruct (dict_get nm db); congruence. Qed.

Lemma project_nil cols : project cols [] = [].
Proof. unfold project. destruct (is_star cols); reflexivity. Qed.

(** X13. DELETE through the executor, on a table that satisfies the
    invariant: the statement succeeds and reports the number of rows its
    WHERE conditions select, no other table is touched, and a SELECT with
    the same conditions then returns no row. *)
Theorem delete_then_select_finds_nothing :
  forall (db : Database) (command : DeleteCommand) (t : Table) (cols : list string),
    get_table db (del_table_name command) = Returned t ->
    table_inv t -> Forall (@dict_wf value) (rows t) ->
    exists db',
      _execute_delete db command
      = (db', mkReply true
                (MsgDeleted
                   (Z.of_nat (List.length (find_rows t (del_where_conditions command))))
                   (del_table_name command))
                None
                (Z.of_nat (List.length (find_rows t (del_where_conditions command)))))
      /\ (forall other, other <> del_table_name command ->
                        get_table db' other = get_table db other)
      /\ _execute_select db'
           (mkSelect (del_table_name command) cols (del_where_conditions command)
              None None)
         = mkResult true (MsgSelected 0 (del_table_name command)) (Some []) 0.
Proof.
  intros db command t cols Hget Hinv Hwf.
  destruct (@delete_rows_spec (del_where_conditions command) t Hinv Hwf)
    as (t' & E & _ & Hnone).
  exists (dict_set (del_table_name command) t' db).
  split; [| split].
  - unfold _execute_delete, on_table. rewrite Hget, E. reflexivity.
  - intros other Hne. apply get_table_set_other; exact Hne.
  - unfold _execute_select. cbn [table_name join_table where_conditions sel_columns].
    rewrite get_table_set_same. cbn [truthy_name].
    rewrite Hnone, project_nil. reflexivity.
Qed.

Lemma delete_then_select_finds_nothing_witness :
  exists db',
    _execute_delete blog (mkDelete "users" (Some [("name", VStr "Bob")]))
    = (db', mkReply true
              (MsgDeleted
                 (Z.of_nat (List.length
                              (find_rows users2 (Some [("name", VStr "Bob")]))))
                 "users")
              None
              (Z.of_nat (List.length
                           (find_rows users2 (Some [("name", VStr "Bob")])))))
    /\ (forall other, other <> "users" -> get_table db' other = get_table blog other)
    /\ _execute_select db'
         (mkSelect "users" ["name"] (Some [("name", VStr "Bob")]) None None)
       = mkResult true (MsgSelected 0 "users") (Some []) 0.
Proof.
  apply (@delete_then_select_finds_nothing blog
           (mkDelete "users" (Some [("name", VStr "Bob")])) users2 ["name"]).
  - vm_compute; reflexivity.
  - exact users2_inv.
  - exact users2_rows_wf.
Defined.

(** X14. INSERT through the executor.  A statement that fails, whatever
    the reason, leaves the database as it was and reports no affected row.
    A statement that succeeds reports one affected row and the identifier
    the table handed out, leaves in the table the rows it held followed by
    the new row, and touches no other table. *)
Theorem execute_insert_all_or_nothing :
  forall (db : Database) (command : InsertCommand),
    let result := _execute_insert db command in
    (reply_success (snd result) = false ->
     fst result = db /\ reply_affected_rows (snd result) = 0)
    /\ (reply_success (snd result) = true ->
        exists t t',
          get_table db (ins_table_name command) = Returned t
          /\ get_table (fst result) (ins_table_name command) = Returned t'
          /\ rows t' = rows t ++ [new_row t (ins_values command)]
          /\ snd result
             = mkReply true (MsgInserted (ins_table_name command) (next_row_id t))
                 None 1
          /\ forall other, other <> ins_table_name command ->
                           get_table (fst result) other = get_table db other).
Proof.
  intros db command result. subst result.
  unfold _execute_insert, on_table.
  destruct (get_table db (ins_table_name command)) as [e | t] eqn:Hget.
  - simpl. split; [auto | discriminate].
  - destruct (insert_row_cases (ins_values command) t) as [[e ->] | ->]; simpl.
    + split; [| discriminate]. intros _. split; [| reflexivity].
      apply dict_set_same. apply get_table_Returned; exact Hget.
    + split; [discriminate |]. intros _.
      exists t, (insert_commit (ins_values command) t).
      split; [reflexivity |].
      split; [apply get_table_set_same |].
      split; [apply insert_commit_frame |].
      split; [reflexivity |].
      intros other Hne. apply get_table_set_other; exact Hne.
Qed.

(** X15. CREATE TABLE through the executor.  On a name already in use it
    fails and leaves the database as it was.  On a new name it registers
    an empty table with the columns given: [get_table] finds it, the other
    tables are untouched, [list_tables] lists the name last, and a SELECT
    on the table returns no row. *)
Theorem create_table_registers_an_empty_table :
  forall (db : Database) (command : CreateTableCommand),
    (dict_mem (ct_table_name command) db = true ->
     _execute_create_table db command
     = (db, mkReply false (MsgFailedCreate (TableExists (ct_table_name command)))
              None 0))
    /\ (dict_mem (ct_table_name command) db = false ->
        exists db',
          _execute_create_table db command
          = (db', mkReply true
                    (MsgCreated
                       ("Table '" ++ ct_table_name command
                        ++ "' created with columns: "
                        ++ join_with ", " (map column_info (ct_columns command)))%string)
                    None 0)
          /\ get_table db' (ct_table_name command)
             = Returned (Table_init (ct_table_name command) (ct_columns command))
          /\ (forall other, other <> ct_table_name command ->
                            get_table db' other = get_table db other)
          /\ reply_data (list_tables db')
             = Some (map (fun nm => [("name", VStr nm)])
                       (Database_list_tables db ++ [ct_table_name command]))
          /\ forall cols conditions,
               _execute_select db'
                 (mkSelect (ct_table_name command) cols conditions None None)
               = mkResult true (MsgSelected 0 (ct_table_name command)) (Some []) 0).
Proof.
  intros db command. unfold _execute_create_table, create_table. split; intros H.
  - rewrite H. reflexivity.
  - rewrite H. eexists. split; [reflexivity |].
    split; [apply get_table_set_same |].
    split; [intros other Hne; apply get_table_set_other; exact Hne |].
    split.
    + unfold list_tables, Database_list_tables. cbn [reply_data].
      rewrite dict_keys_set_absent; [reflexivity |].
      unfold dict_mem in H.
      destruct (dict_get (ct_table_name command) db); [discriminate | reflexivity].
    + intros cols conditions. unfold _execute_select.
      cbn [table_name join_table where_conditions sel_columns].
      rewrite get_table_set_same. cbn [truthy_name].
      assert (find_rows (Table_init (ct_table_name command) (ct_columns command))
                conditions = []) as ->.
      { rewrite find_rows_filter. reflexivity. }
      rewrite project_nil. reflexivity.
Qed.

Lemma execute_insert_all_or_nothing_witness :
  (reply_success (snd (_execute_insert blog (mkInsert "users" dup))) = false
   /\ fst (_execute_insert blog (mkInsert "users" dup)) = blog
   /\ reply_affected_rows (snd (_execute_insert blog (mkInsert "users" dup))) = 0)
  /\ (reply_success (snd (_execute_insert blog (mkInsert "users" carol))) = true
      /\ exists t t',
           get_table blog "users" = Returned t
           /\ get_table (fst (_execute_insert blog (mkInsert "users" carol))) "users"
              = Returned t'
           /\ rows t' = rows t ++ [new_row t carol]
           /\ snd (_execute_insert blog (mkInsert "users" carol))
              = mkReply true (MsgInserted "users" (next_row_id t)) None 1
           /\ forall other, other <> "users" ->
                get_table (fst (_execute_insert blog (mkInsert "users" carol))) other
                = get_table blog other).
Proof.
  split.
  - pose proof (@execute_insert_all_or_nothing blog (mkInsert "users" dup)) as H.
    cbv zeta in H. destruct H as [H _].
    assert (reply_success (snd (_execute_insert blog (mkInsert "users" dup))) = false)
      as E by (vm_compute; reflexivity).
    split; [exact E | exact (H E)].
  - pose proof (@execute_insert_all_or_nothing blog (mkInsert "users" carol)) as H.
    cbv zeta in H. destruct H as [_ H].
    assert (reply_success (snd (_execute_insert blog (mkInsert "users" carol))) = true)
      as E by (vm_compute; reflexivity).
    split; [exact E | exact (H E)].
Defined.

Lemma create_table_registers_an_empty_table_witness :
  (dict_mem "users" blog = true
   /\ _execute_create_table blog (mkCreateTable "users" posts_columns)
      = (blog, mkReply false (MsgFailedCreate (TableExists "users")) None 0))
  /\ (dict_mem "tags" blog = false
      /\ exists db',
           _execute_create_table blog (mkCreateTable "tags" posts_columns)
           = (db', mkReply true
                     (MsgCreated
                        "Table 'tags' created with columns: id INT PRIMARY KEY NOT NULL, title TEXT NOT NULL, user_id INT")
                     None 0)
           /\ reply_data (list_tables db')
              = Some [[("name", VStr "users")]; [("name", VStr "posts")];
                      [("name", VStr "tags")]]).
Proof.
  split.
  - assert (dict_mem "users" blog = true) as E by (vm_compute; reflexivity).
    split; [exact E |].
    exact (proj1 (@create_table_registers_an_empty_table blog
                    (mkCreateTable "users" posts_columns)) E).
  - assert (dict_mem "tags" blog = false) as E by (vm_compute; reflexivity).
    split; [exact E |].
    destruct (proj2 (@create_table_registers_an_empty_table blog
                       (mkCreateTable "tags" posts_columns)) E)
      as (db' & Hrun & _ & _ & Hlist & _).
    exists db'. split; [exact Hrun | exact Hlist].
Defined.

(* ================================================================== *)
(** * SELECT with a list of columns *)

Lemma project_row_fold cols (row : pydict value) c :
  forall acc,
    dict_get c (fold_left (fun filtered c0 =>
                             match dict_get c0 row with
                             | Some v => dict_set c0 v filtered
                             | None => filtered
                             end) cols acc)
    = if in_dec string_dec c cols
      then match dict_get c row with
           | Some v => Some v
           | None => dict_get c acc
           end
      else dict_get c acc.
Proof.
  induction cols as [| c0 cols IH]; intros acc; [reflexivity |].
  cbn [fold_left]. rewrite IH.
  destruct (string_dec c0 c) as [-> | Hne].
  - destruct (in_dec string_dec c (c :: cols)) as [_ | Hout];
      [| exfalso; apply Hout; simpl; auto].
    destruct (dict_get c row) as [v |] eqn:E.
    + destruct (in_dec string_dec c cols); [reflexivity | apply dict_get_set_same].
    + destruct (in_dec string_dec c cols); reflexivity.
  - assert (dict_get c (match dict_get c0 row with
                        | Some v => dict_set c0 v acc
                        | None => acc
                        end) = dict_get c acc) as Hacc.
    { destruct (dict_get c0 row); [| reflexivity].
      apply dict_get_set_other. congruence. }
    rewrite Hacc.
    destruct (in_dec string_dec c cols) as [Hin | Hout];
      destruct (in_dec string_dec c (c0 :: cols)) as [Hin' | Hout'];
      try reflexivity.
    + exfalso. apply Hout'. simpl; auto.
    + exfalso. destruct Hin' as [-> | Hin']; [congruence | contradiction].
Qed.

Lemma project_row_get cols row c :
  dict_get c (project_row cols row)
  = if in_dec string_dec c cols then dict_get c row else None.
Proof.
  unfold project_row. rewrite project_row_fold.
  destruct (in_dec string_dec c cols); [| reflexivity].
  destruct (dict_get c row); reflexivity.
Qed.

Lemma Forall2_map_r X Y (R : X -> Y -> Prop) (f : X -> Y) l :
  (forall x, In x l -> R x (f x)) -> Forall2 R l (map f l).
Proof.
  induction l as [| x l IH]; simpl; intros H; constructor; auto.
Qed.

(** X16. A SELECT without JOIN whose column list is not the single ['*']
    succeeds, and returns for each row [find_rows] selects, in order, a
    mapping that holds the row's value under each listed key the row has,
    and nothing else: a column that is not listed, ['_row_id'] included,
    is not shown, and a listed name the row does not have is left out. *)
Theorem select_columns_projects_rows :
  forall (db : Database) (command : SelectCommand) (t : Table),
    get_table db (table_name command) = Returned t ->
    truthy_name (join_table command) = false ->
    is_star (sel_columns command) = false ->
    exists out,
      _execute_select db command
      = mkResult true (MsgSelected (List.length out) (table_name command))
          (Some out) 0
      /\ Forall2 (fun row shown =>
                    forall c, dict_get c shown
                              = if in_dec string_dec c (sel_columns command)
                                then dict_get c row else None)
                 (find_rows t (where_conditions command)) out.
Proof.
  intros db command t Hget Hjoin Hstar.
  unfold _execute_select. rewrite Hget, Hjoin. unfold project. rewrite Hstar.
  eexists. split; [reflexivity |].
  apply Forall2_map_r. intros row _ c. apply project_row_get.
Qed.

Lemma select_columns_projects_rows_witness :
  exists out,
    _execute_select blog (mkSelect "users" ["name"; "age"] (Some [("id", VInt 2)])
                            None None)
    = mkResult true (MsgSelected (List.length out) "users") (Some out) 0
    /\ Forall2 (fun row shown =>
                  forall c, dict_get c shown
                            = if in_dec string_dec c ["name"; "age"]
                              then dict_get c row else None)
               (find_rows users2 (Some [("id", VInt 2)])) out.
Proof.
  apply (@select_columns_projects_rows blog
           (mkSelect "users" ["name"; "age"] (Some [("id", VInt 2)]) None None)
           users2);
    vm_compute; reflexivity.
Defined.

(* ================================================================== *)
(** * The rows of a JOIN *)

Lemma string_app_inv_l p a b : (p ++ a = p ++ b)%string -> a = b.
Proof. induction p as [| c p IH]; simpl; [auto |]. intros [= H]. auto. Qed.

Lemma contains_char_app c a b :
  contains_char c (a ++ b) = contains_char c a || contains_char c b.
Proof.
  induction a as [| d a IH]; simpl; [reflexivity |].
  rewrite IH. apply orb_assoc.
Qed.

Lemma contains_dot_prefixed p k : contains_char dot (p ++ "." ++ k) = true.
Proof.
  rewrite contains_char_app. simpl. apply orb_true_r.
Qed.

(** Two prefixed keys are the same only for the same prefix and key, for
    prefixes without a dot. *)
Lemma prefixed_inj a b x y :
  contains_char dot a = false -> contains_char dot b = false ->
  (a ++ "." ++ x = b ++ "." ++ y)%string -> a = b /\ x = y.
Proof.
  revert b. induction a as [| c a IH]; intros [| d b]; simpl; intros Ha Hb H.
  - injection H as H. auto.
  - injection H as Hc _. subst d.
    change (Ascii.eqb "." dot) with true in Hb. discriminate.
  - injection H as Hc _. subst c.
    change (Ascii.eqb "." dot) with true in Ha. discriminate.
  - injection H as -> H.
    apply orb_false_iff in Ha as [_ Ha]. apply orb_false_iff in Hb as [_ Hb].
    destruct (IH b Ha Hb H) as [-> ->]. auto.
Qed.

Lemma add_prefixed_cons p k v row joined :
  add_prefixed p ((k, v) :: row) joined
  = add_prefixed p row
      (if String.eqb k "_row_id" then joined else dict_set (p ++ "." ++ k) v joined).
Proof. reflexivity. Qed.

(** A key that no prefixed key of the row equals is left as it was. *)
Lemma add_prefixed_miss p K row :
  forall joined,
    (forall k v, In (k, v) row -> k <> "_row_id" -> K <> (p ++ "." ++ k)%string) ->
    dict_get K (add_prefixed p row joined) = dict_get K joined.
Proof.
  induction row as [| [k v] row IH]; intros joined Hmiss; [reflexivity |].
  rewrite add_prefixed_cons, IH by (intros; eapply Hmiss; simpl; eauto).
  destruct (String.eqb k "_row_id") eqn:E; [reflexivity |].
  apply dict_get_set_other. apply (Hmiss k v); [simpl; auto |].
  intros ->. rewrite String.eqb_refl in E. discriminate.
Qed.

(** The value of a key of the row is found under the prefixed key. *)
Lemma add_prefixed_hit p row k v :
  dict_wf row -> k <> "_row_id" -> dict_get k row = Some v ->
  forall joined,
    dict_get (p ++ "." ++ k) (add_prefixed p row joined) = Some v.
Proof.
  unfold dict_wf, dict_keys.
  induction row as [| [k0 v0] row IH]; simpl; intros Hwf Hk Hget joined;
    [discriminate |].
  inversion Hwf as [| ? ? Hnot Hwf']; subst.
  change (fold_left _ row ?j) with (add_prefixed p row j).
  destruct (String.eqb k0 k) eqn:E.
  - apply String.eqb_eq in E; subst k0. injection Hget as ->.
    destruct (String.eqb k "_row_id") eqn:E'.
    { apply String.eqb_eq in E'. contradiction. }
    rewrite add_prefixed_miss; [apply dict_get_set_same |].
    intros k' v' Hin _ Heq. apply string_app_inv_l in Heq.
    injection Heq as <-. apply Hnot.
    change k with (fst (k, v')). apply in_map; exact Hin.
  - apply IH; assumption.
Qed.

Lemma add_prefixed_keys_dotted p row :
  forall joined K,
    dict_get K (add_prefixed p row joined) <> None ->
    dict_get K joined <> None \/ contains_char dot K = true.
Proof.
  induction row as [| [k v] row IH]; intros joined K H; [left; exact H |].
  rewrite add_prefixed_cons in H. apply IH in H as [H | H]; [| right; exact H].
  destruct (String.eqb k "_row_id"); [left; exact H |].
  rewrite dict_get_set_cases in H.
  destruct (string_dec K (p ++ "." ++ k)) as [-> | _]; [| left; exact H].
  right. apply contains_dot_prefixed.
Qed.

Lemma merge_rows_keys_dotted tn jn l r K :
  dict_get K (merge_rows tn jn l r) <> None -> contains_char dot K = true.
Proof.
  unfold merge_rows. intros H.
  apply add_prefixed_keys_dotted in H as [H | H]; [| exact H].
  apply add_prefixed_keys_dotted in H as [H | H]; [| exact H].
  simpl in H. congruence.
Qed.

Lemma merge_rows_shows_right tn jn l r :
  dict_wf r -> shows (show_opt_name jn) r (merge_rows tn jn l r).
Proof.
  intros Hwf k v Hk Hget. unfold merge_rows. apply add_prefixed_hit; assumption.
Qed.

Lemma merge_rows_shows_left tn jn l r :
  dict_wf l ->
  contains_char dot tn = false -> contains_char dot (show_opt_name jn) = false ->
  tn <> show_opt_name jn ->
  shows tn l (merge_rows tn jn l r).
Proof.
  intros Hwf Htn Hjn Hne k v Hk Hget. unfold merge_rows.
  rewrite add_prefixed_miss; [apply add_prefixed_hit; assumption |].
  intros k' v' _ _ Heq.
  apply prefixed_inj in Heq as [Heq _]; auto.
Qed.

(** What [collect] returns is made of what the function returns on the
    elements. *)
Lemma collect_In X Y (f : X -> outcome (list Y)) l zs y :
  collect f l = Returned zs -> In y zs ->
  exists x ys, In x l /\ f x = Returned ys /\ In y ys.
Proof.
  revert zs. induction l as [| x l IH]; simpl; intros zs H Hy.
  - injection H as <-. contradiction.
  - destruct (f x) as [e | ys] eqn:Ex; [discriminate |].
    destruct (collect f l) as [e | zs'] eqn:El; [discriminate |].
    injection H as <-. apply in_app_or in Hy as [Hy | Hy].
    + exists x, ys. auto.
    + destruct (IH zs' eq_refl Hy) as (x' & ys' & Hx' & E & Hy').
      exists x', ys'. auto.
Qed.

(** Every row of the nested loop is the merge of a left row and a right
    row. *)
Lemma nested_loop_join_In command left_rows right_rows joined row :
  nested_loop_join command left_rows right_rows = Returned joined ->
  In row joined ->
  exists l r,
    In l left_rows /\ In r right_rows
    /\ row = merge_rows (table_name command) (join_table command) l r.
Proof.
  unfold nested_loop_join. intros H Hrow.
  destruct (@collect_In _ _ _ _ _ _ H Hrow) as (l & ys & Hl & E & Hy).
  destruct (@collect_In _ _ _ _ _ _ E Hy) as (r & ys' & Hr & E' & Hy').
  exists l, r. split; [exact Hl |]. split; [exact Hr |].
  unfold join_pair in E'.
  destruct (optional_conditions (table_name command) (join_table command) l r
              (join_conditions command)) as [e | [|]]; try discriminate.
  - destruct (optional_conditions (table_name command) (join_table command) l r
                (where_conditions command)) as [e | [|]]; try discriminate.
    + injection E' as <-. destruct Hy' as [<- | []]. reflexivity.
    + injection E' as <-. destruct Hy'.
  - injection E' as <-. destruct Hy'.
Qed.

Lemma execute_join_select_data db command out :
  data (_execute_join_select db command) = Some out ->
  exists left_table right_table joined,
    get_table db (table_name command) = Returned left_table
    /\ get_opt_table db (join_table command) = Returned right_table
    /\ nested_loop_join command (rows left_table) (rows right_table)
       = Returned joined
    /\ out = project (sel_columns command) joined.
Proof.
  unfold _execute_join_select.
  destruct (get_table db (table_name command)) as [e | lt]; [discriminate |].
  destruct (get_opt_table db (join_table command)) as [e | rt]; [discriminate |].
  change (find_rows lt None) with (rows lt). change (find_rows rt None) with (rows rt).
  destruct (nested_loop_join command (rows lt) (rows rt)) as [e | joined] eqn:Ej;
    [discriminate |].
  simpl. intros [= <-]. exists lt, rt, joined.
  split; [reflexivity |]. split; [reflexivity |]. split; [exact Ej | reflexivity].
Qed.

(** X17. No mapping a JOIN returns has the key ['_row_id'], whatever the
    conditions and the column list; each of its keys has a dot in it. *)
Theorem join_rows_never_show_row_id :
  forall (db : Database) (command : SelectCommand) (out : list (pydict value)),
    data (_execute_join_select db command) = Some out ->
    Forall (fun row => dict_get "_row_id" row = None
                       /\ forall K, dict_get K row <> None ->
                                    contains_char dot K = true) out.
Proof.
  intros db command out H.
  destruct (@execute_join_select_data db command out H) as (lt & rt & joined & _ & _ & Hj & ->).
  assert (forall row, In row (project (sel_columns command) joined) ->
                      forall K, dict_get K row <> None ->
                                contains_char dot K = true) as Hdot.
  { intros row Hrow K HK. unfold project in Hrow.
    destruct (is_star (sel_columns command)).
    - destruct (@nested_loop_join_In _ _ _ _ _ Hj Hrow) as (l & r & _ & _ & ->).
      eapply merge_rows_keys_dotted; eassumption.
    - apply in_map_iff in Hrow as (j & <- & Hjn).
      rewrite project_row_get in HK.
      destruct (in_dec string_dec K (sel_columns command)); [| congruence].
      destruct (@nested_loop_join_In _ _ _ _ _ Hj Hjn) as (l & r & _ & _ & ->).
      eapply merge_rows_keys_dotted; eassumption. }
  apply Forall_forall. intros row Hrow. split; [| apply Hdot; exact Hrow].
  destruct (dict_get "_row_id" row) eqn:E; [| reflexivity].
  assert (contains_char dot "_row_id" = true) as Hc
    by (apply (Hdot row Hrow); congruence).
  vm_compute in Hc. discriminate.
Qed.

Lemma join_rows_never_show_row_id_witness :
  data (_execute_join_select blog
          (mkSelect "users" ["*"] None (Some "posts") None))
  = Some (map (fun l => merge_rows "users" (Some "posts") l
                          [("_row_id", VInt 1); ("id", VInt 1);
                           ("title", VStr "Hello"); ("user_id", VInt 1)])
            (rows users2))
  /\ Forall (fun row => dict_get "_row_id" row = None
                        /\ forall K, dict_get K row <> None ->
                                     contains_char dot K = true)
       (map (fun l => merge_rows "users" (Some "posts") l
                        [("_row_id", VInt 1); ("id", VInt 1);
                         ("title", VStr "Hello"); ("user_id", VInt 1)])
          (rows users2)).
Proof.
  split; [vm_compute; reflexivity |].
  apply (@join_rows_never_show_row_id blog
           (mkSelect "users" ["*"] None (Some "posts") None)).
  vm_compute; reflexivity.
Defined.

Lemma add_prefixed_inv p row :
  forall joined K,
    dict_get K (add_prefixed p row joined) <> None ->
    dict_get K joined <> None
    \/ exists k v, In (k, v) row /\ k <> "_row_id" /\ K = (p ++ "." ++ k)%string.
Proof.
  induction row as [| [k v] row IH]; intros joined K H; [left; exact H |].
  rewrite add_prefixed_cons in H. apply IH in H as [H | (k' & v' & Hin & Hk & ->)].
  - destruct (String.eqb k "_row_id") eqn:E; [left; exact H |].
    rewrite dict_get_set_cases in H.
    destruct (string_dec K (p ++ "." ++ k)) as [-> | _]; [| left; exact H].
    right. exists k, v. split; [simpl; auto |]. split; [| reflexivity].
    intros ->. rewrite String.eqb_refl in E. discriminate.
  - right. exists k', v'. split; [simpl; auto | auto].
Qed.

(** X18. A JOIN with the column list ['*'] returns merged rows: each
    comes from a row of the left table and a row of the right table, and
    shows every value of the right row under [right.key]; when the two
    table names differ and have no dot in them, it also shows every value
    of the left row under [left.key]. *)
Theorem join_rows_show_both_rows :
  forall (db : Database) (command : SelectCommand) (A B : Table) (b : string)
         (out : list (pydict value)),
    get_table db (table_name command) = Returned A ->
    join_table command = Some b ->
    get_table db b = Returned B ->
    sel_columns command = ["*"] ->
    data (_execute_join_select db command) = Some out ->
    Forall (fun row =>
              exists l r,
                In l (rows A) /\ In r (rows B)
                /\ (dict_wf r -> shows b r row)
                /\ (dict_wf l ->
                    contains_char dot (table_name command) = false ->
                    contains_char dot b = false ->
                    table_name command <> b ->
                    shows (table_name command) l row)) out.
Proof.
  intros db command A B b out HA Hb HB Hstar H.
  destruct (@execute_join_select_data db command out H)
    as (lt & rt & joined & Hlt & Hrt & Hj & ->).
  rewrite HA in Hlt. injection Hlt as <-.
  rewrite Hb in Hrt. simpl in Hrt. rewrite HB in Hrt. injection Hrt as <-.
  unfold project. rewrite Hstar. simpl.
  apply Forall_forall. intros row Hrow.
  destruct (@nested_loop_join_In _ _ _ _ _ Hj Hrow) as (l & r & Hl & Hr & ->).
  exists l, r. split; [exact Hl |]. split; [exact Hr |]. rewrite Hb. split.
  - intros Hwf. apply (@merge_rows_shows_right (table_name command) (Some b) l r Hwf).
  - intros Hwf H1 H2 H3.
    apply (@merge_rows_shows_left (table_name command) (Some b) l r Hwf H1 H2 H3).
Qed.

Lemma join_rows_show_both_rows_witness :
  Forall (fun row =>
            exists l r,
              In l (rows users2) /\ In r (rows posts1)
              /\ (dict_wf r -> shows "posts" r row)
              /\ (dict_wf l ->
                  contains_char dot "users" = false ->
                  contains_char dot "posts" = false ->
                  "users" <> "posts" ->
                  shows "users" l row))
    (map (fun l => merge_rows "users" (Some "posts") l
                     [("_row_id", VInt 1); ("id", VInt 1);
                      ("title", VStr "Hello"); ("user_id", VInt 1)])
       (rows users2)).
Proof.
  apply (@join_rows_show_both_rows blog
           (mkSelect "users" ["*"] None (Some "posts") None) users2 posts1 "posts");
    vm_compute; reflexivity.
Defined.

(** X19. A table joined with itself: the merged row of a left row and a
    right row with the same keys is the right row alone under the
    prefixed keys; the values of the left row are lost. *)
Theorem self_join_shows_the_right_row_only :
  forall (db : Database) (command : SelectCommand) (A : Table)
         (out : list (pydict value)),
    get_table db (table_name command) = Returned A ->
    join_table command = Some (table_name command) ->
    sel_columns command = ["*"] ->
    data (_execute_join_select db command) = Some out ->
    Forall (fun row =>
              exists l r,
                In l (rows A) /\ In r (rows A)
                /\ (dict_wf r ->
                    (forall k, dict_get k l <> None -> dict_get k r <> None) ->
                    forall K, dict_get K row
                              = dict_get K (add_prefixed (table_name command) r [])))
           out.
Proof.
  intros db command A out HA Hb Hstar H.
  destruct (@execute_join_select_data db command out H)
    as (lt & rt & joined & Hlt & Hrt & Hj & ->).
  rewrite HA in Hlt. injection Hlt as <-.
  rewrite Hb in Hrt. simpl in Hrt. rewrite HA in Hrt. injection Hrt as <-.
  unfold project. rewrite Hstar. simpl.
  apply Forall_forall. intros row Hrow.
  destruct (@nested_loop_join_In _ _ _ _ _ Hj Hrow) as (l & r & Hl & Hr & ->).
  exists l, r. split; [exact Hl |]. split; [exact Hr |].
  intros Hwf Hkeys K. rewrite Hb. unfold merge_rows, show_opt_name.
  set (n := table_name command).
  assert (forall k v, In (k, v) r -> k <> "_row_id" ->
                      exists w, dict_get (n ++ "." ++ k) (add_prefixed n r []) = Some w
                                /\ dict_get (n ++ "." ++ k)
                                     (add_prefixed n r (add_prefixed n l [])) = Some w)
    as Hhit.
  { intros k v Hin Hk. exists v.
    pose proof (In_dict_get _ _ Hwf Hin) as Hget.
    split; apply add_prefixed_hit; assumption. }
  destruct (dict_get K (add_prefixed n r [])) as [w |] eqn:ER.
  - assert (dict_get K (add_prefixed n r []) <> None) as Hne by congruence.
    apply add_prefixed_inv in Hne as [Hne | (k & v & Hin & Hk & ->)];
      [simpl in Hne; congruence |].
    destruct (Hhit k v Hin Hk) as (w' & H1 & H2). congruence.
  - destruct (dict_get K (add_prefixed n r (add_prefixed n l []))) as [w |] eqn:EL;
      [| reflexivity].
    exfalso.
    assert (dict_get K (add_prefixed n r (add_prefixed n l [])) <> None) as Hne
      by congruence.
    apply add_prefixed_inv in Hne as [Hne | (k & v & Hin & Hk & ->)].
    + apply add_prefixed_inv in Hne as [Hne | (k & v & Hin & Hk & ->)];
        [simpl in Hne; congruence |].
      assert (dict_get k r <> None) as Hr'.
      { apply Hkeys. apply In_keys_dict_get.
        change k with (fst (k, v)). apply in_map; exact Hin. }
      destruct (dict_get k r) as [v' |] eqn:Ev; [| congruence].
      destruct (Hhit k v' (dict_get_In _ _ Ev) Hk) as (w' & H1 & _). congruence.
    + destruct (Hhit k v Hin Hk) as (w' & H1 & _). congruence.
Qed.

Lemma self_join_shows_the_right_row_only_witness :
  data (_execute_join_select blog (mkSelect "users" ["*"] None (Some "users") None))
  = Some [ [("users.id", VInt 1); ("users.name", VStr "Alice");
            ("users.email", VStr "a@x.com")];
           [("users.id", VInt 2); ("users.name", VStr "Bob");
            ("users.email", VStr "b@x.com")];
           [("users.id", VInt 1); ("users.name", VStr "Alice");
            ("users.email", VStr "a@x.com")];
           [("users.id", VInt 2); ("users.name", VStr "Bob");
            ("users.email", VStr "b@x.com")] ]
  /\ Forall (fun row =>
               exists l r,
                 In l (rows users2) /\ In r (rows users2)
                 /\ (dict_wf r ->
                     (forall k, dict_get k l <> None -> dict_get k r <> None) ->
                     forall K, dict_get K row
                               = dict_get K (add_prefixed "users" r [])))
       [ [("users.id", VInt 1); ("users.name", VStr "Alice");
          ("users.email", VStr "a@x.com")];
         [("users.id", VInt 2); ("users.name", VStr "Bob");
          ("users.email", VStr "b@x.com")];
         [("users.id", VInt 1); ("users.name", VStr "Alice");
          ("users.email", VStr "a@x.com")];
         [("users.id", VInt 2); ("users.name", VStr "Bob");
          ("users.email", VStr "b@x.com")] ].
Proof.
  split; [vm_compute; reflexivity |].
  apply (@self_join_shows_the_right_row_only blog
           (mkSelect "users" ["*"] None (Some "users") None) users2);
    vm_compute; reflexivity.
Defined.

(* ================================================================== *)
(** * The join without conditions *)

(** Copying a row under a prefix removes no key. *)
Lemma add_prefixed_keeps p row :
  forall joined K,
    dict_get K joined <> None -> dict_get K (add_prefixed p row joined) <> None.
Proof.
  induction row as [| [k v] row IH]; intros joined K H; [exact H |].
  rewrite add_prefixed_cons. apply IH.
  destruct (String.eqb k "_row_id"); [exact H |].
  rewrite dict_get_set_cases.
  destruct (string_dec K (p ++ "." ++ k)); [discriminate | exact H].
Qed.

Lemma In_dict_get_not_None V k (v : V) (d : pydict V) :
  In (k, v) d -> dict_get k d <> None.
Proof.
  intros H. apply In_keys_dict_get. unfold dict_keys.
  change k with (fst (k, v)). apply in_map; exact H.
Qed.

(** What the code builds for a pair of rows is the merged row of the
    pair. *)
Lemma merge_rows_merged a b l r :
  dict_wf l -> dict_wf r ->
  merged_row a b l r (merge_rows a (Some b) l r).
Proof.
  intros Hl Hr. split; [| split].
  - intros K. split.
    + intros H. unfold merge_rows in H. cbn [show_opt_name] in H.
      apply add_prefixed_inv in H as [H | (k & v & Hin & Hk & ->)].
      * apply add_prefixed_inv in H as [H | (k & v & Hin & Hk & ->)].
        -- simpl in H. congruence.
        -- left. exists k. split; [exact Hk |]. split; [| reflexivity].
           apply (@In_dict_get_not_None _ k v l Hin).
      * right. exists k. split; [exact Hk |]. split; [| reflexivity].
        apply (@In_dict_get_not_None _ k v r Hin).
    + intros [(k & Hk & Hget & ->) | (k & Hk & Hget & ->)].
      * unfold merge_rows. apply add_prefixed_keeps.
        destruct (dict_get k l) as [v |] eqn:E; [| congruence].
        rewrite (@add_prefixed_hit a l k v Hl Hk E []). discriminate.
      * destruct (dict_get k r) as [v |] eqn:E; [| congruence].
        pose proof (@merge_rows_shows_right a (Some b) l r Hr k v Hk E) as Hs.
        cbn [show_opt_name] in Hs. rewrite Hs. discriminate.
  - exact (@merge_rows_shows_right a (Some b) l r Hr).
  - intros k v Hk Hget Hfree. unfold merge_rows. cbn [show_opt_name].
    rewrite add_prefixed_miss; [apply add_prefixed_hit; assumption |].
    intros k' v' Hin Hk' Heq. apply (Hfree k' Hk').
    + apply (@In_dict_get_not_None _ k' v' r Hin).
    + symmetry; exact Heq.
Qed.

Lemma Forall2_map_pairs X Y (R : X -> Y -> Prop) (f : X -> Y) l :
  Forall (fun x => R x (f x)) l -> Forall2 R l (map f l).
Proof.
  induction 1; simpl; constructor; assumption.
Qed.

Lemma Forall_list_prod X Y (P : X -> Prop) (Q : Y -> Prop) l l' :
  Forall P l -> Forall Q l' ->
  Forall (fun p => P (fst p) /\ Q (snd p)) (list_prod l l').
Proof.
  intros Hl Hl'. apply Forall_forall. intros [x y] Hin.
  apply in_prod_iff in Hin as [Hx Hy].
  rewrite Forall_forall in Hl, Hl'. split; [apply Hl | apply Hl']; assumption.
Qed.

(** C8. [SELECT * FROM A JOIN B] with neither a join condition nor a WHERE
    condition succeeds and returns exactly n x m rows, n and m being the
    numbers of live rows of A and B: one row for each pair of a row of A
    and a row of B, in the order of the two loops, and, the rows of the
    tables being dictionaries, the row of a pair is the merged row of the
    pair.  This holds for [_execute_join_select], and for
    [_execute_select], which hands over to it as soon as the name of the
    joined table is a non-empty string. *)
Theorem join_without_conditions_cardinality :
  forall (db : Database) (command : SelectCommand) (A B : Table) (b : string),
    get_table db (table_name command) = Returned A ->
    join_table command = Some b ->
    get_table db b = Returned B ->
    sel_columns command = ["*"] ->
    truthy_dict (join_conditions command) = false ->
    truthy_dict (where_conditions command) = false ->
    (exists out,
        success (_execute_join_select db command) = true
        /\ data (_execute_join_select db command) = Some out
        /\ List.length out = (List.length (rows A) * List.length (rows B))%nat
        /\ (Forall (@dict_wf value) (rows A) -> Forall (@dict_wf value) (rows B) ->
            Forall2 (fun pair row =>
                       merged_row (table_name command) b (fst pair) (snd pair) row)
                    (list_prod (rows A) (rows B)) out))
    /\ (b <> "" -> _execute_select db command = _execute_join_select db command).
Proof.
  intros db command A B b HA Hb HB Hstar Hj Hw.
  split.
  - unfold _execute_join_select. rewrite HA, Hb. simpl get_opt_table. rewrite HB.
    rewrite (@nested_loop_join_unconditional command
               (find_rows A None) (find_rows B None) Hj Hw).
    rewrite Hstar, Hb. change (find_rows A None) with (rows A).
    change (find_rows B None) with (rows B).
    eexists. split; [reflexivity |]. split; [reflexivity |]. split.
    + change (project ["*"] ?l) with l. rewrite length_map. apply length_prod.
    + intros HwA HwB. change (project ["*"] ?l) with l.
      apply Forall2_map_pairs.
      eapply Forall_impl; [| exact (Forall_list_prod HwA HwB)].
      intros [l r] [Hl Hr]. apply merge_rows_merged; assumption.
  - intros Hne. unfold _execute_select. rewrite HA, Hb.
    destruct b; [congruence | reflexivity].
Qed.

Lemma posts2_rows_wf : Forall (@dict_wf value) (rows posts2).
Proof.
  unfold dict_wf. vm_compute.
  repeat (apply Forall_cons;
          [repeat (apply NoDup_cons; [simpl; intuition discriminate |]);
           apply NoDup_nil |]).
  apply Forall_nil.
Qed.

(** The two users joined with the two posts: 2 x 2 merged rows, the posts
    running faster. *)
Lemma join_without_conditions_cardinality_witness :
  data (_execute_join_select blog2 users_cross_posts)
  = Some [ [("users.id", VInt 1); ("users.name", VStr "Alice");
            ("users.email", VStr "a@x.com");
            ("posts.id", VInt 1); ("posts.title", VStr "Hello");
            ("posts.user_id", VInt 1)];
           [("users.id", VInt 1); ("users.name", VStr "Alice");
            ("users.email", VStr "a@x.com");
            ("posts.id", VInt 2); ("posts.title", VStr "World");
            ("posts.user_id", VInt 2)];
           [("users.id", VInt 2); ("users.name", VStr "Bob");
            ("users.email", VStr "b@x.com");
            ("posts.id", VInt 1); ("posts.title", VStr "Hello");
            ("posts.user_id", VInt 1)];
           [("users.id", VInt 2); ("users.name", VStr "Bob");
            ("users.email", VStr "b@x.com");
            ("posts.id", VInt 2); ("posts.title", VStr "World");
            ("posts.user_id", VInt 2)] ]
  /\ (exists out,
        success (_execute_join_select blog2 users_cross_posts) = true
        /\ data (_execute_join_select blog2 users_cross_posts) = Some out
        /\ List.length out = (List.length (rows users2) * List.length (rows posts2))%nat
        /\ Forall2 (fun pair row =>
                      merged_row "users" "posts" (fst pair) (snd pair) row)
                   (list_prod (rows users2) (rows posts2)) out)
  /\ _execute_select blog2 users_cross_posts
     = _execute_join_select blog2 users_cross_posts.
Proof.
  split; [vm_compute; reflexivity |].
  destruct (@join_without_conditions_cardinality blog2 users_cross_posts
              users2 posts2 "posts" eq_refl eq_refl eq_refl eq_refl eq_refl eq_refl)
    as [(out & Hs & Hd & Hlen & Hm) Hsel].
  split.
  - exists out. split; [exact Hs |]. split; [exact Hd |]. split; [exact Hlen |].
    exact (Hm users2_rows_wf posts2_rows_wf).
  - apply Hsel. discriminate.
Defined.

(* ================================================================== *)
(** * A JOIN condition compares a column with a literal *)

Lemma split_char_without sep s :
  contains_char sep s = false -> split_char sep s = [s].
Proof.
  induction s as [| c s IH]; simpl; [reflexivity |].
  intros H. apply orb_false_iff in H as [-> H]. rewrite (IH H). reflexivity.
Qed.

Lemma split_char_prefixed a c :
  contains_char dot a = false -> contains_char dot c = false ->
  split_char dot (a ++ "." ++ c) = [a; c].
Proof.
  intros Ha Hc. change ("." ++ c)%string with (String dot c).
  induction a as [| d a IH]; cbn [append split_char].
  - rewrite Ascii.eqb_refl, (split_char_without _ _ Hc). reflexivity.
  - simpl in Ha. apply orb_false_iff in Ha as [-> Ha]. rewrite (IH Ha). reflexivity.
Qed.

Lemma collect_nothing X Y (f : X -> outcome (list Y)) l :
  (forall x, In x l -> f x = Returned []) -> collect f l = Returned [].
Proof.
  induction l as [| x l IH]; simpl; intros H; [reflexivity |].
  rewrite (H x) by auto. rewrite IH by auto. reflexivity.
Qed.

(** X20. A JOIN whose first ON condition is [left.c = v]: the value [v] is
    compared with what the left row holds in [c], never with a column of
    the right table.  When no row of the left table holds a value [==] to
    [v] in [c], the JOIN succeeds with no row, whatever the other
    conditions. *)
Theorem join_condition_is_a_literal :
  forall (db : Database) (command : SelectCommand) (A B : Table) (b c : string)
         (v : value) (rest : pydict value),
    get_table db (table_name command) = Returned A ->
    join_table command = Some b ->
    get_table db b = Returned B ->
    join_conditions command = Some ((table_name command ++ "." ++ c, v)%string :: rest) ->
    contains_char dot (table_name command) = false ->
    contains_char dot c = false ->
    (forall l, In l (rows A) -> py_eq (dict_get_or_None c l) v = false) ->
    _execute_join_select db command
    = mkResult true (MsgSelectedJoin 0 (table_name command) b) (Some []) 0.
Proof.
  intros db command A B b c v rest HA Hb HB Hcond Htn Hc Hnone.
  unfold _execute_join_select. rewrite HA, Hb. simpl get_opt_table. rewrite HB.
  change (find_rows A None) with (rows A). change (find_rows B None) with (rows B).
  assert (nested_loop_join command (rows A) (rows B) = Returned []) as ->.
  { unfold nested_loop_join. apply collect_nothing. intros l Hl.
    apply collect_nothing. intros r _.
    unfold join_pair, optional_conditions. rewrite Hcond, Hb.
    cbn [truthy_dict pair_conditions]. unfold pair_condition. cbn [fst snd].
    rewrite contains_dot_prefixed, (split_char_prefixed _ _ Htn Hc).
    rewrite String.eqb_refl, (Hnone l Hl). reflexivity. }
  rewrite project_nil. reflexivity.
Qed.

Lemma join_condition_is_a_literal_witness :
  _parse_conditions sample_float sample_int "users.id = posts.user_id"
  = Returned [("users.id", VStr "posts.user_id")]
  /\ _execute_join_select blog users_join_posts
     = mkResult true (MsgSelectedJoin 0 "users" "posts") (Some []) 0.
Proof.
  split; [vm_compute; reflexivity |].
  apply (@join_condition_is_a_literal blog users_join_posts users2 posts1
           "posts" "id" (VStr "posts.user_id") []); try (vm_compute; reflexivity).
  intros l Hl. vm_compute in Hl.
  destruct Hl as [<- | [<- | []]]; vm_compute; reflexivity.
Defined.

(* ================================================================== *)
(** * Words, white space and trimming *)

Arguments is_space : simpl never.

Lemma string_app_assoc a b c : ((a ++ b) ++ c = a ++ (b ++ c))%string.
Proof. induction a as [| x a IH]; simpl; congruence. Qed.

Lemma string_app_empty_r a : (a ++ EmptyString)%string = a.
Proof. induction a as [| x a IH]; simpl; congruence. Qed.

Lemma string_app_nonempty a b : b <> EmptyString -> (a ++ b)%string <> EmptyString.
Proof. destruct a; simpl; [auto | discriminate]. Qed.

Lemma split_ws_space c s : is_space c = true -> split_ws (String c s) = split_ws s.
Proof. intros H. cbn [split_ws]. rewrite H. reflexivity. Qed.

Lemma split_ws_nonspace c s :
  is_space c = false ->
  split_ws (String c s)
  = match s with
    | EmptyString => [String c EmptyString]
    | String d _ =>
        if is_space d then String c EmptyString :: split_ws s
        else match split_ws s with
             | w :: ws => String c w :: ws
             | [] => [String c EmptyString]
             end
    end.
Proof.
  intros H.
  change (split_ws (String c s))
    with (if is_space c then split_ws s
          else match s with
               | EmptyString => [String c EmptyString]
               | String d _ =>
                   if is_space d then String c EmptyString :: split_ws s
                   else match split_ws s with
                        | w :: ws => String c w :: ws
                        | [] => [String c EmptyString]
                        end
               end).
  rewrite H. reflexivity.
Qed.

Lemma split_ws_starts c s : is_space c = false -> split_ws (String c s) <> [].
Proof.
  intros H. rewrite split_ws_nonspace by exact H.
  destruct s as [| d s']; [discriminate |].
  destruct (is_space d); [discriminate |].
  destruct (split_ws (String d s')); discriminate.
Qed.

Lemma word_cons c w :
  word (String c w) <->
  is_space c = false
  /\ (w = EmptyString \/ word w).
Proof.
  unfold word. cbn [all_chars]. split.
  - intros [_ H]. apply andb_true_iff in H as [Hc H].
    apply negb_true_iff in Hc. split; [exact Hc |].
    destruct w; [left; reflexivity | right; split; [discriminate | exact H]].
  - intros [Hc [-> | [_ H]]]; (split; [discriminate |]); rewrite Hc; simpl; auto.
Qed.

Lemma split_ws_word w : word w -> split_ws w = [w].
Proof.
  induction w as [| c w IH]; intros H; [destruct H; congruence |].
  apply word_cons in H as [Hc Hw].
  rewrite split_ws_nonspace by exact Hc.
  destruct Hw as [-> | Hw]; [reflexivity |].
  destruct w as [| d w']; [destruct Hw; congruence |].
  pose proof Hw as Hw'. apply word_cons in Hw' as [Hd _].
  rewrite Hd, (IH Hw). reflexivity.
Qed.

Lemma split_ws_app_space a c b :
  is_space c = true -> split_ws (a ++ String c b) = split_ws a ++ split_ws b.
Proof.
  intros Hc. induction a as [| x a IH]; cbn [append].
  - rewrite split_ws_space by exact Hc. reflexivity.
  - destruct (is_space x) eqn:Hx.
    + rewrite !split_ws_space by exact Hx. exact IH.
    + rewrite !(split_ws_nonspace _ _ Hx).
      destruct a as [| d a']; cbn [append] in *.
      * rewrite Hc, IH. reflexivity.
      * rewrite IH. destruct (is_space d) eqn:Hd; [reflexivity |].
        pose proof (@split_ws_starts d a' Hd) as Hne.
        destruct (split_ws (String d a')) as [| w ws]; [congruence | reflexivity].
Qed.

Lemma split_ws_blank_l w b :
  all_chars is_space w = true -> split_ws (w ++ b) = split_ws b.
Proof.
  induction w as [| c w IH]; cbn [append all_chars]; intros H; [reflexivity |].
  apply andb_true_iff in H as [Hc H].
  rewrite split_ws_space by exact Hc. auto.
Qed.

Lemma split_ws_app_blank a w b :
  blank w -> split_ws (a ++ w ++ b) = split_ws a ++ split_ws b.
Proof.
  intros [Hne H]. destruct w as [| c w]; [congruence |].
  cbn [all_chars] in H. apply andb_true_iff in H as [Hc H].
  cbn [append]. rewrite split_ws_app_space by exact Hc.
  rewrite split_ws_blank_l by exact H. reflexivity.
Qed.

Lemma split_ws_words s : Forall word (split_ws s).
Proof.
  induction s as [| c s IH]; [constructor |].
  destruct (is_space c) eqn:Hc; [rewrite split_ws_space by exact Hc; exact IH |].
  rewrite split_ws_nonspace by exact Hc.
  destruct s as [| d s'].
  - constructor; [| constructor]. apply word_cons. auto.
  - destruct (is_space d).
    + constructor; [apply word_cons; auto | exact IH].
    + destruct (split_ws (String d s')) as [| w ws].
      * constructor; [apply word_cons; auto | constructor].
      * inversion IH; subst. constructor; [apply word_cons; auto | assumption].
Qed.

Lemma lstrip_nonspace c s : is_space c = false -> lstrip (String c s) = String c s.
Proof. intros H. cbn [lstrip]. rewrite H. reflexivity. Qed.

Lemma rstrip_cons c s :
  rstrip (String c s)
  = match rstrip s with
    | EmptyString => if is_space c then EmptyString else String c EmptyString
    | String a r => String c (String a r)
    end.
Proof. reflexivity. Qed.

Lemma rstrip_word w : word w -> rstrip w = w.
Proof.
  induction w as [| c w IH]; intros H; [reflexivity |].
  apply word_cons in H as [Hc Hw]. rewrite rstrip_cons.
  destruct Hw as [-> | Hw]; [simpl; rewrite Hc; reflexivity |].
  rewrite (IH Hw). destruct w; [destruct Hw; congruence | reflexivity].
Qed.

Lemma rstrip_app_word x w : word w -> rstrip (x ++ w) = (x ++ w)%string.
Proof.
  intros Hw. induction x as [| c x IH]; cbn [append]; [apply rstrip_word; exact Hw |].
  rewrite rstrip_cons, IH.
  destruct (x ++ w)%string eqn:E; [| reflexivity].
  exfalso. apply (@string_app_nonempty x w (proj1 Hw)). exact E.
Qed.

Lemma join_words_last ws :
  ws <> [] -> Forall word ws ->
  exists x wl, join_with " " ws = (x ++ wl)%string /\ word wl.
Proof.
  induction ws as [| w ws IH]; intros Hne H; [congruence |].
  inversion H as [| ? ? Hw Hws]; subst.
  destruct ws as [| w1 rest].
  - exists EmptyString, w. auto.
  - destruct IH as (x & wl & E & Hwl); [discriminate | exact Hws |].
    exists (w ++ " " ++ x)%string, wl. split; [| exact Hwl].
    rewrite join_with_cons, E, !string_app_assoc. reflexivity.
Qed.

Lemma strip_join_words ws :
  Forall word ws -> strip (join_with " " ws) = join_with " " ws.
Proof.
  intros H. destruct ws as [| w ws]; [reflexivity |].
  unfold strip.
  assert (lstrip (join_with " " (w :: ws)) = join_with " " (w :: ws)) as ->.
  { inversion H as [| ? ? Hw _]; subst.
    destruct w as [| c w0]; [destruct Hw; congruence |].
    apply word_cons in Hw as [Hc _].
    rewrite join_with_cons_char. apply lstrip_nonspace; exact Hc. }
  destruct (@join_words_last (w :: ws)) as (x & wl & E & Hwl);
    [discriminate | exact H |].
  rewrite E. apply rstrip_app_word; exact Hwl.
Qed.

Lemma split_ws_join ws :
  Forall word ws -> split_ws (join_with " " ws) = ws.
Proof.
  induction ws as [| w ws IH]; intros H; [reflexivity |].
  inversion H as [| ? ? Hw Hws]; subst.
  destruct ws as [| w1 rest]; [apply split_ws_word; exact Hw |].
  rewrite join_with_cons.
  change (" " ++ join_with " " (w1 :: rest))%string
    with (String " " (join_with " " (w1 :: rest))).
  rewrite split_ws_app_space by reflexivity.
  rewrite (@split_ws_word w Hw), (IH Hws). reflexivity.
Qed.

(** X21. The normalisation [parse] starts with leaves the words of the
    statement, each a run of characters without white space, joined by
    single spaces: the final [strip] changes nothing, normalising twice is
    normalising once, and any run of white space, inside quotes as well as
    outside, counts as one space. *)
Theorem normalize_sql_collapses_white_space :
  forall s : string,
    normalize_sql s = join_with " " (split_ws s)
    /\ Forall word (split_ws s)
    /\ split_ws (normalize_sql s) = split_ws s
    /\ normalize_sql (normalize_sql s) = normalize_sql s
    /\ forall a w b,
         s = (a ++ w ++ b)%string -> blank w ->
         normalize_sql s = normalize_sql (a ++ " " ++ b).
Proof.
  intros s. pose proof (split_ws_words s) as Hw.
  assert (normalize_sql s = join_with " " (split_ws s)) as E
    by (apply strip_join_words; exact Hw).
  assert (split_ws (normalize_sql s) = split_ws s) as E2
    by (rewrite E; apply split_ws_join; exact Hw).
  split; [exact E |]. split; [exact Hw |]. split; [exact E2 |]. split.
  - unfold normalize_sql at 1. rewrite E2. reflexivity.
  - intros a w b -> Hblank. unfold normalize_sql.
    rewrite (@split_ws_app_blank a w b Hblank).
    assert (blank " ") as Hsp by (split; [discriminate | reflexivity]).
    rewrite (@split_ws_app_blank a " " b Hsp). reflexivity.
Qed.

Lemma normalize_sql_collapses_white_space_witness :
  normalize_sql "  SELECT *   FROM t WHERE name = 'a   b' "
  = "SELECT * FROM t WHERE name = 'a b'"
  /\ blank "   "
  /\ normalize_sql ("SELECT *" ++ "   " ++ "FROM t")
     = normalize_sql ("SELECT *" ++ " " ++ "FROM t").
Proof.
  assert (blank "   ") as Hblank by (split; [discriminate | reflexivity]).
  split; [vm_compute; reflexivity |]. split; [exact Hblank |].
  exact (proj2 (proj2 (proj2 (proj2
           (@normalize_sql_collapses_white_space
              ("SELECT *" ++ "   " ++ "FROM t")))))
           "SELECT *" "   " "FROM t" eq_refl Hblank).
Defined.

Lemma rstrip_idem s : rstrip (rstrip s) = rstrip s.
Proof.
  induction s as [| c s IH]; [reflexivity |].
  rewrite rstrip_cons. destruct (rstrip s) as [| a r] eqn:E.
  - destruct (is_space c) eqn:Hc; [reflexivity |].
    rewrite rstrip_cons. cbn [rstrip]. rewrite Hc. reflexivity.
  - rewrite rstrip_cons, IH. reflexivity.
Qed.

Lemma rstrip_head c s :
  is_space c = false -> exists r, rstrip (String c s) = String c r.
Proof.
  intros H. rewrite rstrip_cons. destruct (rstrip s); [rewrite H |]; eauto.
Qed.

Lemma lstrip_shape s :
  lstrip s = EmptyString
  \/ exists c r, lstrip s = String c r /\ is_space c = false.
Proof.
  induction s as [| c s IH]; [left; reflexivity |].
  cbn [lstrip]. destruct (is_space c) eqn:Hc; [exact IH |]. right; eauto.
Qed.

Lemma strip_idem s : strip (strip s) = strip s.
Proof.
  unfold strip. destruct (lstrip_shape s) as [E | (c & r & E & Hc)]; rewrite E.
  - reflexivity.
  - destruct (@rstrip_head c r Hc) as (r' & E'). rewrite E'.
    rewrite lstrip_nonspace by exact Hc. rewrite <- E'. apply rstrip_idem.
Qed.

(* ================================================================== *)
(** * Lists separated by commas *)

Lemma prefix_comma c s : prefix "," (String c s) = Ascii.eqb c comma.
Proof.
  cbn [prefix]. destruct (ascii_dec "," c) as [<- | Hne].
  - destruct s; reflexivity.
  - symmetry. apply Ascii.eqb_neq. unfold comma. congruence.
Qed.

Lemma split_comma_cons c s :
  split "," (String c s)
  = if Ascii.eqb c comma then EmptyString :: split "," s
    else match split "," s with
         | p :: ps => String c p :: ps
         | [] => [String c EmptyString]
         end.
Proof.
  unfold split. cbn [split_from]. rewrite prefix_comma. reflexivity.
Qed.

Lemma split_comma_without s :
  contains_char comma s = false -> split "," s = [s].
Proof.
  induction s as [| c s IH]; [reflexivity |].
  cbn [contains_char]. intros H. apply orb_false_iff in H as [Hc H].
  rewrite split_comma_cons, Hc, (IH H). reflexivity.
Qed.

Lemma split_comma_app s rest :
  contains_char comma s = false ->
  split "," (s ++ String comma rest) = s :: split "," rest.
Proof.
  induction s as [| c s IH]; cbn [append contains_char].
  - intros _. rewrite split_comma_cons. reflexivity.
  - intros H. apply orb_false_iff in H as [Hc H].
    rewrite split_comma_cons, Hc, (IH H). reflexivity.
Qed.

Lemma split_comma_join strs :
  strs <> [] -> Forall (fun s => contains_char comma s = false) strs ->
  split "," (join_with "," strs) = strs.
Proof.
  induction strs as [| s strs IH]; intros Hne H; [congruence |].
  inversion H as [| ? ? Hs Hrest]; subst.
  destruct strs as [| s1 rest]; [apply split_comma_without; exact Hs |].
  rewrite join_with_cons.
  change ("," ++ join_with "," (s1 :: rest))%string
    with (String comma (join_with "," (s1 :: rest))).
  rewrite (@split_comma_app s _ Hs), IH; [reflexivity | discriminate | exact Hrest].
Qed.

(* ================================================================== *)
(** * The VALUES list of an INSERT *)

Lemma scan_values_cons c s prev q cur parts :
  scan_values (String c s) prev q cur parts
  = if Ascii.eqb c quote && negb (after_backslash prev)
    then scan_values s (Some c) (negb q) (cur ++ String c EmptyString) parts
    else if Ascii.eqb c comma && negb q
         then scan_values s (Some c) q EmptyString (parts ++ [strip cur])
         else scan_values s (Some c) q (cur ++ String c EmptyString) parts.
Proof. destruct prev; reflexivity. Qed.

(** A sealed piece is read as one piece. *)
Lemma scan_values_sealed p :
  forall prev q cur parts,
    sealed_from (after_backslash prev) q p = true ->
    (forall rest,
        scan_values (p ++ String comma rest) prev q cur parts
        = scan_values rest (Some comma) false EmptyString
            (parts ++ [strip (cur ++ p)]))
    /\ scan_values p prev q cur parts = (parts, (cur ++ p)%string).
Proof.
  induction p as [| c p IH]; intros prev q cur parts H.
  - cbn [sealed_from] in H. apply negb_true_iff in H. subst q.
    rewrite string_app_empty_r. split; [| reflexivity].
    intros rest. cbn [append]. rewrite scan_values_cons. reflexivity.
  - cbn [sealed_from] in H. cbn [append].
    assert (forall x, (cur ++ String c x = (cur ++ String c EmptyString) ++ x)%string)
      as Hassoc by (intros x; rewrite string_app_assoc; reflexivity).
    destruct (Ascii.eqb c quote && negb (after_backslash prev)) eqn:E1.
    + destruct (IH (Some c) (negb q) (cur ++ String c EmptyString)%string parts H)
        as [IH1 IH2].
      split.
      * intros rest. rewrite scan_values_cons, E1, IH1, <- Hassoc. reflexivity.
      * rewrite scan_values_cons, E1, IH2, <- Hassoc. reflexivity.
    + destruct (Ascii.eqb c comma && negb q) eqn:E2; [discriminate |].
      destruct (IH (Some c) q (cur ++ String c EmptyString)%string parts H)
        as [IH1 IH2].
      split.
      * intros rest. rewrite scan_values_cons, E1, E2, IH1, <- Hassoc. reflexivity.
      * rewrite scan_values_cons, E1, E2, IH2, <- Hassoc. reflexivity.
Qed.

Lemma scan_values_join pieces :
  Forall sealed pieces -> pieces <> [] ->
  forall prev parts,
    after_backslash prev = false ->
    scan_values (join_with "," pieces) prev false EmptyString parts
    = (parts ++ map strip (removelast pieces), last pieces EmptyString).
Proof.
  induction pieces as [| p pieces IH]; intros H Hne prev parts Hprev; [congruence |].
  inversion H as [| ? ? Hp Hrest]; subst. unfold sealed in Hp.
  assert (sealed_from (after_backslash prev) false p = true) as Hp'
    by (rewrite Hprev; exact Hp).
  destruct (@scan_values_sealed p prev false EmptyString parts Hp') as [S1 S2].
  destruct pieces as [| p1 rest].
  - cbn [join_with removelast last map]. rewrite S2, app_nil_r. reflexivity.
  - rewrite join_with_cons.
    change ("," ++ join_with "," (p1 :: rest))%string
      with (String comma (join_with "," (p1 :: rest))).
    rewrite S1, IH; [| exact Hrest | discriminate | reflexivity].
    cbn [append]. rewrite <- app_assoc. reflexivity.
Qed.

Section ValuesList.
Variable py_float : string -> option pyfloat.
Variable py_int : string -> option Z.

Lemma parse_value_strip s :
  _parse_value py_float py_int (strip s) = _parse_value py_float py_int s.
Proof. unfold _parse_value. rewrite strip_idem. reflexivity. Qed.

Lemma map_parse_value_strip l :
  map (_parse_value py_float py_int) (map strip l)
  = map (_parse_value py_float py_int) l.
Proof.
  rewrite map_map. apply map_ext. intros s. apply parse_value_strip.
Qed.

Lemma parse_values_pieces pieces :
  Forall sealed pieces ->
  (pieces = [] \/ last pieces EmptyString <> EmptyString ->
   _parse_values py_float py_int (join_with "," pieces)
   = map (_parse_value py_float py_int) pieces)
  /\ (pieces <> [] ->
      _parse_values py_float py_int (join_with "," (pieces ++ [EmptyString]))
      = map (_parse_value py_float py_int) pieces).
Proof.
  intros H. split.
  - intros [-> | Hlast]; [reflexivity |].
    assert (pieces <> []) as Hne by (intros ->; apply Hlast; reflexivity).
    unfold _parse_values.
    rewrite (@scan_values_join pieces H Hne None [] eq_refl). cbn [app].
    destruct (last pieces EmptyString) as [| c l] eqn:El; [congruence |].
    rewrite <- El, <- (map_parse_value_strip pieces). f_equal.
    replace (map strip pieces)
      with (map strip (removelast pieces ++ [last pieces EmptyString]))
      by (rewrite <- app_removelast_last by exact Hne; reflexivity).
    rewrite map_app. reflexivity.
  - intros Hne. unfold _parse_values.
    assert (Forall sealed (pieces ++ [EmptyString])) as H'.
    { apply Forall_app. split; [exact H |]. constructor; [reflexivity | constructor]. }
    assert (pieces ++ [EmptyString] <> []) as Hne'
      by (intros E; apply app_eq_nil in E as [_ E]; discriminate).
    rewrite (@scan_values_join _ H' Hne' None [] eq_refl).
    rewrite removelast_last, last_last. cbn [app].
    apply map_parse_value_strip.
Qed.

(** X22. A VALUES list made of pieces joined by commas, each piece with
    its quotes closed and no comma outside them, is read as the list of
    the values of the pieces: a comma inside quotes does not cut.  The
    last piece must not be empty; an empty piece after a last comma is
    dropped. *)
Theorem parse_values_reads_the_pieces :
  forall pieces : list string,
    Forall sealed pieces ->
    (pieces = [] \/ last pieces EmptyString <> EmptyString ->
     _parse_values py_float py_int (join_with "," pieces)
     = map (_parse_value py_float py_int) pieces)
    /\ (pieces <> [] ->
        _parse_values py_float py_int (join_with "," (pieces ++ [EmptyString]))
        = map (_parse_value py_float py_int) pieces).
Proof. exact parse_values_pieces. Qed.

(** X23. The columns and values of an INSERT, for column names without
    commas and value pieces as above: when there are as many names as
    pieces, the command maps each name, stripped, to the value of its
    piece (the last one for a name given twice); otherwise the statement
    is refused. *)
Theorem parse_insert_pairs_columns_with_values :
  forall (table_name : string) (cols pieces : list string),
    cols <> [] ->
    Forall (fun s => contains_char comma s = false) cols ->
    Forall sealed pieces ->
    pieces = [] \/ last pieces EmptyString <> EmptyString ->
    _parse_insert py_float py_int table_name
      (join_with "," cols) (join_with "," pieces)
    = if Nat.eqb (List.length cols) (List.length pieces)
      then Parsed (mkInsert table_name
                     (dict_of_items
                        (combine (map strip cols)
                           (map (_parse_value py_float py_int) pieces))))
      else ParseError ColumnCountMismatch.
Proof.
  intros tn cols pieces Hne Hcols Hsealed Hlast.
  unfold _parse_insert.
  rewrite (@split_comma_join cols Hne Hcols).
  rewrite (proj1 (@parse_values_pieces pieces Hsealed) Hlast).
  rewrite !length_map.
  destruct (Nat.eqb (List.length cols) (List.length pieces)); reflexivity.
Qed.
End ValuesList.

Lemma parse_values_reads_the_pieces_witness :
  Forall sealed ["1"; " 'Smith, Al'"; " NULL"]
  /\ _parse_values sample_float sample_int "1, 'Smith, Al', NULL"
     = [VInt 1; VStr "Smith, Al"; VNone]
  /\ _parse_values sample_float sample_int
       (join_with "," ["1"; " 'Smith, Al'"; " NULL"])
     = map (_parse_value sample_float sample_int) ["1"; " 'Smith, Al'"; " NULL"]
  /\ _parse_values sample_float sample_int
       (join_with "," (["1"; " 'Smith, Al'"; " NULL"] ++ [EmptyString]))
     = map (_parse_value sample_float sample_int) ["1"; " 'Smith, Al'"; " NULL"].
Proof.
  assert (Forall sealed ["1"; " 'Smith, Al'"; " NULL"]) as H.
  { repeat (apply Forall_cons; [vm_compute; reflexivity |]). apply Forall_nil. }
  destruct (@parse_values_reads_the_pieces sample_float sample_int
              ["1"; " 'Smith, Al'"; " NULL"] H) as [H1 H2].
  split; [exact H |]. split; [vm_compute; reflexivity |]. split.
  - apply H1. right. cbn [last]. discriminate.
  - apply H2. discriminate.
Defined.

Lemma parse_insert_pairs_columns_with_values_witness :
  _parse_insert sample_float sample_int "users"
    (join_with "," ["id"; " name"]) (join_with "," ["1"; " 'Smith, Al'"])
  = if Nat.eqb (List.length ["id"; " name"]) (List.length ["1"; " 'Smith, Al'"])
    then Parsed (mkInsert "users"
                   (dict_of_items
                      (combine (map strip ["id"; " name"])
                         (map (_parse_value sample_float sample_int)
                            ["1"; " 'Smith, Al'"]))))
    else ParseError ColumnCountMismatch.
Proof.
  apply (@parse_insert_pairs_columns_with_values sample_float sample_int "users"
           ["id"; " name"] ["1"; " 'Smith, Al'"]).
  - discriminate.
  - repeat (apply Forall_cons; [vm_compute; reflexivity |]). apply Forall_nil.
  - repeat (apply Forall_cons; [vm_compute; reflexivity |]). apply Forall_nil.
  - right. discriminate.
Defined.

(* ================================================================== *)
(** * CREATE TABLE: the columns shown are read back *)

Lemma column_info_words col :
  column_info col = join_with " " (col_name col :: column_words col).
Proof.
  destruct col as [nm ty con nul]. unfold column_info, column_words.
  cbn [col_name data_type constraint nullable].
  destruct ty, con, nul; cbn [negb DataType_value app join_with];
    rewrite ?string_app_assoc; reflexivity.
Qed.

Lemma closed_word_facts :
  Forall word ["INT"; "TEXT"; "FLOAT"; "PRIMARY"; "KEY"; "UNIQUE"; "NOT"; "NULL"]
  /\ Forall (fun s => contains_char comma s = false)
       ["INT"; "TEXT"; "FLOAT"; "PRIMARY"; "KEY"; "UNIQUE"; "NOT"; "NULL"].
Proof.
  split; repeat (apply Forall_cons;
                 [first [reflexivity | split; [discriminate | reflexivity]] |]);
    apply Forall_nil.
Qed.

Lemma column_words_closed col :
  incl (column_words col)
       ["INT"; "TEXT"; "FLOAT"; "PRIMARY"; "KEY"; "UNIQUE"; "NOT"; "NULL"].
Proof.
  destruct col as [nm ty con nul]. unfold column_words.
  cbn [data_type constraint nullable].
  intros w Hw. destruct ty, con, nul; simpl in Hw; simpl; intuition.
Qed.

Lemma column_words_are_words col :
  Forall word (column_words col)
  /\ Forall (fun s => contains_char comma s = false) (column_words col).
Proof.
  destruct closed_word_facts as [H1 H2]. rewrite Forall_forall in H1, H2.
  split; apply Forall_forall; intros w Hw; [apply H1 | apply H2];
    apply (@column_words_closed col); exact Hw.
Qed.

Lemma contains_comma_join ws :
  Forall (fun s => contains_char comma s = false) ws ->
  contains_char comma (join_with " " ws) = false.
Proof.
  induction ws as [| w ws IH]; intros H; [reflexivity |].
  inversion H as [| ? ? Hw Hws]; subst.
  destruct ws as [| w1 rest]; [exact Hw |].
  rewrite join_with_cons, !contains_char_app, Hw, (IH Hws). reflexivity.
Qed.

Lemma step_PRIMARY parts st : constraint_step parts st "PRIMARY" = (PRIMARY_KEY, false).
Proof. reflexivity. Qed.

Lemma step_KEY parts st : constraint_step parts st "KEY" = st.
Proof. reflexivity. Qed.

Lemma step_UNIQUE parts st : constraint_step parts st "UNIQUE" = (UNIQUE, snd st).
Proof. reflexivity. Qed.

Lemma step_NULL parts st : constraint_step parts st "NULL" = st.
Proof. reflexivity. Qed.

Lemma step_NOT parts st :
  constraint_step parts st "NOT"
  = if null_after parts "NOT" then (fst st, false) else st.
Proof. reflexivity. Qed.

Lemma null_after_NOT nm ty pre :
  String.eqb nm "NOT" = false ->
  In ty ["INT"; "TEXT"; "FLOAT"] -> pre = [] \/ pre = ["UNIQUE"] ->
  null_after (nm :: ty :: pre ++ ["NOT"; "NULL"]) "NOT" = true.
Proof.
  intros E Hty Hpre. unfold null_after. cbn [list_index]. rewrite E.
  simpl in Hty. destruct Hty as [<- | [<- | [<- | []]]];
    destruct Hpre as [-> | ->]; reflexivity.
Qed.

Lemma column_of_parts_words s col :
  printable col ->
  column_of_parts s (col_name col :: column_words col) = Parsed col.
Proof.
  destruct col as [nm ty con nul]. unfold printable, column_words.
  cbn [col_name data_type constraint nullable].
  intros (_ & _ & Hpk & Hnot).
  assert (In (DataType_value ty) ["INT"; "TEXT"; "FLOAT"]) as Hty
    by (destruct ty; simpl; auto).
  assert (parse_data_type (upper (DataType_value ty)) = Some ty) as Hparse
    by (destruct ty; reflexivity).
  unfold column_of_parts. rewrite Hparse.
  destruct con.
  - (* PRIMARY_KEY *)
    rewrite (Hpk eq_refl). cbn [app fold_left].
    rewrite step_PRIMARY, step_KEY, step_NOT, step_NULL.
    destruct (null_after _ "NOT"); reflexivity.
  - (* UNIQUE *)
    destruct nul; cbn [app fold_left].
    + rewrite step_UNIQUE. reflexivity.
    + rewrite step_UNIQUE, step_NOT, step_NULL.
      assert (String.eqb nm "NOT" = false) as E
        by (apply String.eqb_neq; apply Hnot; [reflexivity | discriminate]).
      pose proof (@null_after_NOT nm (DataType_value ty) ["UNIQUE"] E Hty
                    (or_intror eq_refl)) as Hn.
      cbn [app] in Hn. rewrite Hn. reflexivity.
  - (* NONE *)
    destruct nul; cbn [app fold_left]; [reflexivity |].
    rewrite step_NOT, step_NULL.
    assert (String.eqb nm "NOT" = false) as E
      by (apply String.eqb_neq; apply Hnot; [reflexivity | discriminate]).
    pose proof (@null_after_NOT nm (DataType_value ty) [] E Hty
                  (or_introl eq_refl)) as Hn.
    cbn [app] in Hn. rewrite Hn. reflexivity.
Qed.

Lemma printable_words col :
  printable col -> Forall word (col_name col :: column_words col).
Proof.
  intros (Hw & _). constructor; [exact Hw | apply column_words_are_words].
Qed.

Lemma parse_column_def_column_info col :
  printable col -> parse_column_def (column_info col) = Parsed col.
Proof.
  intros H. unfold parse_column_def.
  rewrite column_info_words at 2.
  rewrite (@split_ws_join _ (@printable_words col H)).
  apply column_of_parts_words; exact H.
Qed.

Lemma parse_column_defs_column_info cols :
  Forall printable cols ->
  parse_column_defs (map column_info cols) = Parsed cols.
Proof.
  induction 1 as [| col cols Hc _ IH]; [reflexivity |].
  cbn [map parse_column_defs].
  rewrite (@parse_column_def_column_info col Hc), IH. reflexivity.
Qed.

Lemma join_comma_space s rest :
  join_with ", " (s :: rest)
  = join_with "," (s :: map (fun x => String " " x) rest).
Proof.
  revert s. induction rest as [| r rest IH]; intros s; [reflexivity |].
  cbn [map]. rewrite !join_with_cons, IH, join_with_cons_char. reflexivity.
Qed.

Lemma strip_space_l s : strip (String " " s) = strip s.
Proof. reflexivity. Qed.

Lemma strip_column_info col :
  printable col -> strip (column_info col) = column_info col.
Proof.
  intros H. rewrite column_info_words. apply strip_join_words.
  apply printable_words; exact H.
Qed.

Lemma contains_comma_column_info col :
  printable col -> contains_char comma (column_info col) = false.
Proof.
  intros H. rewrite column_info_words. apply contains_comma_join.
  destruct H as (_ & Hc & _). constructor; [exact Hc |].
  apply column_words_are_words.
Qed.

(** X24. The text of the columns that CREATE TABLE reports, read as the
    column list of a CREATE TABLE statement, gives the same columns back:
    for columns whose names are words without a comma, with a primary key
    never nullable, and no column called NOT that is not nullable without
    being a primary key. *)
Theorem create_table_columns_read_back :
  forall (table_name : string) (cols : list Column),
    cols <> [] -> Forall printable cols ->
    _parse_create_table table_name (join_with ", " (map column_info cols))
    = Parsed (mkCreateTable table_name cols).
Proof.
  intros tn cols Hne H. unfold _parse_create_table.
  destruct cols as [| col cols]; [congruence |].
  inversion H as [| ? ? Hcol Hcols]; subst.
  cbn [map]. rewrite join_comma_space.
  rewrite split_comma_join.
  - cbn [map]. rewrite map_map.
    assert (map (fun x => strip (String " " x)) (map column_info cols)
            = map column_info cols) as ->.
    { rewrite map_map. clear - Hcols. induction Hcols as [| c l Hc _ IH];
        [reflexivity |].
      cbn [map]. rewrite strip_space_l, (@strip_column_info c Hc), IH. reflexivity. }
    rewrite (@strip_column_info col Hcol).
    change (column_info col :: map column_info cols)
      with (map column_info (col :: cols)).
    rewrite (@parse_column_defs_column_info (col :: cols) H). reflexivity.
  - discriminate.
  - constructor; [apply contains_comma_column_info; exact Hcol |].
    apply Forall_forall. intros x Hx.
    apply in_map_iff in Hx as (y & <- & Hy).
    apply in_map_iff in Hy as (c & <- & Hc).
    rewrite Forall_forall in Hcols.
    cbn [contains_char]. rewrite (@contains_comma_column_info c (Hcols c Hc)).
    reflexivity.
Qed.

Lemma users_columns_printable : Forall printable users_columns.
Proof.
  repeat (apply Forall_cons;
          [split; [split; [discriminate | reflexivity] |];
           split; [reflexivity |];
           split; cbn [constraint nullable col_name]; intros; congruence |]).
  apply Forall_nil.
Qed.

Lemma create_table_columns_read_back_witness :
  join_with ", " (map column_info users_columns)
  = "id INT PRIMARY KEY NOT NULL, name TEXT NOT NULL, email TEXT UNIQUE"
  /\ _parse_create_table "users" (join_with ", " (map column_info users_columns))
     = Parsed (mkCreateTable "users" users_columns).
Proof.
  split; [vm_compute; reflexivity |].
  apply (@create_table_columns_read_back "users" users_columns).
  - discriminate.
  - exact users_columns_printable.
Defined.

(* ================================================================== *)
(** * The SET clause of an UPDATE *)

Lemma space_is_not c x : is_space x = true -> is_space c = false -> Ascii.eqb x c = false.
Proof.
  intros Hx Hc. apply Ascii.eqb_neq. intros ->. congruence.
Qed.

Lemma contains_char_lstrip c s :
  is_space c = false -> contains_char c (lstrip s) = contains_char c s.
Proof.
  intros Hc. induction s as [| x s IH]; [reflexivity |].
  cbn [lstrip]. destruct (is_space x) eqn:Hx; [| reflexivity].
  cbn [contains_char]. rewrite (@space_is_not c x Hx Hc), IH. reflexivity.
Qed.

Lemma contains_char_rstrip c s :
  is_space c = false -> contains_char c (rstrip s) = contains_char c s.
Proof.
  intros Hc. induction s as [| x s IH]; [reflexivity |].
  rewrite rstrip_cons. cbn [contains_char]. rewrite <- IH.
  destruct (rstrip s) as [| a r].
  - destruct (is_space x) eqn:Hx.
    + rewrite (@space_is_not c x Hx Hc). reflexivity.
    + cbn [contains_char]. reflexivity.
  - reflexivity.
Qed.

Lemma contains_char_strip c s :
  is_space c = false -> contains_char c (strip s) = contains_char c s.
Proof.
  intros Hc. unfold strip.
  rewrite (@contains_char_rstrip c (lstrip s) Hc).
  apply (@contains_char_lstrip c s Hc).
Qed.

Section SetClause.
Variable py_float : string -> option pyfloat.
Variable py_int : string -> option Z.

Lemma parse_set_pair_ok set_values part :
  has_equals part ->
  exists kv, conjunct_item py_float py_int part kv
             /\ parse_set_pair py_float py_int set_values part
                = Parsed (dict_set (fst kv) (snd kv) set_values).
Proof.
  unfold has_equals, parse_set_pair. intros H. rewrite H. simpl negb.
  destruct (split_once_first _ _ H) as (l & r & -> & Hp & Hl).
  exists (strip l, _parse_value py_float py_int (strip r)).
  split; [exists l, r; auto | reflexivity].
Qed.

Lemma parse_set_pairs_ok parts :
  Forall has_equals parts ->
  forall set_values,
  exists items,
    Forall2 (conjunct_item py_float py_int) parts items
    /\ parse_set_pairs py_float py_int set_values parts
       = Parsed (fold_left (fun d kv => dict_set (fst kv) (snd kv) d)
                   items set_values).
Proof.
  induction 1 as [| part parts Hp _ IH]; intros set_values.
  - exists []; split; [constructor | reflexivity].
  - destruct (@parse_set_pair_ok set_values part Hp) as (kv & Hkv & E).
    destruct (IH (dict_set (fst kv) (snd kv) set_values)) as (items & Hitems & E').
    exists (kv :: items). split; [constructor; assumption |].
    simpl. rewrite E. exact E'.
Qed.

Lemma parse_set_pairs_fail good part rest :
  Forall has_equals good ->
  contains_char equals_sign part = false ->
  forall set_values,
    parse_set_pairs py_float py_int set_values (good ++ part :: rest)
    = ParseError (InvalidSetClause part).
Proof.
  induction 1 as [| g good Hg _ IH]; intros Hp set_values; simpl.
  - unfold parse_set_pair. rewrite Hp. reflexivity.
  - destruct (@parse_set_pair_ok set_values g Hg) as (kv & _ & ->).
    apply IH; assumption.
Qed.

(** X26. The SET clause of an UPDATE is cut at every comma, quoted or
    not, and each piece is stripped.  The first piece without an ['=']
    stops the parse with the invalid-SET error naming it, before the WHERE
    clause is looked at.  When every piece has an ['='], each is cut at
    its first ['='] into a column and a value literal, the SET values are
    the dictionary of these assignments in order, and the WHERE clause is
    parsed next.  In particular a quoted value with a comma in it is cut
    in two, and the statement is refused when its second half has no
    ['=']. *)
Theorem parse_update_set_clause :
  forall (table_name set_str : string) (where_str : option string),
    let pairs := map strip (split "," set_str) in
    (forall good part rest,
        pairs = good ++ part :: rest ->
        Forall has_equals good ->
        contains_char equals_sign part = false ->
        _parse_update py_float py_int table_name set_str where_str
        = ParseError (InvalidSetClause part))
    /\ (Forall has_equals pairs ->
        exists items,
          Forall2 (conjunct_item py_float py_int) pairs items
          /\ _parse_update py_float py_int table_name set_str where_str
             = match parse_optional_conditions py_float py_int where_str with
               | ParseError e => ParseError e
               | Parsed where_conditions =>
                   Parsed (mkUpdate table_name (dict_of_items items)
                             where_conditions)
               end)
    /\ (forall l r,
           set_str = (l ++ String comma r)%string ->
           contains_char comma l = false -> contains_char comma r = false ->
           has_equals l -> contains_char equals_sign r = false ->
           _parse_update py_float py_int table_name set_str where_str
           = ParseError (InvalidSetClause (strip r))).
Proof.
  intros tn set_str where_str pairs.
  assert (forall good part rest,
             pairs = good ++ part :: rest ->
             Forall has_equals good ->
             contains_char equals_sign part = false ->
             _parse_update py_float py_int tn set_str where_str
             = ParseError (InvalidSetClause part)) as Hfail.
  { intros good part rest E Hgood Hpart.
    unfold _parse_update. fold pairs. rewrite E.
    rewrite (@parse_set_pairs_fail good part rest Hgood Hpart []). reflexivity. }
  split; [exact Hfail |]. split.
  - intros Hall. unfold _parse_update. fold pairs.
    destruct (@parse_set_pairs_ok pairs Hall []) as (items & Hitems & E).
    rewrite E. exists items. split; [exact Hitems | reflexivity].
  - intros l r -> Hl Hr Heq Hno.
    apply (Hfail [strip l] (strip r) []).
    + subst pairs.
      rewrite (@split_comma_app l r Hl), (@split_comma_without r Hr). reflexivity.
    + constructor; [| constructor]. unfold has_equals in *.
      rewrite (@contains_char_strip equals_sign l eq_refl). exact Heq.
    + rewrite (@contains_char_strip equals_sign r eq_refl). exact Hno.
Qed.
End SetClause.

Lemma parse_update_set_clause_witness :
  _parse_update sample_float sample_int "users" "name = 'Al', id = 7"
    (Some "id = 1")
  = Parsed (mkUpdate "users" [("name", VStr "Al"); ("id", VInt 7)]
              (Some [("id", VInt 1)]))
  /\ _parse_update sample_float sample_int "users"
       ("name = 'Smith" ++ String comma " Al'") None
     = ParseError (InvalidSetClause (strip " Al'")).
Proof.
  split; [vm_compute; reflexivity |].
  apply (proj2 (proj2 (@parse_update_set_clause sample_float sample_int "users"
                         ("name = 'Smith" ++ String comma " Al'") None))
           "name = 'Smith" " Al'");
    reflexivity.
Defined.

(* ================================================================== *)
(** * CREATE TABLE: what an accepted column list gives *)

Lemma length_split_comma s :
  List.length (split "," s) = S (count_char comma s).
Proof.
  induction s as [| c s IH]; [reflexivity |].
  rewrite split_comma_cons. cbn [count_char].
  destruct (Ascii.eqb c comma).
  - cbn [List.length]. rewrite IH. reflexivity.
  - destruct (split "," s) as [| p ps]; [discriminate IH | exact IH].
Qed.

Lemma constraint_steps_key parts rest :
  forall st,
    (fst st = PRIMARY_KEY -> snd st = false) ->
    fst (fold_left (constraint_step parts) rest st) = PRIMARY_KEY ->
    snd (fold_left (constraint_step parts) rest st) = false.
Proof.
  induction rest as [| part rest IH]; intros st Hst; [exact Hst |].
  cbn [fold_left]. apply IH. unfold constraint_step.
  destruct (String.eqb (upper part) "PRIMARY_KEY" || String.eqb (upper part) "PRIMARY");
    [reflexivity |].
  destruct (String.eqb (upper part) "UNIQUE"); [discriminate |].
  destruct (String.eqb (upper part) "NOT" && null_after parts part);
    [reflexivity | exact Hst].
Qed.

Lemma parse_column_def_Parsed col_def col :
  parse_column_def col_def = Parsed col ->
  (exists ty rest,
      split_ws col_def = col_name col :: ty :: rest
      /\ parse_data_type (upper ty) = Some (data_type col))
  /\ word (col_name col)
  /\ (constraint col = PRIMARY_KEY -> nullable col = false).
Proof.
  unfold parse_column_def, column_of_parts. intros H.
  pose proof (split_ws_words col_def) as Hw.
  destruct (split_ws col_def) as [| nm [| ty rest]]; try discriminate.
  destruct (parse_data_type (upper ty)) as [dt |] eqn:Hty; [| discriminate].
  injection H as <-. cbn [col_name data_type constraint nullable].
  split; [exists ty, rest; split; [reflexivity | exact Hty] |].
  split; [inversion Hw; assumption |].
  apply constraint_steps_key. discriminate.
Qed.

Lemma parse_column_defs_Parsed column_defs :
  forall columns,
    parse_column_defs column_defs = Parsed columns ->
    Forall2 (fun col_def col => parse_column_def col_def = Parsed col)
            column_defs columns.
Proof.
  induction column_defs as [| d ds IH]; intros columns H; simpl in H.
  - injection H as <-. constructor.
  - destruct (parse_column_def d) as [e | col] eqn:Hd; [discriminate |].
    destruct (parse_column_defs ds) as [e | cols] eqn:Hds; [discriminate |].
    injection H as <-. constructor; [exact Hd | apply IH; reflexivity].
Qed.

(** X25. A CREATE TABLE column list that is accepted gives one column for
    each piece between commas, in order: the column's name is the first
    word of its piece and its type the second word read without regard to
    case.  So there is one column more than there are commas, never none;
    every column name is a non-empty word without white space; and a
    column that ends up PRIMARY_KEY is never nullable. *)
Theorem parse_create_table_columns :
  forall (table_name columns_str : string) (command : CreateTableCommand),
    _parse_create_table table_name columns_str = Parsed command ->
    ct_table_name command = table_name
    /\ Forall2 (fun piece col =>
                  exists ty rest,
                    split_ws piece = col_name col :: ty :: rest
                    /\ parse_data_type (upper ty) = Some (data_type col))
               (map strip (split "," columns_str)) (ct_columns command)
    /\ List.length (ct_columns command) = S (count_char comma columns_str)
    /\ Forall (fun col => word (col_name col)
                          /\ (constraint col = PRIMARY_KEY -> nullable col = false))
              (ct_columns command).
Proof.
  intros tn s command H. unfold _parse_create_table in H.
  destruct (parse_column_defs (map strip (split "," s))) as [e | columns] eqn:E;
    [discriminate |].
  injection H as <-. cbn [ct_table_name ct_columns].
  apply parse_column_defs_Parsed in E.
  split; [reflexivity |]. split; [| split].
  - eapply Forall2_impl; [| exact E].
    intros d col Hd. exact (proj1 (@parse_column_def_Parsed d col Hd)).
  - rewrite <- (Forall2_length E), length_map. apply length_split_comma.
  - clear - E. induction E as [| d col ds cols Hd _ IH]; constructor; [| exact IH].
    exact (proj2 (@parse_column_def_Parsed d col Hd)).
Qed.

Lemma parse_create_table_columns_witness :
  _parse_create_table "users" "id int primary key, name Text not null,email TEXT unique"
  = Parsed (mkCreateTable "users" users_columns)
  /\ List.length (ct_columns (mkCreateTable "users" users_columns))
     = S (count_char comma "id int primary key, name Text not null,email TEXT unique")
  /\ Forall (fun col => word (col_name col)
                        /\ (constraint col = PRIMARY_KEY -> nullable col = false))
            (ct_columns (mkCreateTable "users" users_columns)).
Proof.
  assert (_parse_create_table "users"
            "id int primary key, name Text not null,email TEXT unique"
          = Parsed (mkCreateTable "users" users_columns)) as E
    by (vm_compute; reflexivity).
  destruct (@parse_create_table_columns "users"
              "id int primary key, name Text not null,email TEXT unique"
              (mkCreateTable "users" users_columns) E) as (_ & _ & Hlen & Hcols).
  split; [exact E |]. split; [exact Hlen | exact Hcols].
Defined.
